(** * bbff-brewco: the photo site's validation, image adapter and handlers

    A shallow embedding of the TypeScript sources

      - [src/utils/validation.ts]        (module [Validation])
      - [src/utils/error-handling.ts]    (module [ErrorHandling])
      - [src/utils/image-processing.ts]  (module [ImageProcessing])
      - [functions/api/upload.ts]        (module [Upload])
      - [functions/api/list.ts]          (module [Listing])
      - [functions/api/images/[key].ts]  (module [Images])

    followed by the properties of the specification that are stated about
    them.

    Conventions of the embedding.

    - A JavaScript string is a [string]: a sequence of code units, here the
      8-bit ones (Latin-1).  Regular expressions without the [u] flag work
      code unit by code unit, and so do the functions below.
    - A JavaScript number is a [number]: [NaN] or an integer.  The numbers
      of these sources are results of [parseInt], sizes, HTTP statuses and
      integer literals; the rounding of integers beyond 2^53 is not
      modelled.
    - [undefined]/[null] is [None]; an environment variable is a [string]
      whose empty value stands for "unset" (the sources only use them under
      [||] and [===], which do not tell the two apart).
    - A call that may throw returns an [Outcome]; a function that calls the
      outside world returns an [Eff]: the calls it made, in order, and its
      outcome. *)

From Stdlib Require Import ZArith QArith Ascii String DecimalString.
From Stdlib.Strings Require Import Byte.
From stdpp Require Import base option list strings gmap.

Local Open Scope string_scope.
Local Open Scope Z_scope.
Local Open Scope list_scope.

(** ** JavaScript primitives *)

Module JS.

(** *** Strings *)

Definition code (c : ascii) : N := N_of_ascii c.

Definition inRange (lo hi : N) (c : ascii) : bool :=
  ((lo <=? code c) && (code c <=? hi))%N.

Definition isDigit : ascii -> bool := inRange 48 57.
Definition isUpper : ascii -> bool := inRange 65 90.
Definition isLower : ascii -> bool := inRange 97 122.

Definition isChar (x c : ascii) : bool := Ascii.eqb c x.

(** [\w] of a regular expression: [[A-Za-z0-9_]]. *)
Definition isWord (c : ascii) : bool :=
  isUpper c || isLower c || isDigit c || isChar "_" c.

Fixpoint mapString (f : ascii -> ascii) (s : string) : string :=
  match s with
  | EmptyString => EmptyString
  | String c s' => String (f c) (mapString f s')
  end.

Fixpoint allString (p : ascii -> bool) (s : string) : bool :=
  match s with
  | EmptyString => true
  | String c s' => p c && allString p s'
  end.

(** [s.replace(/[^...]/g, '_')] for a character class [keep]. *)
Definition replaceOutside (keep : ascii -> bool) (s : string) : string :=
  mapString (fun c => if keep c then c else "_"%char) s.

(** [s.replace(/_{2,}/g, '_')]: of a maximal run of two or more
    underscores one is left. *)
Fixpoint collapseUnderscores (s : string) : string :=
  match s with
  | EmptyString => EmptyString
  | String c s' =>
      if isChar "_" c then
        match s' with
        | String c' _ =>
            if isChar "_" c' then collapseUnderscores s'
            else String c (collapseUnderscores s')
        | EmptyString => String c EmptyString
        end
      else String c (collapseUnderscores s')
  end.

(** [String.prototype.toLowerCase] on Latin-1 code units: A-Z and the
    accented capitals U+00C0..U+00DE (but not the multiplication sign
    U+00D7) move up by 32. *)
Definition lowerChar (c : ascii) : ascii :=
  if isUpper c || (inRange 192 222 c && negb (code c =? 215)%N)
  then ascii_of_N (code c + 32)
  else c.

Definition toLowerCase : string -> string := mapString lowerChar.

Fixpoint startsWith (s p : string) : bool :=
  match p, s with
  | EmptyString, _ => true
  | String a p', String b s' => Ascii.eqb a b && startsWith s' p'
  | String _ _, EmptyString => false
  end.

(** [s.includes(p)] *)
Fixpoint includes (s p : string) : bool :=
  startsWith s p ||
  match s with
  | EmptyString => false
  | String _ s' => includes s' p
  end.

(** [parts.join(sep)] *)
Definition join (sep : string) (parts : list string) : string :=
  String.concat sep parts.

(** [s.split('.').pop()]: what follows the last dot, the whole string
    when there is none.  [cur] is the segment read so far. *)
Fixpoint lastSegment (cur s : string) : string :=
  match s with
  | EmptyString => cur
  | String c s' =>
      if isChar "." c then lastSegment EmptyString s'
      else lastSegment (cur +:+ String c EmptyString) s'
  end.

(** [x || d] on strings and on possibly missing strings. *)
Definition orElse (x d : string) : string :=
  if String.eqb x "" then d else x.

Definition orDefault (x : option string) (d : string) : string :=
  match x with
  | Some s => orElse s d
  | None => d
  end.

(** [x || undefined] *)
Definition givenStrOpt (x : option string) : option string :=
  match x with
  | Some s => if String.eqb s "" then None else Some s
  | None => None
  end.

(** Truthiness of a possibly missing string ([if (param)]). *)
Definition truthyStr (x : option string) : bool :=
  match x with
  | Some s => negb (String.eqb s "")
  | None => false
  end.

(** *** Numbers *)

Inductive number : Type :=
| NaN
| Num (z : Z).

Definition truthy (n : number) : bool :=
  match n with
  | NaN => false
  | Num z => negb (z =? 0)
  end.

(** The relational operators; every comparison with [NaN] is false. *)
Definition lt (a b : number) : bool :=
  match a, b with
  | Num x, Num y => x <? y
  | _, _ => false
  end.

Definition gt (a b : number) : bool := lt b a.

Definition le (a b : number) : bool :=
  match a, b with
  | Num x, Num y => x <=? y
  | _, _ => false
  end.

Definition ge (a b : number) : bool := le b a.

(** [Math.min(a, b)] *)
Definition min (a b : number) : number :=
  match a, b with
  | Num x, Num y => Num (Z.min x y)
  | _, _ => NaN
  end.

Definition ZtoString (z : Z) : string :=
  NilZero.string_of_int (Z.to_int z).

(** [String(n)], as used by template literals and [join]. *)
Definition toString (n : number) : string :=
  match n with
  | NaN => "NaN"
  | Num z => ZtoString z
  end.

(** *** parseInt *)

(** White space skipped by [parseInt]: TAB, LF, VT, FF, CR, SP, NBSP. *)
Definition isWhiteSpace (c : ascii) : bool :=
  inRange 9 13 c || (code c =? 32)%N || (code c =? 160)%N.

Fixpoint trimStart (s : string) : string :=
  match s with
  | String c s' => if isWhiteSpace c then trimStart s' else s
  | EmptyString => s
  end.

Definition digitValue (c : ascii) : option Z :=
  if isDigit c then Some (Z.of_N (code c) - 48)
  else if inRange 97 122 c then Some (Z.of_N (code c) - 87)
  else if inRange 65 90 c then Some (Z.of_N (code c) - 55)
  else None.

Definition digitIn (radix : Z) (c : ascii) : option Z :=
  match digitValue c with
  | Some d => if d <? radix then Some d else None
  | None => None
  end.

(** Value of the longest prefix of digits, [acc] being the value of the
    digits already read. *)
Fixpoint parseDigits (radix acc : Z) (s : string) : Z :=
  match s with
  | String c s' =>
      match digitIn radix c with
      | Some d => parseDigits radix (acc * radix + d) s'
      | None => acc
      end
  | EmptyString => acc
  end.

Definition parseMagnitude (radix : Z) (s : string) : number :=
  match s with
  | String c _ =>
      match digitIn radix c with
      | Some _ => Num (parseDigits radix 0 s)
      | None => NaN
      end
  | EmptyString => NaN
  end.

Definition parseUnsigned (s : string) : number :=
  match s with
  | String "0" (String "x" s') => parseMagnitude 16 s'
  | String "0" (String "X" s') => parseMagnitude 16 s'
  | _ => parseMagnitude 10 s
  end.

Definition negate (n : number) : number :=
  match n with
  | NaN => NaN
  | Num z => Num (- z)
  end.

(** [parseInt(s)] with no radix argument. *)
Definition parseInt (s : string) : number :=
  match trimStart s with
  | String "-" s' => negate (parseUnsigned s')
  | String "+" s' => parseUnsigned s'
  | s' => parseUnsigned s'
  end.

(** *** Calls that may throw *)

Inductive Outcome (A : Type) : Type :=
| Ok (a : A)
| Throw (e : string).
Arguments Ok {A} a.
Arguments Throw {A} e.

End JS.

Import JS.

(** ** Shapes shared by the sources ([src/types/index.ts]) *)

Module Types.

(** Binary data: the bytes of an [ArrayBuffer] or of a stream. *)
Abbreviation Data := (list byte).

(** A [File] of a multipart form.  [fileIoError f a b] tells whether
    reading [f.slice(a, b)] rejects. *)
Record File : Type := {
  fileName : string;
  fileType : string;
  fileContent : Data;
  fileIoError : nat -> nat -> bool;
}.

Definition fileSize (f : File) : Z := Z.of_nat (length (fileContent f)).

Record PhotoMetadata : Type := {
  key : string;
  filename : string;
  size : Z;
  contentType : string;
  uploadedAt : string;
}.

Record ImageProcessingOptions : Type := {
  width : option number;
  height : option number;
  quality : option number;
  format : option string;
  watermark : option bool;
}.

Inductive Detail : Type :=
| DetailStr (s : string)
| DetailNum (z : Z).

Record ApiError : Type := {
  message : string;
  code : string;
  errStatus : Z;
  details : option (string * Detail);
}.

Record UploadConstraints : Type := {
  maxFileSize : number;
  allowedTypes : list string;
  maxFiles : number;
}.

Record FailedUpload : Type := {
  failedFilename : string;
  failedError : string;
}.

(** The object the upload handler answers with ([photos] and [errors]
    are left out when empty). *)
Record UploadResponse : Type := {
  success : bool;
  photos : option (list PhotoMetadata);
  errors : option (list FailedUpload);
}.

End Types.

Import Types.

(** ** The platform: requests, responses, bindings and their calls *)

Module Platform.

(** Options of the image transform service. *)
Record TransformOptions : Type := {
  t_width : option number;
  t_height : option number;
  t_quality : option number;
}.

Record OutputOptions : Type := {
  o_format : option string;
  o_quality : option number;
}.

Inductive Anchor : Type :=
| TopLeft (top left : Z)
| BottomRight (bottom right : Z).

Record DrawOptions : Type := {
  d_anchor : Anchor;
  d_width : Z;
  d_height : Z;
  d_opacity : Q;
  d_fit : string;
}.

Record R2ListOptions : Type := {
  l_prefix : string;
  l_limit : number;
  l_cursor : option string;
}.

(** The body of a response: nothing, an error envelope, the answer of
    the upload handler, the listing without photos
    ([{photos: [], hasMore: false}]), other JSON text, or bytes. *)
Inductive Body : Type :=
| NoBody
| ErrorBody (e : ApiError)
| UploadBody (r : UploadResponse)
| EmptyListingBody
| JsonBody (text : string)
| BytesBody (d : Data).

Record Response : Type := {
  status : Z;
  headers : list (string * string);
  body : Body;
}.

(** [response.ok] *)
Definition ok (r : Response) : bool :=
  (200 <=? status r) && (status r <=? 299).

(** Header names compare without case; [get] joins the values of a
    repeated header. *)
Definition headerValues (hs : list (string * string)) (name : string)
  : list string :=
  map snd (filter (fun h => toLowerCase (fst h) = toLowerCase name) hs).

Definition headersGet (hs : list (string * string)) (name : string)
  : option string :=
  match headerValues hs name with
  | [] => None
  | vs => Some (join ", " vs)
  end.

(** [headers.set(name, value)] *)
Definition headersSet (hs : list (string * string)) (name value : string)
  : list (string * string) :=
  filter (fun h => toLowerCase (fst h) <> toLowerCase name) hs
    ++ [(name, value)].

(** A request: its method, the decoded pairs of its query string, its
    headers, and what [formData().getAll('photos')] gives. *)
Record Request : Type := {
  method : string;
  searchParams : list (string * string);
  reqHeaders : list (string * string);
  formData : Outcome (list File);
}.

(** [url.searchParams.get(name)]: the first value of that name. *)
Fixpoint paramGet (ps : list (string * string)) (name : string)
  : option string :=
  match ps with
  | [] => None
  | (k, v) :: ps' => if String.eqb k name then Some v else paramGet ps' name
  end.

(** The calls made to the outside world. *)
Inductive Event : Type :=
| ConsoleError (msg : string)
| AnalyticsWrite (kind : string)
| CacheMatch (url : string)
| CachePut (url : string) (r : Response)
| BucketGet (k : string)
| BucketPut (k : string) (f : File)
| BucketList (o : R2ListOptions)
| KvGet (name : string)
| ImagesInput (d : Data)
| ImagesTransform (o : TransformOptions)
| ImagesDraw (o : DrawOptions)
| ImagesOutput (o : OutputOptions).

(** An effectful computation: the calls made, then the outcome. *)
Definition Eff (A : Type) : Type := list Event * Outcome A.

Definition ret {A} (a : A) : Eff A := ([], Ok a).

Definition throw {A} (e : string) : Eff A := ([], Throw e).

Definition bind {A B} (m : Eff A) (k : A -> Eff B) : Eff B :=
  match m with
  | (t, Ok a) => let (t', r) := k a in (t ++ t', r)
  | (t, Throw e) => (t, Throw e)
  end.

(** A call to the outside world with the outcome it has. *)
Definition call {A} (e : Event) (r : Outcome A) : Eff A := ([e], r).

Definition emit (e : Event) : Eff unit := ([e], Ok tt).

(** [try { m } catch (e) { h e }] *)
Definition tryCatch {A} (m : Eff A) (h : string -> Eff A) : Eff A :=
  match m with
  | (t, Ok a) => (t, Ok a)
  | (t, Throw e) => let (t', r) := h e in (t ++ t', r)
  end.

Definition trace {A} (m : Eff A) : list Event := fst m.
Definition outcome {A} (m : Eff A) : Outcome A := snd m.

(** [Promise.allSettled] over computations started in list order: every
    outcome is kept.  The trace lists the calls of each computation
    together; how concurrent computations interleave is not modelled. *)
Fixpoint allSettled {A} (ms : list (Eff A)) : Eff (list (Outcome A)) :=
  match ms with
  | [] => ret []
  | m :: ms' =>
      let (t', rs) := allSettled ms' in
      (fst m ++ t',
       match rs with
       | Ok l => Ok (snd m :: l)
       | Throw e => Throw e
       end)
  end.

(** The image transform binding [env.IMAGES]: a processor is built by
    [input], refined by [transform] and [draw], and rendered by
    [output(...).response()].  Each step may throw. *)
Record ImagesBinding : Type := {
  Proc : Type;
  input : Data -> Outcome Proc;
  transform : Proc -> TransformOptions -> Outcome Proc;
  draw : Proc -> Proc -> DrawOptions -> Outcome Proc;
  output : Proc -> OutputOptions -> Outcome Response;
}.

(** [env.BRANDING_ASSETS]: [get(name, 'arrayBuffer')]. *)
Record KVNamespace : Type := {
  kvGet : string -> Outcome (option Data);
}.

Record R2Object : Type := {
  r2Body : Data;
}.

(** An entry of a listing: key, size, upload date and the custom and
    HTTP metadata the handlers read. *)
Record R2Listed : Type := {
  listedKey : string;
  listedSize : Z;
  listedUploaded : string;
  listedOriginalName : option string;
  listedContentType : option string;
  listedDimensions : option string;
}.

Record R2Objects : Type := {
  objects : option (list R2Listed);
  truncated : bool;
  cursor : option string;
}.

(** [env.PHOTOS_BUCKET] *)
Record R2Bucket : Type := {
  bucketGet : string -> Outcome (option R2Object);
  bucketPut : string -> File -> Outcome unit;
  bucketList : R2ListOptions -> Outcome R2Objects;
}.

(** [env.ANALYTICS]: [writeDataPoint], told apart by the [type] of the
    point written. *)
Record AnalyticsEngine : Type := {
  writeDataPoint : string -> Outcome unit;
}.

(** [caches.default] *)
Record Cache : Type := {
  cacheMatch : string -> Outcome (option Response);
  cachePut : string -> Response -> Outcome unit;
}.

Record Env : Type := {
  PHOTOS_BUCKET : option R2Bucket;
  BRANDING_ASSETS : option KVNamespace;
  IMAGES : option ImagesBinding;
  ANALYTICS : option AnalyticsEngine;
  ENVIRONMENT : string;
  MAX_UPLOAD_SIZE : string;
  UPLOAD_RATE_LIMIT : string;
  CACHE_TTL : string;
}.

(** The context a Pages Function is called with; [params] holds the
    route parameters. *)
Record Context : Type := {
  request : Request;
  env : Env;
  params : list (string * string);
}.

End Platform.

Import Platform.

Notation "x <- m ;; k" := (bind m (fun x => k))
  (at level 100, m at next level, right associativity).
Notation "m ;;; k" := (bind m (fun _ => k))
  (at level 100, right associativity).

(** [array.includes(x)] on an array of strings. *)
Definition arrayIncludes (xs : list string) (x : string) : bool :=
  existsb (String.eqb x) xs.

(** ** [src/utils/error-handling.ts] *)

Module ErrorHandling.

Module ERROR_CODES.
Definition VALIDATION_FAILED := "VALIDATION_FAILED".
Definition UPLOAD_FAILED := "UPLOAD_FAILED".
Definition FILE_NOT_FOUND := "FILE_NOT_FOUND".
Definition UNAUTHORIZED := "UNAUTHORIZED".
Definition RATE_LIMITED := "RATE_LIMITED".
Definition STORAGE_ERROR := "STORAGE_ERROR".
Definition PROCESSING_ERROR := "PROCESSING_ERROR".
Definition INVALID_REQUEST := "INVALID_REQUEST".
Definition INTERNAL_ERROR := "INTERNAL_ERROR".
End ERROR_CODES.

Module HTTP_STATUS.
Definition OK := 200.
Definition CREATED := 201.
Definition PARTIAL_CONTENT := 206.
Definition BAD_REQUEST := 400.
Definition UNAUTHORIZED := 401.
Definition NOT_FOUND := 404.
Definition METHOD_NOT_ALLOWED := 405.
Definition RATE_LIMITED := 429.
Definition INTERNAL_SERVER_ERROR := 500.
Definition SERVICE_UNAVAILABLE := 503.
End HTTP_STATUS.

(** [createErrorResponse(message, code = INTERNAL_ERROR, status = 500,
    details?)] *)
Definition createErrorResponse (message : string) (code : option string)
    (status : option Z) (details : option (string * Detail)) : Response :=
  let code := default ERROR_CODES.INTERNAL_ERROR code in
  let status := default HTTP_STATUS.INTERNAL_SERVER_ERROR status in
  let error :=
    {| Types.message := message; Types.code := code;
       errStatus := status; Types.details := details |} in
  {| Platform.status := status;
     headers := [("Content-Type", "application/json");
                 ("Cache-Control", "no-store")];
     body := ErrorBody error |}.

Definition createValidationError (message : string) (field : option string)
  : Response :=
  createErrorResponse message
    (Some ERROR_CODES.VALIDATION_FAILED)
    (Some HTTP_STATUS.BAD_REQUEST)
    (match field with
     | Some f => if truthyStr field then Some ("field", DetailStr f) else None
     | None => None
     end).

Definition createUnauthorizedError (message : option string) : Response :=
  createErrorResponse (default "Unauthorized access" message)
    (Some ERROR_CODES.UNAUTHORIZED)
    (Some HTTP_STATUS.UNAUTHORIZED)
    None.

(** [retryAfter] is an integer here (a [Math.ceil]). *)
Definition createRateLimitError (message : option string)
    (retryAfter : option Z) : Response :=
  let given :=
    match retryAfter with
    | Some r => if r =? 0 then None else Some r
    | None => None
    end in
  let headers :=
    [("Content-Type", "application/json"); ("Cache-Control", "no-store")]
      ++ match given with
         | Some r => [("Retry-After", ZtoString r)]
         | None => []
         end in
  let error :=
    {| Types.message := default "Rate limit exceeded" message;
       Types.code := ERROR_CODES.RATE_LIMITED;
       errStatus := HTTP_STATUS.RATE_LIMITED;
       Types.details :=
         match given with
         | Some r => Some ("retryAfter", DetailNum r)
         | None => None
         end |} in
  {| Platform.status := HTTP_STATUS.RATE_LIMITED;
     Platform.headers := headers;
     body := ErrorBody error |}.

Definition createNotFoundError (filename : option string) : Response :=
  let message :=
    match filename with
    | Some f =>
        if truthyStr filename then "File '" +:+ f +:+ "' not found"
        else "Requested resource not found"
    | None => "Requested resource not found"
    end in
  createErrorResponse message
    (Some ERROR_CODES.FILE_NOT_FOUND)
    (Some HTTP_STATUS.NOT_FOUND)
    (match filename with
     | Some f =>
         if truthyStr filename then Some ("filename", DetailStr f) else None
     | None => None
     end).

(** [logError(error, context, env)]: to the console, and to the analytics
    sink when there is one; a failure of the sink is only logged. *)
Definition logError (error : string) (env : Env) : Eff unit :=
  emit (ConsoleError ("Error: " +:+ error)) ;;;
  match ANALYTICS env with
  | Some a =>
      tryCatch
        (call (AnalyticsWrite "error") (writeDataPoint a "error"))
        (fun _ => emit (ConsoleError "Failed to log to analytics:"))
  | None => ret tt
  end.

(** [handleCORS(request, allowedOrigins = ['*'])] *)
Definition handleCORS (request : Request)
    (allowedOrigins : option (list string)) : option Response :=
  let allowedOrigins := default ["*"] allowedOrigins in
  let origin := headersGet (reqHeaders request) "Origin" in
  if String.eqb (method request) "OPTIONS" then
    let corsHeaders :=
      [("Access-Control-Allow-Methods", "GET, POST, PUT, DELETE, OPTIONS");
       ("Access-Control-Allow-Headers",
        "Content-Type, Authorization, X-Upload-Token");
       ("Access-Control-Max-Age", "86400")] in
    let corsHeaders :=
      if arrayIncludes allowedOrigins "*" then
        corsHeaders
          ++ [("Access-Control-Allow-Origin", orDefault origin "*");
              ("Access-Control-Allow-Credentials", "true")]
      else if truthyStr origin
              && arrayIncludes allowedOrigins (default "" origin) then
        corsHeaders
          ++ [("Access-Control-Allow-Origin", default "" origin);
              ("Access-Control-Allow-Credentials", "true")]
      else if negb (truthyStr origin) && arrayIncludes allowedOrigins "*"
      then corsHeaders ++ [("Access-Control-Allow-Origin", "*")]
      else corsHeaders in
    Some {| Platform.status := 204; headers := corsHeaders; body := NoBody |}
  else None.

End ErrorHandling.

(** ** [src/utils/validation.ts] *)

Module Validation.

Record ValidationResult : Type := {
  valid : bool;
  error : option string;
}.

Definition invalid (msg : string) : ValidationResult :=
  {| valid := false; error := Some msg |}.

(** [file.slice(a, b).arrayBuffer()] *)
Definition slice (file : File) (a b : nat) : Outcome Data :=
  if fileIoError file a b then Throw "read failed"
  else Ok (take (b - a) (drop a (fileContent file))).

(** [bytes[i] === b]; an index past the end reads [undefined]. *)
Definition byteIs (bytes : Data) (i : nat) (b : byte) : bool :=
  match bytes !! i with
  | Some x => Byte.eqb x b
  | None => false
  end.

Definition isValidImageFile (file : File) : bool :=
  match slice file 0 8 with
  | Throw _ => false
  | Ok bytes =>
      if byteIs bytes 0 xff && byteIs bytes 1 xd8 && byteIs bytes 2 xff
      then true
      else if byteIs bytes 0 x89 && byteIs bytes 1 x50
              && byteIs bytes 2 x4e && byteIs bytes 3 x47
              && byteIs bytes 4 x0d && byteIs bytes 5 x0a
              && byteIs bytes 6 x1a && byteIs bytes 7 x0a
      then true
      else if byteIs bytes 0 x52 && byteIs bytes 1 x49
              && byteIs bytes 2 x46 && byteIs bytes 3 x46
      then
        match slice file 8 12 with
        | Throw _ => false
        | Ok webpBytes =>
            if byteIs webpBytes 0 x57 && byteIs webpBytes 1 x45
               && byteIs webpBytes 2 x42 && byteIs webpBytes 3 x50
            then true
            else false
        end
      else false
  end.

Section WithFormatBytes.

(** [formatBytes] renders a size in human units through [Math.log]
    and [toFixed]; floating point is outside this embedding, so the
    function is a parameter of what follows. *)
Variable formatBytes : number -> string.

Definition DEFAULT_CONSTRAINTS : UploadConstraints :=
  {| maxFileSize := Num (10 * 1024 * 1024);
     allowedTypes := ["image/jpeg"; "image/png"; "image/webp"];
     maxFiles := Num 10 |}.

Definition validateFile (file : File) (constraints : UploadConstraints)
  : ValidationResult :=
  if gt (Num (fileSize file)) (maxFileSize constraints) then
    invalid ("File size " +:+ formatBytes (Num (fileSize file))
             +:+ " exceeds maximum allowed size of "
             +:+ formatBytes (maxFileSize constraints))
  else if negb (arrayIncludes (allowedTypes constraints) (fileType file))
  then
    invalid ("File type " +:+ fileType file
             +:+ " is not allowed. Allowed types: "
             +:+ join ", " (allowedTypes constraints))
  else if negb (isValidImageFile file) then
    invalid "File does not appear to be a valid image"
  else {| valid := true; error := None |}.

Definition validateFiles (files : list File)
    (constraints : UploadConstraints)
  : list (File * ValidationResult) :=
  if gt (Num (Z.of_nat (length files))) (maxFiles constraints) then
    map (fun file =>
           (file,
            invalid ("Too many files selected. Maximum allowed: "
                     +:+ toString (maxFiles constraints))))
        files
  else map (fun file => (file, validateFile file constraints)) files.

End WithFormatBytes.

(** [generateUniqueFilename]; [timestamp] is [Date.now()] and [random]
    is [Math.random().toString(36).substring(2, 8)]. *)
Definition generateUniqueFilename (timestamp : Z) (random : string)
    (originalName : string) : string :=
  let extension := orElse (lastSegment "" originalName) "" in
  ZtoString timestamp +:+ "-" +:+ random +:+ "." +:+ extension.

Definition isAlnumDotHyphen (c : ascii) : bool :=
  isLower c || isUpper c || isDigit c || isChar "." c || isChar "-" c.

Definition sanitizeFilename (filename : string) : string :=
  toLowerCase
    (collapseUnderscores (replaceOutside isAlnumDotHyphen filename)).

Definition validateEventPrefix (prefix : string) : bool :=
  allString (fun c => isWord c || isChar "-" c) prefix
  && negb (String.eqb prefix "")
  && (0 <? Z.of_nat (String.length prefix))
  && (Z.of_nat (String.length prefix) <=? 50).

End Validation.

(** ** [src/utils/image-processing.ts] *)

Module ImageProcessing.

(** [if (options.width)]: set and neither 0 nor NaN. *)
Definition given (n : option number) : bool :=
  match n with
  | Some x => truthy x
  | None => false
  end.

Definition keepIfGiven (n : option number) : option number :=
  if given n then n else None.

Definition bbffPlacement : DrawOptions :=
  {| d_anchor := TopLeft 20 20; d_width := 100; d_height := 100;
     d_opacity := 8 # 10; d_fit := "contain" |}.

Definition hmbPlacement : DrawOptions :=
  {| d_anchor := BottomRight 20 20; d_width := 100; d_height := 100;
     d_opacity := 8 # 10; d_fit := "contain" |}.

Section WithImages.

(** [env.IMAGES], found present by [processImage] before anything
    else runs. *)
Variable img : ImagesBinding.

(** One of the two blocks of [applyWatermarks]: fetch the logo and,
    when it is there, draw it. *)
Definition drawLogo (assets : KVNamespace) (name : string)
    (placement : DrawOptions) (processor : Proc img) : Eff (Proc img) :=
  logoData <- call (KvGet name) (kvGet assets name) ;;
  match logoData with
  | Some d =>
      overlay <- call (ImagesInput d) (input img d) ;;
      call (ImagesDraw placement) (draw img processor overlay placement)
  | None => ret processor
  end.

Definition watermarkingFailed (processor : Proc img) : Eff (Proc img) :=
  emit (ConsoleError "Watermarking failed:") ;;; ret processor.

(** The [catch] of [applyWatermarks] returns the variable [processor]
    as last assigned: the argument while the first logo is in
    progress, the result of the first block afterwards. *)
Definition applyWatermarks (processor : Proc img)
    (assets : option KVNamespace) : Eff (Proc img) :=
  match assets with
  | None => watermarkingFailed processor
  | Some kv =>
      tryCatch
        (processor1 <- drawLogo kv "bbff-logo.png" bbffPlacement
                         processor ;;
         tryCatch
           (drawLogo kv "hmb-logo.png" hmbPlacement processor1)
           (fun _ => watermarkingFailed processor1))
        (fun _ => watermarkingFailed processor)
  end.

(** One rendering of [optimizeForWeb]:
    [input(data).transform({quality}).output({format:'jpeg'})
     .response()]. *)
Definition renderAt (imageData : Data) (quality : Z) : Eff Response :=
  let transformOptions :=
    {| t_width := None; t_height := None;
       t_quality := Some (Num quality) |} in
  let outputOptions :=
    {| o_format := Some "jpeg"; o_quality := None |} in
  processor <- call (ImagesInput imageData) (input img imageData) ;;
  processor <- call (ImagesTransform transformOptions)
                    (transform img processor transformOptions) ;;
  call (ImagesOutput outputOptions) (output img processor outputOptions).

(** [resultSize / 1024 <= targetSizeKB], false for a size that is
    [NaN]. *)
Definition withinBudget (result : Response) (targetSizeKB : Q) : bool :=
  let resultSize :=
    parseInt (orDefault (headersGet (headers result) "content-length")
                        "0") in
  match resultSize with
  | NaN => false
  | Num z => Qle_bool (z # 1024) targetSizeKB
  end.

(** The [while] loop of [optimizeForWeb], from the state
    [(quality, result)]; [fuel] bounds the number of tests of the loop
    condition, and [None] means it ran out. *)
Fixpoint optimizeLoop (fuel : nat) (imageData : Data) (targetSizeKB : Q)
    (quality : Z) (result : Response) : option (Eff Response) :=
  match fuel with
  | O => None
  | S fuel' =>
      if 20 <=? quality then
        if withinBudget result targetSizeKB then Some (ret result)
        else if quality =? 20 then Some (ret result)
        else
          let quality := quality - 10 in
          let quality := if quality <? 20 then 20 else quality in
          match renderAt imageData quality with
          | (t, Ok result') =>
              match optimizeLoop fuel' imageData targetSizeKB
                                 quality result' with
              | Some (t', r) => Some (t ++ t', r)
              | None => None
              end
          | (t, Throw e) => Some (t, Throw e)
          end
      else Some (ret result)
  end.

End WithImages.

Definition processImage (imageData : Data)
    (options : ImageProcessingOptions) (env : Env) : Eff Response :=
  match IMAGES env with
  | None => throw "Images binding not available"
  | Some img =>
      tryCatch
        (processor <- call (ImagesInput imageData) (input img imageData) ;;
         processor <-
           (if given (width options) || given (height options) then
              let transformOptions :=
                {| t_width := keepIfGiven (width options);
                   t_height := keepIfGiven (height options);
                   t_quality := keepIfGiven (quality options) |} in
              call (ImagesTransform transformOptions)
                   (transform img processor transformOptions)
            else ret processor) ;;
         processor <-
           (match watermark options, BRANDING_ASSETS env with
            | Some true, Some _ =>
                applyWatermarks img processor (BRANDING_ASSETS env)
            | _, _ => ret processor
            end) ;;
         let outputOptions :=
           {| o_format := givenStrOpt (format options);
              o_quality := keepIfGiven (quality options) |} in
         call (ImagesOutput outputOptions)
              (output img processor outputOptions))
        (fun _ =>
           emit (ConsoleError "Image processing failed:") ;;;
           throw "Image processing failed")
  end.

(** [optimizeForWeb(imageData, targetSizeKB = 500, env)] *)
Definition optimizeForWeb (fuel : nat) (imageData : Data)
    (targetSizeKB : option Q) (images : option ImagesBinding)
  : option (Eff Response) :=
  let targetSizeKB := default (500 # 1) targetSizeKB in
  match images with
  | None => Some (throw "Images binding not available")
  | Some img =>
      let quality := 95 in
      match renderAt img imageData quality with
      | (t, Ok result) =>
          match optimizeLoop img fuel imageData targetSizeKB quality
                             result with
          | Some (t', r) => Some (t ++ t', r)
          | None => None
          end
      | (t, Throw e) => Some (t, Throw e)
      end
  end.

(** [generateThumbnailUrl(imageKey, width = 300, quality = 85)] *)
Definition generateThumbnailUrl (imageKey : string)
    (width quality : option number) : string :=
  let width := default (Num 300) width in
  let quality := default (Num 85) quality in
  "/cdn-cgi/image/width=" +:+ toString width +:+ ",quality="
    +:+ toString quality +:+ "/api/images/" +:+ imageKey.

Record ResponsiveUrls : Type := {
  thumbnail : string;
  small : string;
  medium : string;
  large : string;
  original : string;
}.

Definition generateResponsiveUrls (imageKey : string) : ResponsiveUrls :=
  let baseUrl := "/api/images/" +:+ imageKey in
  {| thumbnail := "/cdn-cgi/image/width=150,quality=80" +:+ baseUrl;
     small := "/cdn-cgi/image/width=400,quality=85" +:+ baseUrl;
     medium := "/cdn-cgi/image/width=800,quality=90" +:+ baseUrl;
     large := "/cdn-cgi/image/width=1200,quality=95" +:+ baseUrl;
     original := baseUrl |}.

(** [n || 'auto'] as it enters [join]. *)
Definition orAuto (n : option number) : string :=
  match keepIfGiven n with
  | Some x => toString x
  | None => "auto"
  end.

Definition optionFields (options : ImageProcessingOptions) : list string :=
  [orAuto (width options);
   orAuto (height options);
   orAuto (quality options);
   orDefault (format options) "auto";
   match watermark options with
   | Some true => "wm"
   | _ => "no-wm"
   end].

Definition createCacheKey (imageKey : string)
    (options : ImageProcessingOptions) : string :=
  let parts := imageKey :: optionFields options in
  join "_" parts.

Definition outside (lo hi : Z) (n : option number) : bool :=
  match n with
  | Some x => lt x (Num lo) || gt x (Num hi)
  | None => false
  end.

Definition validateProcessingOptions (options : ImageProcessingOptions)
  : Validation.ValidationResult :=
  if outside 1 4000 (width options) then
    Validation.invalid "Width must be between 1 and 4000 pixels"
  else if outside 1 4000 (height options) then
    Validation.invalid "Height must be between 1 and 4000 pixels"
  else if outside 1 100 (quality options) then
    Validation.invalid "Quality must be between 1 and 100"
  else if truthyStr (format options)
          && negb (arrayIncludes ["jpeg"; "png"; "webp"]
                                 (default "" (format options))) then
    Validation.invalid "Format must be jpeg, png, or webp"
  else {| Validation.valid := true; Validation.error := None |}.

Definition getOptimalFormat (request : Request) : string :=
  let acceptHeader := orDefault (headersGet (reqHeaders request) "Accept")
                                "" in
  if includes acceptHeader "image/webp" then "webp" else "jpeg".

End ImageProcessing.

(** ** [functions/api/upload.ts] *)

Module Upload.

Definition EVENT_PREFIX : string := "25thAnniversary".

Record RateLimitData : Type := {
  count : Z;
  resetTime : Z;
}.

(** What the handler reads from the clock and the random source:
    [Date.now()] of the rate limiter, and for the upload of the file at
    position [i] its [Date.now()], its random suffix and its
    [new Date().toISOString()]. *)
Record Clock : Type := {
  now : Z;
  stamp : nat -> Z;
  random : nat -> string;
  isoTime : nat -> string;
}.

(** [Math.ceil(a / b)] for integers [a] and [b > 0]. *)
Definition ceilDiv (a b : Z) : Z := - ((- a) / b).

Definition checkRateLimit (request : Request) (env : Env) (now : Z)
    (uploadCounts : gmap string RateLimitData)
  : option Response * gmap string RateLimitData :=
  let clientIP :=
    orDefault (headersGet (reqHeaders request) "CF-Connecting-IP")
              "unknown" in
  let rateLimit := parseInt (orElse (UPLOAD_RATE_LIMIT env) "100") in
  let windowMinutes := 60 in
  let fresh :=
    {| count := 0; resetTime := now + windowMinutes * 60 * 1000 |} in
  let rateLimitData :=
    match uploadCounts !! clientIP with
    | Some d => if resetTime d <? now then fresh else d
    | None => fresh
    end in
  if ge (Num (count rateLimitData)) rateLimit then
    let retryAfter := ceilDiv (resetTime rateLimitData - now) 1000 in
    (Some (ErrorHandling.createRateLimitError
             (Some ("Upload rate limit exceeded. Try again in "
                    +:+ ZtoString (ceilDiv retryAfter 60) +:+ " minutes."))
             (Some retryAfter)),
     uploadCounts)
  else
    (None,
     <[clientIP := {| count := count rateLimitData + 1;
                      resetTime := resetTime rateLimitData |}]>
       uploadCounts).

Definition validateAuthentication (request : Request) (env : Env)
  : option Response :=
  let accessJWT := headersGet (reqHeaders request) "Cf-Access-Jwt-Assertion" in
  if String.eqb (ENVIRONMENT env) "production" && negb (truthyStr accessJWT)
  then Some (ErrorHandling.createUnauthorizedError
               (Some "Authentication required"))
  else if String.eqb (ENVIRONMENT env) "development" then
    let uploadToken := headersGet (reqHeaders request) "X-Upload-Token" in
    if negb (truthyStr uploadToken)
       || negb (String.eqb (default "" uploadToken) "dev-upload-token")
    then Some (ErrorHandling.createUnauthorizedError
                 (Some "Invalid upload token"))
    else None
  else None.

(** [uploadFile(file, env)], with the clock readings of this upload. *)
Definition uploadFile (file : File) (env : Env)
    (timestamp : Z) (random isoNow : string) : Eff PhotoMetadata :=
  let originalName := Validation.sanitizeFilename (fileName file) in
  let uniqueName :=
    Validation.generateUniqueFilename timestamp random originalName in
  let key := EVENT_PREFIX +:+ "/" +:+ uniqueName in
  tryCatch
    (match PHOTOS_BUCKET env with
     | Some bucket => call (BucketPut key file) (bucketPut bucket key file)
     | None => throw "TypeError"
     end ;;;
     ret {| Types.key := key;
            filename := originalName;
            size := fileSize file;
            contentType := fileType file;
            uploadedAt := isoNow |})
    (fun error =>
       emit (ConsoleError ("Failed to upload " +:+ fileName file +:+ ":")) ;;;
       throw ("Failed to upload " +:+ fileName file +:+ ": " +:+ error)).

Definition logUploads (uploads : list PhotoMetadata) (env : Env)
  : Eff unit :=
  match ANALYTICS env with
  | None => ret tt
  | Some a =>
      tryCatch
        (call (AnalyticsWrite "upload") (writeDataPoint a "upload"))
        (fun _ =>
           emit (ConsoleError "Failed to log uploads to analytics:"))
  end.

(** A file with the result of its validation. *)
Abbreviation Validated := (File * Validation.ValidationResult)%type.

Section WithFormatBytes.

Variable formatBytes : number -> string.

(** The [forEach] over the settled uploads, from position [index]. *)
Fixpoint collectResults (index : nat)
    (uploadResults : list (Outcome PhotoMetadata))
    (validationResults : list Validated) (env : Env)
    (successfulUploads : list PhotoMetadata)
    (failedUploads : list FailedUpload)
  : Eff (list PhotoMetadata * list FailedUpload) :=
  match uploadResults with
  | [] => ret (successfulUploads, failedUploads)
  | result :: rest =>
      match validationResults !! index with
      | None => throw "TypeError"
      | Some v =>
          let filename := fileName (fst v) in
          match result with
          | Ok value =>
              collectResults (S index) rest validationResults env
                (successfulUploads ++ [value]) failedUploads
          | Throw reason =>
              ErrorHandling.logError
                ("Upload failed for " +:+ filename) env ;;;
              collectResults (S index) rest validationResults env
                successfulUploads
                (failedUploads
                   ++ [{| failedFilename := filename;
                          failedError := orElse reason "Upload failed" |}])
          end
      end
  end.

Definition isValid (result : Validated) : bool :=
  Validation.valid (snd result).

Definition describeInvalid (f : Validated) : string :=
  fileName (fst f) +:+ ": "
    +:+ default "undefined" (Validation.error (snd f)).

Definition onRequestPost (context : Context) (clock : Clock)
    (uploadCounts : gmap string RateLimitData)
  : gmap string RateLimitData * Eff Response :=
  let request := request context in
  let env := env context in
  let attempt : gmap string RateLimitData * Eff Response :=
    match ErrorHandling.handleCORS request None with
    | Some corsResponse => (uploadCounts, ret corsResponse)
    | None =>
    match PHOTOS_BUCKET env with
    | None =>
        (uploadCounts,
         ErrorHandling.logError "PHOTOS_BUCKET not configured" env ;;;
         ret (ErrorHandling.createErrorResponse "Storage not configured"
                (Some ErrorHandling.ERROR_CODES.STORAGE_ERROR)
                (Some ErrorHandling.HTTP_STATUS.SERVICE_UNAVAILABLE)
                None))
    | Some _ =>
    match checkRateLimit request env (now clock) uploadCounts with
    | (Some rateLimitResponse, counts) => (counts, ret rateLimitResponse)
    | (None, counts) =>
    match validateAuthentication request env with
    | Some authResponse => (counts, ret authResponse)
    | None =>
        (counts,
         files <- ([], formData request) ;;
         if (length files =? 0)%nat then
           ret (ErrorHandling.createValidationError "No files provided"
                  (Some "photos"))
         else
           let constraints :=
             {| maxFileSize :=
                  parseInt (orElse (MAX_UPLOAD_SIZE env) "10485760");
                allowedTypes := ["image/jpeg"; "image/png"; "image/webp"];
                maxFiles := Num 10 |} in
           let validationResults : list Validated :=
             map (fun file =>
                    (file,
                     Validation.validateFile formatBytes file constraints))
                 files in
           let invalidFiles :=
             filter (fun result => isValid result = false)
                    validationResults in
           if (0 <? length invalidFiles)%nat then
             ret (ErrorHandling.createValidationError
                    ("Invalid files: "
                     +:+ join ", " (map describeInvalid invalidFiles))
                    (Some "photos"))
           else
             let uploadPromises :=
               imap (fun i result =>
                       uploadFile (fst result) env (stamp clock i)
                                  (random clock i) (isoTime clock i))
                    (filter (fun result => isValid result = true)
                            validationResults) in
             uploadResults <- allSettled uploadPromises ;;
             collected <- collectResults 0 uploadResults validationResults
                            env [] [] ;;
             let successfulUploads := fst collected in
             let failedUploads := snd collected in
             (if (0 <? length successfulUploads)%nat
              then logUploads successfulUploads env
              else ret tt) ;;;
             let response :=
               {| success := (length failedUploads =? 0)%nat;
                  photos :=
                    if (0 <? length successfulUploads)%nat
                    then Some successfulUploads else None;
                  errors :=
                    if (0 <? length failedUploads)%nat
                    then Some failedUploads else None |} in
             ret {| status :=
                      if (length failedUploads =? 0)%nat
                      then ErrorHandling.HTTP_STATUS.CREATED
                      else ErrorHandling.HTTP_STATUS.PARTIAL_CONTENT;
                    headers :=
                      [("Content-Type", "application/json");
                       ("Access-Control-Allow-Origin",
                        orDefault
                          (headersGet (reqHeaders request) "Origin")
                          "*")];
                    body := UploadBody response |})
    end end end end in
  (fst attempt,
   tryCatch (snd attempt)
     (fun error =>
        ErrorHandling.logError error env ;;;
        ret (ErrorHandling.createErrorResponse "Upload processing failed"
               None None None))).

End WithFormatBytes.

End Upload.

(** ** [functions/api/list.ts] *)

Module Listing.

Definition EVENT_PREFIX : string := "25thAnniversary".

(** The query parameters of a listing request. *)
Definition limitOf (request : Request) : number :=
  JS.min (parseInt (orDefault (paramGet (searchParams request) "limit")
                              "50"))
         (Num 100).

Definition cursorOf (request : Request) : option string :=
  givenStrOpt (paramGet (searchParams request) "cursor").

Definition sortOf (request : Request) : string :=
  orDefault (paramGet (searchParams request) "sort") "newest".

Definition logGalleryView (env : Env) : Eff unit :=
  match ANALYTICS env with
  | None => ret tt
  | Some a =>
      tryCatch
        (call (AnalyticsWrite "gallery_view")
              (writeDataPoint a "gallery_view"))
        (fun _ =>
           emit (ConsoleError "Failed to log gallery view to analytics:"))
  end.

Section WithRendering.

(** The conversion of the listed objects into the sorted [photos] and
    their JSON text goes through dates, [localeCompare] and
    [JSON.parse]; it is a parameter here, and it may throw. *)
Variable renderPhotos : R2Objects -> string -> Outcome string.

Definition onRequestGet (context : Context) : Eff Response :=
  let request := request context in
  let env := env context in
  tryCatch
    (match ErrorHandling.handleCORS request (Some ["*"]) with
     | Some corsResponse => ret corsResponse
     | None =>
     match PHOTOS_BUCKET env with
     | None =>
         ErrorHandling.logError "PHOTOS_BUCKET not configured" env ;;;
         ret (ErrorHandling.createErrorResponse "Storage not configured"
                (Some ErrorHandling.ERROR_CODES.STORAGE_ERROR)
                (Some ErrorHandling.HTTP_STATUS.SERVICE_UNAVAILABLE)
                None)
     | Some bucket =>
         let limit := limitOf request in
         let cursor := cursorOf request in
         let sortBy := sortOf request in
         let listOptions :=
           {| l_prefix := EVENT_PREFIX +:+ "/";
              l_limit := limit;
              l_cursor := cursor |} in
         result <- call (BucketList listOptions)
                        (bucketList bucket listOptions) ;;
         match objects result with
         | None =>
             ret {| status := 200;
                    headers :=
                      [("Content-Type", "application/json");
                       ("Cache-Control", "public, max-age=30");
                       ("Access-Control-Allow-Origin", "*")];
                    body := EmptyListingBody |}
         | Some _ =>
             text <- ([], renderPhotos result sortBy) ;;
             logGalleryView env ;;;
             ret {| status := 200;
                    headers :=
                      [("Content-Type", "application/json");
                       ("Cache-Control", "public, max-age=30");
                       ("Access-Control-Allow-Origin", "*");
                       ("Access-Control-Allow-Methods", "GET, OPTIONS");
                       ("Access-Control-Allow-Headers", "Content-Type")];
                    body := JsonBody text |}
         end
     end end)
    (fun error =>
       ErrorHandling.logError error env ;;;
       ret (ErrorHandling.createErrorResponse "Failed to list photos"
              None None None)).

End WithRendering.

End Listing.

(** ** [functions/api/images/[key].ts] *)

Module Images.

Definition EVENT_PREFIX : string := "25thAnniversary".

Definition isWordDotHyphen (c : ascii) : bool :=
  isWord c || isChar "." c || isChar "-" c.

Definition createCacheKey (imageKey : string)
    (options : ImageProcessingOptions) : string :=
  let parts :=
    replaceOutside isWordDotHyphen imageKey
      :: ImageProcessing.optionFields options in
  join "_" parts.

(** The processing options read from the query string and the [Accept]
    header. *)
Definition parseProcessingOptions (request : Request)
  : ImageProcessingOptions :=
  let widthParam := paramGet (searchParams request) "w" in
  let heightParam := paramGet (searchParams request) "h" in
  let qualityParam := paramGet (searchParams request) "q" in
  {| width :=
       if truthyStr widthParam
       then Some (parseInt (default "" widthParam)) else None;
     height :=
       if truthyStr heightParam
       then Some (parseInt (default "" heightParam)) else None;
     quality :=
       Some (if truthyStr qualityParam
             then parseInt (default "" qualityParam) else Num 90);
     format := Some (ImageProcessing.getOptimalFormat request);
     watermark :=
       Some (negb (bool_decide
                     (paramGet (searchParams request) "watermark"
                      = Some "false"))) |}.

(** [JSON.stringify] of a number: [NaN] is written [null]. *)
Definition jsonNumber (n : number) : string :=
  match n with
  | NaN => "null"
  | Num z => ZtoString z
  end.

Definition quote : string := String (ascii_of_N 34) EmptyString.

Definition jsonField (name value : string) : string :=
  quote +:+ name +:+ quote +:+ ":" +:+ value.

(** [JSON.stringify(processingOptions)]; the values of [format] need no
    escaping. *)
Definition optionsJson (options : ImageProcessingOptions) : string :=
  let field {A} (name : string) (render : A -> string) (v : option A) :=
    match v with
    | Some x => [jsonField name (render x)]
    | None => []
    end in
  "{" +:+ join ","
            (field "width" jsonNumber (width options)
             ++ field "height" jsonNumber (height options)
             ++ field "quality" jsonNumber (quality options)
             ++ field "format" (fun f => quote +:+ f +:+ quote)
                               (format options)
             ++ field "watermark"
                      (fun b : bool => if b then "true" else "false")
                      (watermark options))
      +:+ "}".

Definition logImageServed (env : Env) : Eff unit :=
  match ANALYTICS env with
  | None => ret tt
  | Some a =>
      tryCatch
        (call (AnalyticsWrite "image_served")
              (writeDataPoint a "image_served"))
        (fun _ =>
           emit (ConsoleError "Failed to log image serving to analytics:"))
  end.

(** [onRequestGet(context)]; [cache] is [caches.default]. *)
Definition onRequestGet (context : Context) (cache : Cache)
  : Eff Response :=
  let request := request context in
  let env := env context in
  tryCatch
    (match ErrorHandling.handleCORS request (Some ["*"]) with
     | Some corsResponse => ret corsResponse
     | None =>
     match PHOTOS_BUCKET env with
     | None =>
         ErrorHandling.logError "PHOTOS_BUCKET not configured" env ;;;
         ret (ErrorHandling.createErrorResponse "Storage not configured"
                (Some ErrorHandling.ERROR_CODES.STORAGE_ERROR)
                (Some ErrorHandling.HTTP_STATUS.SERVICE_UNAVAILABLE)
                None)
     | Some bucket =>
     match givenStrOpt (paramGet (params context) "key") with
     | None => ret (ErrorHandling.createNotFoundError None)
     | Some imageKey =>
         let fullKey :=
           if startsWith imageKey EVENT_PREFIX then imageKey
           else EVENT_PREFIX +:+ "/" +:+ imageKey in
         let processingOptions := parseProcessingOptions request in
         let validation :=
           ImageProcessing.validateProcessingOptions processingOptions in
         if negb (Validation.valid validation) then
           ret (ErrorHandling.createErrorResponse
                  (default "undefined" (Validation.error validation))
                  (Some ErrorHandling.ERROR_CODES.VALIDATION_FAILED)
                  (Some ErrorHandling.HTTP_STATUS.BAD_REQUEST)
                  None)
         else
           let cacheKey := createCacheKey fullKey processingOptions in
           let cacheRequest := "https://cache.example.com/" +:+ cacheKey in
           cachedResponse <- call (CacheMatch cacheRequest)
                                  (cacheMatch cache cacheRequest) ;;
           match cachedResponse with
           | Some cached =>
               ret {| status := status cached;
                      headers :=
                        headersSet
                          (headersSet (headers cached) "X-Cache" "HIT")
                          "Access-Control-Allow-Origin" "*";
                      body := body cached |}
           | None =>
               r2Object <- call (BucketGet fullKey)
                                (bucketGet bucket fullKey) ;;
               match r2Object with
               | None =>
                   ret (ErrorHandling.createNotFoundError (Some imageKey))
               | Some object =>
                   processedImage <-
                     ImageProcessing.processImage (r2Body object)
                       processingOptions env ;;
                   if negb (ok processedImage) then
                     ErrorHandling.logError "Image processing failed" env ;;;
                     ret (ErrorHandling.createErrorResponse
                            "Image processing failed"
                            (Some ErrorHandling.ERROR_CODES.PROCESSING_ERROR)
                            None None)
                   else
                     let ttl := orElse (CACHE_TTL env) "604800" in
                     let response :=
                       {| status := ErrorHandling.HTTP_STATUS.OK;
                          headers :=
                            [("Content-Type",
                              orDefault
                                (headersGet (headers processedImage)
                                            "Content-Type")
                                ("image/"
                                 +:+ default "undefined"
                                       (format processingOptions)));
                             ("Cache-Control", "public, max-age=" +:+ ttl);
                             ("X-Cache", "MISS");
                             ("Access-Control-Allow-Origin", "*");
                             ("Access-Control-Allow-Methods",
                              "GET, OPTIONS");
                             ("Vary", "Accept");
                             ("X-Original-Key", fullKey);
                             ("X-Processing-Options",
                              optionsJson processingOptions)];
                          body := body processedImage |} in
                     let cacheTTL := parseInt ttl in
                     let cacheResponse :=
                       {| status := status response;
                          headers :=
                            headersSet (headers response) "Cache-Control"
                              ("public, max-age=" +:+ toString cacheTTL);
                          body := body response |} in
                     (* waitUntil(cache.put(...)): a rejection is not
                        seen by the handler *)
                     tryCatch
                       (call (CachePut cacheRequest cacheResponse)
                             (cachePut cache cacheRequest cacheResponse))
                       (fun _ => ret tt) ;;;
                     logImageServed env ;;;
                     ret response
               end
           end
     end end end)
    (fun error =>
       ErrorHandling.logError error env ;;;
       ret (ErrorHandling.createErrorResponse "Failed to serve image"
              None None None)).

End Images.

(** ** The specification's own words

    Definitions that follow the text of the specification rather than the
    sources; the properties below compare the two. *)

Module Spec.

(** "lowercased; every character outside [[a-z0-9.-]] becomes [_]; runs
    of 2+ underscores collapse to one" *)
Definition isLowerDigitDotHyphen (c : ascii) : bool :=
  isLower c || isDigit c || isChar "." c || isChar "-" c.

Definition sanitizeFilename (name : string) : string :=
  collapseUnderscores
    (replaceOutside isLowerDigitDotHyphen (toLowerCase name)).


(** The magic numbers: JPEG [FF D8 FF], PNG [89 50 4E 47 0D 0A 1A 0A],
    WebP [RIFF] at offset 0 plus [WEBP] at offset 8. *)
Definition JPEG_MAGIC : Data := [xff; xd8; xff].
Definition PNG_MAGIC : Data := [x89; x50; x4e; x47; x0d; x0a; x1a; x0a].
Definition RIFF_MAGIC : Data := [x52; x49; x46; x46].
Definition WEBP_MAGIC : Data := [x57; x45; x42; x50].

Definition hasImageSignature (content : Data) : Prop :=
  JPEG_MAGIC `prefix_of` content
  \/ PNG_MAGIC `prefix_of` content
  \/ (RIFF_MAGIC `prefix_of` content
      /\ WEBP_MAGIC `prefix_of` drop 8 content).

(** The bytes [p] are found in [bytes] from index [k] on. *)
Fixpoint bytesAt (bytes : Data) (k : nat) (p : Data) : bool :=
  match p with
  | [] => true
  | b :: p' => Validation.byteIs bytes k b && bytesAt bytes (S k) p'
  end.

Definition genericImageError : string :=
  "File does not appear to be a valid image".

(** "width/height outside [1,4000], quality outside [1,100], format not
    in {jpeg,png,webp}" *)
Definition outsideBound (lo hi : Z) (n : option number) : Prop :=
  exists z, n = Some (Num z) /\ (z < lo \/ hi < z).



(** The calls that reach the object store, the edge cache or the image
    processing adapter (the transform service and the branding
    assets); logging is not among them. *)
Definition touchesStoreOrAdapter (e : Event) : bool :=
  match e with
  | ConsoleError _ | AnalyticsWrite _ => false
  | _ => true
  end.










Definition missing (assets : KVNamespace) (name : string) : Prop :=
  kvGet assets name = Ok None.

(** The upload of the file at position [i]: its storage key, the
    metadata reported for it, and how it settles, following the
    outcome of the storage write. *)
Definition uploadKey (clock : Upload.Clock) (i : nat) (f : File) : string :=
  "25thAnniversary/"
    +:+ Validation.generateUniqueFilename
          (Upload.stamp clock i) (Upload.random clock i)
          (Validation.sanitizeFilename (fileName f)).

Definition metadataOf (clock : Upload.Clock) (i : nat) (f : File)
  : PhotoMetadata :=
  {| key := uploadKey clock i f;
     filename := Validation.sanitizeFilename (fileName f);
     size := fileSize f;
     contentType := fileType f;
     uploadedAt := Upload.isoTime clock i |}.

Definition settles (bucket : R2Bucket) (clock : Upload.Clock) (i : nat)
    (f : File) : Outcome PhotoMetadata :=
  match bucketPut bucket (uploadKey clock i f) f with
  | Ok _ => Ok (metadataOf clock i f)
  | Throw e => Throw ("Failed to upload " +:+ fileName f +:+ ": " +:+ e)
  end.

(** The files of a batch with the way their uploads settle, and the
    storage writes made for them, from position [i] on. *)
Fixpoint uploads (bucket : R2Bucket) (clock : Upload.Clock) (i : nat)
    (files : list File) : list (File * Outcome PhotoMetadata) :=
  match files with
  | [] => []
  | f :: fs => (f, settles bucket clock i f) :: uploads bucket clock (S i) fs
  end.

Fixpoint writes (clock : Upload.Clock) (i : nat) (files : list File)
  : list (string * File) :=
  match files with
  | [] => []
  | f :: fs => (uploadKey clock i f, f) :: writes clock (S i) fs
  end.

(** "Successful uploads are reported with full [PhotoMetadata]; failed
    ones with [{filename, error}]." *)
Definition storedPhotos (us : list (File * Outcome PhotoMetadata))
  : list PhotoMetadata :=
  omap (fun u => match snd u with
                 | Ok m => Some m
                 | Throw _ => None
                 end) us.

Definition failedUploads (us : list (File * Outcome PhotoMetadata))
  : list FailedUpload :=
  omap (fun u => match snd u with
                 | Ok _ => None
                 | Throw e =>
                     Some {| failedFilename := fileName (fst u);
                             failedError := e |}
                 end) us.

(** The storage writes among the calls of a trace. *)
Definition putsOf (t : list Event) : list (string * File) :=
  omap (fun e => match e with
                 | BucketPut k f => Some (k, f)
                 | _ => None
                 end) t.

Definition nonEmpty {A} (l : list A) : option (list A) :=
  match l with
  | [] => None
  | _ => Some l
  end.

(** The constraints the upload handler validates against. *)
Definition uploadConstraints (env : Env) : UploadConstraints :=
  {| maxFileSize := parseInt (orElse (MAX_UPLOAD_SIZE env) "10485760");
     allowedTypes := ["image/jpeg"; "image/png"; "image/webp"];
     maxFiles := Num 10 |}.

(** "a combined message listing each failing filename and reason" *)
Definition invalidFilesMessage (formatBytes : number -> string)
    (env : Env) (files : list File) : string :=
  let verdict f :=
    Validation.validateFile formatBytes f (uploadConstraints env) in
  "Invalid files: "
    +:+ join ", "
          (map (fun f => fileName f +:+ ": "
                         +:+ default "undefined"
                               (Validation.error (verdict f)))
               (filter (fun f => Validation.valid (verdict f) = false)
                       files)).

(** A request that comes to the validation of its files: it is no
    preflight, storage is configured, the rate limit is not reached,
    the caller is authenticated and the form holds the files [files],
    at least one. *)
Definition reachesValidation (context : Context) (clock : Upload.Clock)
    (uploadCounts : gmap string Upload.RateLimitData)
    (bucket : R2Bucket) (files : list File) : Prop :=
  method (request context) <> "OPTIONS"
  /\ PHOTOS_BUCKET (env context) = Some bucket
  /\ fst (Upload.checkRateLimit (request context) (env context)
                                (Upload.now clock) uploadCounts) = None
  /\ Upload.validateAuthentication (request context) (env context) = None
  /\ formData (request context) = Ok files
  /\ files <> [].

(** The URL pattern
    [/<transform-prefix>/width=W,quality=Q/api/images/<key>]. *)
Definition urlPattern (w q key : string) : string :=
  "/cdn-cgi/image/width=" +:+ w +:+ ",quality=" +:+ q
    +:+ "/api/images/" +:+ key.

End Spec.

(** ** Sample data

    Concrete files, bindings and requests on which the definitions above
    are run. *)

Module Samples.

Definition noIoError : nat -> nat -> bool := fun _ _ => false.

Definition jpegFile (name : string) : File :=
  {| fileName := name; fileType := "image/jpeg";
     fileContent := [xff; xd8; xff; xe0; x00; x10];
     fileIoError := noIoError |}.

Definition pngFile : File :=
  {| fileName := "logo.png"; fileType := "image/png";
     fileContent := [x89; x50; x4e; x47; x0d; x0a; x1a; x0a; x00];
     fileIoError := noIoError |}.

Definition webpFile : File :=
  {| fileName := "pic.webp"; fileType := "image/webp";
     fileContent := [x52; x49; x46; x46; x24; x00; x00; x00;
                     x57; x45; x42; x50; x56; x50];
     fileIoError := noIoError |}.

(** A text file that claims to be a JPEG. *)
Definition textFile : File :=
  {| fileName := "notes.jpg"; fileType := "image/jpeg";
     fileContent := [x68; x65; x6c; x6c; x6f];
     fileIoError := noIoError |}.

(** A JPEG whose bytes cannot be read. *)
Definition unreadableFile : File :=
  {| fileName := "a.jpg"; fileType := "image/jpeg";
     fileContent := [xff; xd8; xff; xe0];
     fileIoError := fun _ _ => true |}.

(** Sizes are not looked at by the samples. *)
Definition formatBytes : number -> string := fun _ => "?".

(** A transform service that records what was asked of it and renders
    [size] bytes at quality [q], as [sizeAt] says. *)
Definition rendered (size : string) : Response :=
  {| status := 200;
     headers := [("content-length", size)];
     body := BytesBody [] |}.

Definition qualityOf (steps : list string) : string :=
  default "none" (last steps).

Definition imagesOf (sizeAt : string -> string) (drawWorks : bool)
  : ImagesBinding :=
  {| Proc := list string;
     input := fun _ => Ok ["input"];
     transform := fun p o =>
       Ok (p ++ [match t_quality o with
                 | Some q => toString q
                 | None => "resize"
                 end]);
     draw := fun p _ _ =>
       if drawWorks then Ok (p ++ ["logo"]) else Throw "draw failed";
     output := fun p _ => Ok (rendered (sizeAt (qualityOf p))) |}.

(** Always 600000 bytes; and 600000 bytes down to quality 75, 400000
    bytes below. *)
Definition alwaysLarge : ImagesBinding :=
  imagesOf (fun _ => "600000") true.

Definition smallFrom65 : ImagesBinding :=
  imagesOf (fun q => if bool_decide (q ∈ ["95"; "85"; "75"])
                     then "600000" else "400000")
           true.

Definition brokenDraw : ImagesBinding :=
  imagesOf (fun _ => "1000") false.

(** Branding assets: the first logo is missing, the second is there. *)
Definition onlyHmb : KVNamespace :=
  {| kvGet := fun name =>
       if String.eqb name "hmb-logo.png" then Ok (Some [x89; x50])
       else Ok None |}.

(** A bucket whose writes fail for the file named [bad.jpg]. *)
Definition bucket : R2Bucket :=
  {| bucketGet := fun _ => Ok (Some {| r2Body := [xff; xd8; xff] |});
     bucketPut := fun _ f =>
       if String.eqb (fileName f) "bad.jpg" then Throw "Error: R2 down"
       else Ok tt;
     bucketList := fun _ =>
       Ok {| objects := None; truncated := false; cursor := None |} |}.

Definition environment : Env :=
  {| PHOTOS_BUCKET := Some bucket;
     BRANDING_ASSETS := Some onlyHmb;
     IMAGES := Some brokenDraw;
     ANALYTICS := None;
     ENVIRONMENT := "test";
     MAX_UPLOAD_SIZE := "10485760";
     UPLOAD_RATE_LIMIT := "100";
     CACHE_TTL := "604800" |}.

Definition cache : Cache :=
  {| cacheMatch := fun _ => Ok None;
     cachePut := fun _ _ => Ok tt |}.

Definition getRequest (query : list (string * string)) : Request :=
  {| method := "GET"; searchParams := query; reqHeaders := [];
     formData := Throw "TypeError" |}.

(** [GET /api/images/test.jpg?w=5000] *)
Definition tooWide : Context :=
  {| request := getRequest [("w", "5000")];
     env := environment;
     params := [("key", "test.jpg")] |}.

(** [GET /api/list] and [GET /api/list?limit=500] *)
Definition listing (query : list (string * string)) : Context :=
  {| request := getRequest query; env := environment; params := [] |}.

Definition renderPhotos : R2Objects -> string -> Outcome string :=
  fun _ _ => Ok "{}".

Definition upload (files : list File) : Context :=
  {| request :=
       {| method := "POST"; searchParams := []; reqHeaders := [];
          formData := Ok files |};
     env := environment;
     params := [] |}.

Definition clock : Upload.Clock :=
  {| Upload.now := 1700000000000;
     Upload.stamp := fun i => 1700000000000 + Z.of_nat i;
     Upload.random := fun _ => "k3x9ab";
     Upload.isoTime := fun _ => "2023-11-14T22:13:20.000Z" |}.

Definition noUploadsYet : gmap string Upload.RateLimitData := ∅.

Definition elevenFiles : list File := replicate 11 (jpegFile "a.jpg").

End Samples.

(** ** More of the sources

    The remaining helpers of [src/utils/error-handling.ts]. *)

Module ErrorHandlingRest.

Definition createUploadError (message : string) (filename : option string)
  : Response :=
  ErrorHandling.createErrorResponse message
    (Some ErrorHandling.ERROR_CODES.UPLOAD_FAILED)
    (Some ErrorHandling.HTTP_STATUS.BAD_REQUEST)
    (match filename with
     | Some f =>
         if truthyStr filename then Some ("filename", DetailStr f) else None
     | None => None
     end).

(** [validateEnvironment(env, required)]; [env k] tells whether
    [env[k]] is truthy. *)
Definition validateEnvironment (env : string -> bool)
    (required : list string) : Outcome unit :=
  let missing := filter (fun key => env key = false) required in
  if (0 <? length missing)%nat then
    Throw ("Missing required environment variables: "
           +:+ join ", " missing)
  else Ok tt.

End ErrorHandlingRest.

(** ** Shapes of strings and traces used by the properties *)

Module Shape.

Definition startsUnderscore (s : string) : bool :=
  match s with
  | String c _ => isChar "_" c
  | EmptyString => false
  end.

(** No two underscores in a row. *)
Fixpoint noDoubleUnderscore (s : string) : bool :=
  match s with
  | String c ((String c' _) as s') =>
      negb (isChar "_" c && isChar "_" c') && noDoubleUnderscore s'
  | _ => true
  end.

(** [[a-z0-9._-]]: what a sanitised file name is made of. *)
Definition isSafeChar (c : ascii) : bool :=
  isLower c || isDigit c || isChar "." c || isChar "-" c || isChar "_" c.

Definition isDot (c : ascii) : bool := isChar "." c.

Definition noDot (s : string) : bool :=
  allString (fun c => negb (isDot c)) s.

(** The calls of the watermark step: reading a branding asset and
    drawing an overlay. *)
Definition isWatermarkCall (e : Event) : bool :=
  match e with
  | KvGet _ | ImagesDraw _ => true
  | _ => false
  end.

(** The calls made to the transform service and the asset store, and
    console lines: all that [processImage] may do. *)
Definition isAdapterCall (e : Event) : bool :=
  match e with
  | ImagesInput _ | ImagesTransform _ | ImagesDraw _ | ImagesOutput _
  | KvGet _ | ConsoleError _ => true
  | _ => false
  end.

(** The keys read from the bucket, and what was put into the cache,
    among the calls of a trace. *)
Definition getsOf (t : list Event) : list string :=
  omap (fun e => match e with
                 | BucketGet k => Some k
                 | _ => None
                 end) t.

Definition cachePutsOf (t : list Event) : list (string * Response) :=
  omap (fun e => match e with
                 | CachePut url r => Some (url, r)
                 | _ => None
                 end) t.

(** The calls of a trace that are not logging. *)
Definition loud (t : list Event) : list Event :=
  filter (fun e => Spec.touchesStoreOrAdapter e = true) t.

End Shape.

(** ** Names for what the image handler computes on its way *)

Module Serving.

(** [fullKey]: the key looked up in the bucket for the requested
    [imageKey]. *)
Definition fullKeyOf (imageKey : string) : string :=
  if startsWith imageKey Images.EVENT_PREFIX then imageKey
  else Images.EVENT_PREFIX +:+ "/" +:+ imageKey.

(** [cacheRequest]: the URL under which the answer is cached. *)
Definition cacheUrl (request : Request) (imageKey : string) : string :=
  "https://cache.example.com/"
    +:+ Images.createCacheKey (fullKeyOf imageKey)
          (Images.parseProcessingOptions request).

(** The request passes the guards of the handler: it is no preflight,
    storage is bound, a key is given and the options are valid. *)
Definition servable (context : Context) (bucket : R2Bucket)
    (imageKey : string) : Prop :=
  method (request context) <> "OPTIONS"
  /\ PHOTOS_BUCKET (env context) = Some bucket
  /\ givenStrOpt (paramGet (params context) "key") = Some imageKey
  /\ Validation.valid
       (ImageProcessing.validateProcessingOptions
          (Images.parseProcessingOptions (request context))) = true.

(** [response]: the answer built from a processed image, and
    [cacheResponse]: the copy of it that is put into the cache. *)
Definition freshAnswer (context : Context) (imageKey : string)
    (processedImage : Response) : Response :=
  let processingOptions :=
    Images.parseProcessingOptions (request context) in
  let ttl := orElse (CACHE_TTL (env context)) "604800" in
  {| status := ErrorHandling.HTTP_STATUS.OK;
     headers :=
       [("Content-Type",
         orDefault (headersGet (headers processedImage) "Content-Type")
                   ("image/"
                    +:+ default "undefined" (format processingOptions)));
        ("Cache-Control", "public, max-age=" +:+ ttl);
        ("X-Cache", "MISS");
        ("Access-Control-Allow-Origin", "*");
        ("Access-Control-Allow-Methods", "GET, OPTIONS");
        ("Vary", "Accept");
        ("X-Original-Key", fullKeyOf imageKey);
        ("X-Processing-Options", Images.optionsJson processingOptions)];
     body := body processedImage |}.

Definition cachedCopy (context : Context) (response : Response)
  : Response :=
  let ttl := orElse (CACHE_TTL (env context)) "604800" in
  {| status := status response;
     headers :=
       headersSet (headers response) "Cache-Control"
         ("public, max-age=" +:+ toString (parseInt ttl));
     body := body response |}.

(** The answer made from a cached response. *)
Definition fromCache (cached : Response) : Response :=
  {| status := status cached;
     headers :=
       headersSet (headersSet (headers cached) "X-Cache" "HIT")
         "Access-Control-Allow-Origin" "*";
     body := body cached |}.

End Serving.

(** ** Requests in a row *)

Module Replay.

(** The client a request is counted for. *)
Definition clientOf (request : Request) : string :=
  orDefault (headersGet (reqHeaders request) "CF-Connecting-IP") "unknown".

(** The same request checked by [checkRateLimit] at the times [times],
    one check after the other: whether each check lets it pass. *)
Fixpoint admitted (request : Request) (env : Env) (times : list Z)
    (uploadCounts : gmap string Upload.RateLimitData) : list bool :=
  match times with
  | [] => []
  | now :: later =>
      let (refusal, counts) :=
        Upload.checkRateLimit request env now uploadCounts in
      match refusal with
      | None => true
      | Some _ => false
      end :: admitted request env later counts
  end.

End Replay.

(** ** Further sample values *)

Module Scenes.

(** An environment without bindings, with the given rate limit and
    environment name. *)
Definition bare (environment limit : string) : Env :=
  {| PHOTOS_BUCKET := None; BRANDING_ASSETS := None; IMAGES := None;
     ANALYTICS := None; ENVIRONMENT := environment;
     MAX_UPLOAD_SIZE := ""; UPLOAD_RATE_LIMIT := limit;
     CACHE_TTL := "" |}.


(** The sample environment under another environment name. *)
Definition named (environment : string) : Env :=
  {| PHOTOS_BUCKET := PHOTOS_BUCKET Samples.environment;
     BRANDING_ASSETS := BRANDING_ASSETS Samples.environment;
     IMAGES := IMAGES Samples.environment;
     ANALYTICS := ANALYTICS Samples.environment;
     ENVIRONMENT := environment;
     MAX_UPLOAD_SIZE := MAX_UPLOAD_SIZE Samples.environment;
     UPLOAD_RATE_LIMIT := UPLOAD_RATE_LIMIT Samples.environment;
     CACHE_TTL := CACHE_TTL Samples.environment |}.

(** A [POST] of [files] in the environment [env], without headers. *)
Definition uploadIn (env : Env) (files : list File) : Context :=
  {| request :=
       {| method := "POST"; searchParams := []; reqHeaders := [];
          formData := Ok files |};
     env := env;
     params := [] |}.

(** [GET /api/images/<key>?<query>] in the sample environment. *)
Definition image (key : string) (query : list (string * string))
  : Context :=
  {| request := Samples.getRequest query;
     env := Samples.environment;
     params := [("key", key)] |}.

(** A cache that holds [cached] under every URL, and a bucket that
    holds nothing. *)
Definition warmCache (cached : Response) : Cache :=
  {| cacheMatch := fun _ => Ok (Some cached);
     cachePut := fun _ _ => Ok tt |}.

Definition emptyBucket : R2Bucket :=
  {| bucketGet := fun _ => Ok None;
     bucketPut := fun _ _ => Ok tt;
     bucketList := fun _ =>
       Ok {| objects := None; truncated := false; cursor := None |} |}.

(** [GET /api/images/<key>] with the bucket [bucket] bound. *)
Definition imageFrom (bucket : R2Bucket) (key : string) : Context :=
  {| request := Samples.getRequest [];
     env :=
       {| PHOTOS_BUCKET := Some bucket;
          BRANDING_ASSETS := None;
          IMAGES := None;
          ANALYTICS := None;
          ENVIRONMENT := "test";
          MAX_UPLOAD_SIZE := "10485760";
          UPLOAD_RATE_LIMIT := "100";
          CACHE_TTL := "604800" |};
     params := [("key", key)] |}.

End Scenes.

(** * Properties *)

(** ** The primitives on examples *)

Example parseInt_samples :
  parseInt "50" = Num 50 /\ parseInt " -7px" = Num (-7) /\
  parseInt "abc" = NaN /\ parseInt "0x1F" = Num 31 /\ parseInt "" = NaN /\
  parseInt "5000" = Num 5000.
Proof. repeat split; reflexivity. Qed.

Example toString_samples :
  toString (Num 800) = "800" /\ toString (Num 0) = "0" /\
  toString (Num (-5)) = "-5".
Proof. repeat split; reflexivity. Qed.

Example lastSegment_samples :
  lastSegment "" "photo.JPG" = "JPG" /\ lastSegment "" "noext" = "noext" /\
  lastSegment "" "a.b.c" = "c" /\ lastSegment "" "a." = "".
Proof. repeat split; reflexivity. Qed.

Example generateUniqueFilename_sample :
  Validation.generateUniqueFilename 1700000000000 "k3x9ab" "photo.JPG"
  = "1700000000000-k3x9ab.JPG".
Proof. reflexivity. Qed.

(** The cases of the unit tests of [sanitizeFilename]. *)
Example sanitizeFilename_samples :
  Validation.sanitizeFilename "MyFile.JPG" = "myfile.jpg"
  /\ Validation.sanitizeFilename "my file!@#$%^&*().jpg" = "my_file_.jpg"
  /\ Validation.sanitizeFilename "test-file.1.jpg" = "test-file.1.jpg"
  /\ Validation.sanitizeFilename "my   file   name.jpg" = "my_file_name.jpg"
  /\ Validation.sanitizeFilename "!@#$%^&*()" = "_".
Proof. repeat split; reflexivity. Qed.

(** The cases of the unit tests of the adapter's [createCacheKey]. *)
Example createCacheKey_samples :
  ImageProcessing.createCacheKey "test-image.jpg"
    {| width := Some (Num 800); height := Some (Num 600);
       quality := Some (Num 90); format := Some "webp";
       watermark := Some true |}
  = "test-image.jpg_800_600_90_webp_wm"
  /\ ImageProcessing.createCacheKey "test-image.jpg"
       {| width := None; height := None; quality := None; format := None;
          watermark := Some false |}
     = "test-image.jpg_auto_auto_auto_auto_no-wm".
Proof. split; reflexivity. Qed.

(** The cases of the unit tests of [validateProcessingOptions]; a width
    that is [NaN] is below and above nothing. *)
Example validateProcessingOptions_samples :
  let only w h q f :=
    {| width := w; height := h; quality := q; format := f;
       watermark := None |} in
  ImageProcessing.validateProcessingOptions
    (only (Some (Num 800)) (Some (Num 600)) (Some (Num 90)) (Some "webp"))
  = {| Validation.valid := true; Validation.error := None |}
  /\ ImageProcessing.validateProcessingOptions
       (only (Some (Num 0)) None None None)
     = Validation.invalid "Width must be between 1 and 4000 pixels"
  /\ ImageProcessing.validateProcessingOptions
       (only None (Some (Num (-1))) None None)
     = Validation.invalid "Height must be between 1 and 4000 pixels"
  /\ ImageProcessing.validateProcessingOptions
       (only None None (Some (Num 101)) None)
     = Validation.invalid "Quality must be between 1 and 100"
  /\ ImageProcessing.validateProcessingOptions
       (only None None None (Some "gif"))
     = Validation.invalid "Format must be jpeg, png, or webp"
  /\ ImageProcessing.validateProcessingOptions
       (only (Some NaN) None None None)
     = {| Validation.valid := true; Validation.error := None |}.
Proof. repeat split; reflexivity. Qed.

Example validateFile_samples :
  let check f :=
    Validation.validateFile Samples.formatBytes f
      Validation.DEFAULT_CONSTRAINTS in
  let passes := {| Validation.valid := true; Validation.error := None |} in
  check (Samples.jpegFile "a.jpg") = passes
  /\ check Samples.pngFile = passes
  /\ check Samples.webpFile = passes
  /\ check Samples.textFile
     = Validation.invalid "File does not appear to be a valid image"
  /\ check Samples.unreadableFile
     = Validation.invalid "File does not appear to be a valid image".
Proof. repeat split; reflexivity. Qed.

(** [optimizeForWeb] on a service that always renders 600000 bytes, for
    a target of 100 KB: every quality of the ladder is tried and the last
    rendering is returned; and on a service that renders 400000 bytes
    from quality 65 down, for the default target: it stops at 65. *)
Example optimizeForWeb_samples :
  let qualities (run : option (Eff Response)) :=
    omap (fun e => match e with
                   | ImagesTransform o => t_quality o
                   | _ => None
                   end)
         (default [] (trace <$> run)) in
  let large :=
    ImageProcessing.optimizeForWeb 9 [xff; xd8; xff] (Some (100 # 1))
      (Some Samples.alwaysLarge) in
  let small :=
    ImageProcessing.optimizeForWeb 9 [xff; xd8; xff] None
      (Some Samples.smallFrom65) in
  qualities large = map Num [95; 85; 75; 65; 55; 45; 35; 25; 20]
  /\ outcome <$> large = Some (Ok (Samples.rendered "600000"))
  /\ qualities small = map Num [95; 85; 75; 65]
  /\ outcome <$> small = Some (Ok (Samples.rendered "400000"))
  /\ ImageProcessing.optimizeForWeb 9 [xff; xd8; xff] None None
     = Some ([], Throw "Images binding not available").
Proof. repeat split; reflexivity. Qed.

(** [processImage] where the first logo is missing and drawing throws:
    the image is served without watermark. *)
Example processImage_sample :
  outcome
    (ImageProcessing.processImage [xff; xd8; xff]
       {| width := None; height := None; quality := Some (Num 90);
          format := Some "jpeg"; watermark := Some true |}
       Samples.environment)
  = Ok (Samples.rendered "1000").
Proof. reflexivity. Qed.

(** [GET /api/images/test.jpg?w=5000] *)
Example image_too_wide_sample :
  Images.onRequestGet Samples.tooWide Samples.cache
  = ([], Ok {| status := 400;
               headers := [("Content-Type", "application/json");
                           ("Cache-Control", "no-store")];
               body :=
                 ErrorBody
                   {| message := "Width must be between 1 and 4000 pixels";
                      code := "VALIDATION_FAILED";
                      errStatus := 400;
                      details := None |} |}).
Proof. reflexivity. Qed.

(** The limit of a listing for a few query strings. *)
Example limitOf_samples :
  let limit query := Listing.limitOf (Samples.getRequest query) in
  limit [] = Num 50
  /\ limit [("limit", "")] = Num 50
  /\ limit [("limit", "20")] = Num 20
  /\ limit [("limit", "500")] = Num 100
  /\ limit [("limit", "-3")] = Num (-3)
  /\ limit [("limit", "many")] = NaN.
Proof. repeat split; reflexivity. Qed.

(** A batch of two valid files and one invalid file is rejected as a
    whole; a batch of valid files of which one cannot be written is
    answered with 206. *)
Example upload_samples :
  let post files :=
    snd (Upload.onRequestPost Samples.formatBytes (Samples.upload files)
           Samples.clock Samples.noUploadsYet) in
  let written (t : list Event) :=
    omap (fun e => match e with
                   | BucketPut k _ => Some k
                   | _ => None
                   end) t in
  post [Samples.jpegFile "a.jpg"; Samples.textFile; Samples.pngFile]
  = ([], Ok (ErrorHandling.createValidationError
               "Invalid files: notes.jpg: File does not appear to be a valid image"
               (Some "photos")))
  /\ (let '(t, r) := post [Samples.jpegFile "a.jpg";
                           Samples.jpegFile "bad.jpg"] in
      written t
      = ["25thAnniversary/1700000000000-k3x9ab.jpg";
         "25thAnniversary/1700000000001-k3x9ab.jpg"]
      /\ (status <$> (match r with Ok x => Some x | Throw _ => None end)
          = Some 206))
  /\ (let '(t, r) := post Samples.elevenFiles in
      length (written t) = 11%nat
      /\ (status <$> (match r with Ok x => Some x | Throw _ => None end)
          = Some 201)).
Proof. repeat split; reflexivity. Qed.

(** ** Facts about strings *)

Section StringFacts.

Lemma append_cons (c : ascii) (s t : string) :
  String c s +:+ t = String c (s +:+ t).
Proof. reflexivity. Qed.

Lemma append_nil_l (t : string) : "" +:+ t = t.
Proof. reflexivity. Qed.

Lemma length_append (s t : string) :
  String.length (s +:+ t) = (String.length s + String.length t)%nat.
Proof.
  induction s as [|c s IH]; [reflexivity|].
  rewrite append_cons. cbn. now rewrite IH.
Qed.

(** A common tail can be cancelled. *)
Lemma append_cancel_r (s1 s2 t : string) :
  s1 +:+ t = s2 +:+ t -> s1 = s2.
Proof.
  revert s2; induction s1 as [|a s1 IH]; intros [|b s2] H;
    rewrite ?append_cons, ?append_nil_l in H.
  - reflexivity.
  - apply (f_equal String.length) in H; cbn in H.
    rewrite length_append in H; lia.
  - apply (f_equal String.length) in H; cbn in H.
    rewrite length_append in H; lia.
  - injection H as -> H. f_equal. now apply IH.
Qed.

Lemma mapString_mapString (f g : ascii -> ascii) (s : string) :
  mapString f (mapString g s) = mapString (fun c => f (g c)) s.
Proof. induction s as [|c s IH]; cbn; congruence. Qed.


(** Replacing leaves a string alone exactly when nothing is to be
    replaced, for a class that holds the underscore. *)
Lemma replaceOutside_fixed (keep : ascii -> bool) (s : string) :
  keep "_"%char = true ->
  replaceOutside keep s = s <-> allString keep s = true.
Proof.
  intros K; unfold replaceOutside.
  induction s as [|c s IH]; cbn; [tauto|].
  destruct (keep c) eqn:E; cbn.
  - rewrite <- IH. split; [now intros [= ->] | now intros ->].
  - split; [|discriminate]. intros [= <- _]. congruence.
Qed.

(** [collapseUnderscores] commutes with a renaming of characters that
    keeps the underscore apart. *)
Lemma collapse_mapString (f : ascii -> ascii) (s : string) :
  (forall c, isChar "_" (f c) = isChar "_" c) ->
  collapseUnderscores (mapString f s)
  = mapString f (collapseUnderscores s).
Proof.
  intros F; induction s as [|c s IH]; [reflexivity|].
  cbn [mapString collapseUnderscores]. rewrite F.
  destruct (isChar "_" c).
  - destruct s as [|c' s]; [reflexivity|].
    cbn [mapString] in *. rewrite F.
    destruct (isChar "_" c'); [exact IH|].
    cbn [mapString]. now rewrite <- IH.
  - cbn [mapString]. now rewrite IH.
Qed.


End StringFacts.

(** Destructs what the goal branches on, innermost first. *)
Ltac branch :=
  match goal with
  | |- context [match ?x with _ => _ end] =>
      lazymatch x with
      | context [match _ with _ => _ end] => fail
      | _ => destruct x eqn:?
      end
  | H : context [match ?x with _ => _ end] |- _ =>
      lazymatch x with
      | context [match _ with _ => _ end] => fail
      | _ => destruct x eqn:?
      end
  end.


(** Case analysis over the 256 code units. *)
Ltac by_cases_on_char c :=
  destruct c as [[] [] [] [] [] [] [] []]; vm_compute; reflexivity.

Lemma lowerChar_underscore (c : ascii) :
  isChar "_" (lowerChar c) = isChar "_" c.
Proof. by_cases_on_char c. Qed.

Lemma isWordDotHyphen_underscore : Images.isWordDotHyphen "_"%char = true.
Proof. reflexivity. Qed.

(** ** Filename sanitising *)







(** ** Responsive URLs *)

(** C9.  The [medium] URL of [generateResponsiveUrls] is the URL of
    [generateThumbnailUrl] at width 800 and quality 90:
    [/cdn-cgi/image/width=800,quality=90/api/images/<key>]. *)
Theorem medium_url_is_thumbnail_800_90 (imageKey : string) :
  ImageProcessing.medium (ImageProcessing.generateResponsiveUrls imageKey)
  = ImageProcessing.generateThumbnailUrl imageKey (Some (Num 800))
                                         (Some (Num 90))
  /\ ImageProcessing.generateThumbnailUrl imageKey (Some (Num 800))
                                          (Some (Num 90))
     = "/cdn-cgi/image/width=800,quality=90/api/images/" +:+ imageKey
  /\ ImageProcessing.generateThumbnailUrl imageKey (Some (Num 800))
                                          (Some (Num 90))
     = Spec.urlPattern "800" "90" imageKey.
Proof. repeat split; reflexivity. Qed.

(** ** Cache keys *)

Lemma join_cons (sep k : string) (f : string) (fs : list string) :
  join sep (k :: f :: fs) = k +:+ sep +:+ join sep (f :: fs).
Proof. reflexivity. Qed.

(** C1, as the sources have it.  The handler's cache key is the adapter's
    cache key of the sanitised storage key; the two functions agree on a
    storage key exactly when each of its characters is a word character,
    a dot or a hyphen. *)
Theorem createCacheKey_handler_vs_adapter (imageKey : string)
    (options : ImageProcessingOptions) :
  Images.createCacheKey imageKey options
  = ImageProcessing.createCacheKey
      (replaceOutside Images.isWordDotHyphen imageKey) options
  /\ (Images.createCacheKey imageKey options
      = ImageProcessing.createCacheKey imageKey options
      <-> allString Images.isWordDotHyphen imageKey = true).
Proof.
  split; [reflexivity|].
  rewrite <- (replaceOutside_fixed _ _ isWordDotHyphen_underscore).
  unfold Images.createCacheKey, ImageProcessing.createCacheKey,
    ImageProcessing.optionFields.
  rewrite !join_cons. split.
  - apply append_cancel_r.
  - now intros ->.
Qed.

(** C1 fails as stated: for the storage key of an uploaded photo, which
    holds a slash, the two cache keys differ. *)
Lemma createCacheKey_disagree :
  let options :=
    {| width := Some (Num 800); height := None; quality := Some (Num 90);
       format := Some "webp"; watermark := Some true |} in
  Images.createCacheKey "25thAnniversary/a.jpg" options
  = "25thAnniversary_a.jpg_800_auto_90_webp_wm"
  /\ ImageProcessing.createCacheKey "25thAnniversary/a.jpg" options
     = "25thAnniversary/a.jpg_800_auto_90_webp_wm"
  /\ ~ (forall imageKey options,
           Images.createCacheKey imageKey options
           = ImageProcessing.createCacheKey imageKey options).
Proof.
  split; [reflexivity|]. split; [reflexivity|].
  intros H.
  specialize (H "25thAnniversary/a.jpg"
                {| width := None; height := None; quality := None;
                   format := None; watermark := None |}).
  discriminate H.
Qed.

(** ** Magic bytes *)

Section MagicBytes.

Import Validation.
Import Spec (bytesAt).

Lemma byteIs_head (bytes : Data) (b : byte) :
  byteIs bytes 0 b = true <-> exists rest, bytes = b :: rest.
Proof.
  unfold byteIs. destruct bytes as [|x rest]; cbn.
  - split; [discriminate | now intros [? ?]].
  - split.
    + intros H. apply byte_dec_bl in H. subst. now exists rest.
    + intros [? [= -> _]]. now apply byte_dec_lb.
Qed.

Lemma byteIs_drop (bytes : Data) (k i : nat) (b : byte) :
  byteIs (drop k bytes) i b = byteIs bytes (k + i) b.
Proof. unfold byteIs. now rewrite lookup_drop. Qed.

Lemma byteIs_take (bytes : Data) (n i : nat) (b : byte) :
  (i < n)%nat -> byteIs (take n bytes) i b = byteIs bytes i b.
Proof. intros H. unfold byteIs. now rewrite lookup_take_lt. Qed.

Lemma bytesAt_prefix (p bytes : Data) (k : nat) :
  bytesAt bytes k p = true <-> p `prefix_of` drop k bytes.
Proof.
  revert k; induction p as [|b p IH]; intros k; cbn.
  - split; [intros _; apply prefix_nil | reflexivity].
  - rewrite andb_true_iff, IH.
    replace k with (k + 0)%nat at 1 by lia.
    rewrite <- byteIs_drop, byteIs_head.
    replace (S k) with (k + 1)%nat by lia. rewrite <- drop_drop.
    split.
    + intros [[rest ->] H]. now apply prefix_cons.
    + intros H. destruct (drop k bytes) as [|x rest].
      * now apply prefix_nil_not in H.
      * pose proof (prefix_cons_inv_1 _ _ _ _ H) as ->.
        apply prefix_cons_inv_2 in H. split; [now exists rest | exact H].
Qed.

Lemma bytesAt_take (bytes p : Data) (n k : nat) :
  (k + length p <= n)%nat ->
  bytesAt (take n bytes) k p = bytesAt bytes k p.
Proof.
  revert k; induction p as [|b p IH]; intros k H; cbn in *; [reflexivity|].
  rewrite byteIs_take by lia. now rewrite IH by lia.
Qed.

Lemma bytesAt_drop (bytes p : Data) (n k : nat) :
  bytesAt (drop n bytes) k p = bytesAt bytes (n + k) p.
Proof.
  revert k; induction p as [|b p IH]; intros k; cbn; [reflexivity|].
  rewrite byteIs_drop, IH. now replace (n + S k)%nat with (S (n + k)) by lia.
Qed.

(** Two signatures found at the same place start alike. *)
Lemma bytesAt_same_head (bytes : Data) (k : nat) (a b : byte)
    (p q : Data) :
  bytesAt bytes k (a :: p) = true -> bytesAt bytes k (b :: q) = true ->
  a = b.
Proof.
  cbn. unfold byteIs. destruct (bytes !! k) as [x|]; [|discriminate].
  intros Ha Hb. apply andb_prop in Ha as [Ha _], Hb as [Hb _].
  apply byte_dec_bl in Ha, Hb. congruence.
Qed.

(** The four tests of [isValidImageFile] read a signature each. *)
Lemma jpeg_test (bytes : Data) :
  byteIs bytes 0 xff && byteIs bytes 1 xd8 && byteIs bytes 2 xff
  = bytesAt bytes 0 Spec.JPEG_MAGIC.
Proof. cbn. now rewrite andb_true_r, !andb_assoc. Qed.

Lemma png_test (bytes : Data) :
  byteIs bytes 0 x89 && byteIs bytes 1 x50 && byteIs bytes 2 x4e
  && byteIs bytes 3 x47 && byteIs bytes 4 x0d && byteIs bytes 5 x0a
  && byteIs bytes 6 x1a && byteIs bytes 7 x0a
  = bytesAt bytes 0 Spec.PNG_MAGIC.
Proof. cbn. now rewrite andb_true_r, !andb_assoc. Qed.

Lemma riff_test (bytes : Data) :
  byteIs bytes 0 x52 && byteIs bytes 1 x49 && byteIs bytes 2 x46
  && byteIs bytes 3 x46
  = bytesAt bytes 0 Spec.RIFF_MAGIC.
Proof. cbn. now rewrite andb_true_r, !andb_assoc. Qed.

Lemma webp_test (bytes : Data) :
  byteIs bytes 0 x57 && byteIs bytes 1 x45 && byteIs bytes 2 x42
  && byteIs bytes 3 x50
  = bytesAt bytes 0 Spec.WEBP_MAGIC.
Proof. cbn. now rewrite andb_true_r, !andb_assoc. Qed.

(** [isValidImageFile], test by test, on the content of the file. *)
Lemma isValidImageFile_unfold (file : File) :
  isValidImageFile file
  = negb (fileIoError file 0 8)
    && (bytesAt (fileContent file) 0 Spec.JPEG_MAGIC
        || bytesAt (fileContent file) 0 Spec.PNG_MAGIC
        || (bytesAt (fileContent file) 0 Spec.RIFF_MAGIC
            && negb (fileIoError file 8 12)
            && bytesAt (fileContent file) 8 Spec.WEBP_MAGIC)).
Proof.
  unfold isValidImageFile, slice.
  destruct (fileIoError file 0 8); [reflexivity|].
  rewrite jpeg_test, png_test, riff_test.
  change (8 - 0)%nat with 8%nat; change (12 - 8)%nat with 4%nat.
  rewrite drop_0, !bytesAt_take by (cbn; lia).
  set (c := fileContent file).
  destruct (fileIoError file 8 12).
  - now destruct (bytesAt c 0 Spec.JPEG_MAGIC), (bytesAt c 0 Spec.PNG_MAGIC),
      (bytesAt c 0 Spec.RIFF_MAGIC).
  - rewrite webp_test, bytesAt_take, bytesAt_drop by (cbn; lia).
    change (8 + 0)%nat with 8%nat.
    now destruct (bytesAt c 0 Spec.JPEG_MAGIC), (bytesAt c 0 Spec.PNG_MAGIC),
      (bytesAt c 0 Spec.RIFF_MAGIC), (bytesAt c 8 Spec.WEBP_MAGIC).
Qed.

Variable formatBytes : number -> string.

Lemma validateFile_allowed (file : File) (constraints : UploadConstraints) :
  gt (Num (fileSize file)) (maxFileSize constraints) = false ->
  arrayIncludes (allowedTypes constraints) (fileType file) = true ->
  validateFile formatBytes file constraints
  = if isValidImageFile file then {| valid := true; error := None |}
    else invalid Spec.genericImageError.
Proof.
  intros Hs Ht. unfold validateFile. rewrite Hs, Ht. cbn.
  now destruct (isValidImageFile file).
Qed.

(** C6.  For a file of allowed type and size: when its bytes can be
    read, [validateFile] passes exactly when the content starts with
    one of the three signatures; any other content is rejected, and so
    is a file whose leading bytes cannot be read, always with the same
    generic message. *)
Theorem validateFile_magic_bytes (file : File)
    (constraints : UploadConstraints) :
  gt (Num (fileSize file)) (maxFileSize constraints) = false ->
  arrayIncludes (allowedTypes constraints) (fileType file) = true ->
  let result := validateFile formatBytes file constraints in
  ((forall a b, fileIoError file a b = false) ->
   (result = {| valid := true; error := None |}
    <-> Spec.hasImageSignature (fileContent file)))
  /\ (~ Spec.hasImageSignature (fileContent file) ->
      result = invalid Spec.genericImageError)
  /\ (fileIoError file 0 8 = true ->
      result = invalid Spec.genericImageError)
  /\ (Spec.RIFF_MAGIC `prefix_of` fileContent file ->
      fileIoError file 8 12 = true ->
      result = invalid Spec.genericImageError)
  /\ (result = {| valid := true; error := None |}
      \/ result = invalid Spec.genericImageError).
Proof.
  intros Hs Ht result. subst result.
  rewrite (validateFile_allowed _ _ Hs Ht), isValidImageFile_unfold.
  set (c := fileContent file).
  assert (HJ := bytesAt_prefix Spec.JPEG_MAGIC c 0).
  assert (HP := bytesAt_prefix Spec.PNG_MAGIC c 0).
  assert (HR := bytesAt_prefix Spec.RIFF_MAGIC c 0).
  assert (HW := bytesAt_prefix Spec.WEBP_MAGIC c 8).
  rewrite drop_0 in HJ, HP, HR. unfold Spec.hasImageSignature. fold c.
  assert (Hvi : {| valid := true; error := None |}
                <> invalid Spec.genericImageError) by discriminate.
  assert (HJR : bytesAt c 0 Spec.JPEG_MAGIC = true ->
                bytesAt c 0 Spec.RIFF_MAGIC = true -> False).
  { intros H1 H2. now pose proof (bytesAt_same_head _ _ _ _ _ _ H1 H2). }
  assert (HPR : bytesAt c 0 Spec.PNG_MAGIC = true ->
                bytesAt c 0 Spec.RIFF_MAGIC = true -> False).
  { intros H1 H2. now pose proof (bytesAt_same_head _ _ _ _ _ _ H1 H2). }
  destruct (bytesAt c 0 Spec.JPEG_MAGIC), (bytesAt c 0 Spec.PNG_MAGIC),
    (bytesAt c 0 Spec.RIFF_MAGIC), (bytesAt c 8 Spec.WEBP_MAGIC),
    (fileIoError file 0 8) eqn:E0, (fileIoError file 8 12) eqn:E8;
    cbn [negb andb orb];
    (split; [intros Hio; pose proof (Hio 0%nat 8%nat);
             pose proof (Hio 8%nat 12%nat); clear Hio|]);
    intuition congruence.
Qed.

End MagicBytes.

(** ** The limit of a listing *)

Lemma min_100_bound (n : number) :
  gt (JS.min n (Num 100)) (Num 100) = false
  /\ (forall z, JS.min n (Num 100) = Num z -> z <= 100).
Proof.
  destruct n as [|x]; cbn.
  - split; [reflexivity | discriminate].
  - split; [apply Z.ltb_ge; lia | intros z [= <-]; lia].
Qed.

Section ListingLimit.

Variable renderPhotos : R2Objects -> string -> Outcome string.

(** C8.  The limit of the object-store list call is the one computed
    from the query: 50 when [limit] is absent, never above 100.  The
    call is made with it whenever the request is not a preflight and
    the bucket is configured. *)
Theorem listing_limit_capped (context : Context) :
  let run := Listing.onRequestGet renderPhotos context in
  (forall o, BucketList o ∈ trace run ->
             l_limit o = Listing.limitOf (request context))
  /\ (paramGet (searchParams (request context)) "limit" = None ->
      Listing.limitOf (request context) = Num 50)
  /\ gt (Listing.limitOf (request context)) (Num 100) = false
  /\ (forall z, Listing.limitOf (request context) = Num z -> z <= 100)
  /\ (method (request context) <> "OPTIONS" ->
      PHOTOS_BUCKET (env context) <> None ->
      exists rest,
        trace run
        = BucketList {| l_prefix := "25thAnniversary/";
                        l_limit := Listing.limitOf (request context);
                        l_cursor := Listing.cursorOf (request context) |}
            :: rest).
Proof.
  intros run. split; [|split; [|split; [|split]]].
  - intros o. subst run. unfold Listing.onRequestGet, trace.
    unfold ErrorHandling.logError, Listing.logGalleryView,
      ErrorHandling.handleCORS.
    repeat (branch; cbn);
      rewrite ?elem_of_cons, ?elem_of_nil;
      intuition (try discriminate; try congruence).
    all: match goal with H : BucketList _ = BucketList _ |- _ =>
                           now injection H as -> end.
  - intros H. unfold Listing.limitOf. now rewrite H.
  - apply min_100_bound.
  - apply min_100_bound.
  - intros Hm Hb. subst run. unfold Listing.onRequestGet, trace.
    unfold ErrorHandling.handleCORS.
    destruct (String.eqb_spec (method (request context)) "OPTIONS");
      [contradiction|].
    destruct (PHOTOS_BUCKET (env context)) as [bucket|]; [|contradiction].
    unfold ErrorHandling.logError, Listing.logGalleryView.
    repeat (branch; cbn); eexists; reflexivity.
Qed.

End ListingLimit.

(** ** The quality back-off of [optimizeForWeb] *)

(** The renderings are compared as a whole, never unfolded. *)
#[local] Arguments ImageProcessing.renderAt : simpl never.

Section Backoff.

Import ImageProcessing.

Variable img : ImagesBinding.
Variable imageData : Data.
Variable targetSizeKB : Q.




End Backoff.


(** ** Watermarking degrades gracefully *)

Section Watermarks.

Import ImageProcessing.

Variable img : ImagesBinding.
Variable assets : KVNamespace.


End Watermarks.

#[local] Arguments ImageProcessing.applyWatermarks : simpl never.


(** ** Processing options are checked before anything is fetched *)

Lemma outside_iff (lo hi : Z) (n : option number) :
  ImageProcessing.outside lo hi n = true <-> Spec.outsideBound lo hi n.
Proof.
  unfold ImageProcessing.outside, Spec.outsideBound.
  destruct n as [[|z]|]; cbn.
  - split; [discriminate | now intros (z & [= ] & _)].
  - rewrite orb_true_iff, !Z.ltb_lt. split.
    + intros H. now exists z.
    + now intros (z' & [= <-] & H).
  - split; [discriminate | now intros (z & [= ] & _)].
Qed.



Lemma logError_quiet (msg : string) (env : Env) (e : Event) :
  e ∈ trace (ErrorHandling.logError msg env) ->
  Spec.touchesStoreOrAdapter e = false.
Proof.
  unfold ErrorHandling.logError, trace.
  destruct (ANALYTICS env) as [a|]; cbn; [destruct (writeDataPoint a _)|];
    cbn; rewrite ?elem_of_cons, ?elem_of_nil; intuition (now subst).
Qed.

(** [logError] never throws. *)
Lemma logError_ok (msg : string) (env : Env) :
  outcome (ErrorHandling.logError msg env) = Ok tt.
Proof.
  unfold ErrorHandling.logError, outcome.
  destruct (ANALYTICS env) as [a|]; cbn; [|reflexivity].
  now destruct (writeDataPoint a _) as [[]|].
Qed.


(** ** The upload handler *)

#[local] Arguments ErrorHandling.logError : simpl never.
#[local] Arguments Upload.logUploads : simpl never.
#[local] Arguments Validation.validateFile : simpl never.

(** A step that calls nothing and returns [a] is no step. *)
Lemma bind_ret {A B} (a : A) (k : A -> Eff B) : bind ([], Ok a) k = k a.
Proof. unfold bind. now destruct (k a). Qed.

Lemma allSettled_all {A} (ms : list (Eff A)) :
  allSettled ms = (concat (map fst ms), Ok (map snd ms)).
Proof.
  induction ms as [|m ms IH]; [reflexivity|].
  cbn [allSettled]. now rewrite IH.
Qed.

Lemma putsOf_app (t1 t2 : list Event) :
  Spec.putsOf (t1 ++ t2) = Spec.putsOf t1 ++ Spec.putsOf t2.
Proof. apply omap_app. Qed.

Lemma logError_no_put (msg : string) (env : Env) :
  Spec.putsOf (trace (ErrorHandling.logError msg env)) = [].
Proof.
  unfold ErrorHandling.logError, trace.
  destruct (ANALYTICS env) as [a|]; cbn; [|reflexivity].
  now destruct (writeDataPoint a _).
Qed.

Lemma logUploads_quiet (uploads : list PhotoMetadata) (env : Env) :
  outcome (Upload.logUploads uploads env) = Ok tt
  /\ Spec.putsOf (trace (Upload.logUploads uploads env)) = [].
Proof.
  unfold Upload.logUploads, trace, outcome.
  destruct (ANALYTICS env) as [a|]; cbn; [|now split].
  now destruct (writeDataPoint a _) as [[]|].
Qed.

Section UploadFacts.

Variable env : Env.
Variable bucket : R2Bucket.
Variable clock : Upload.Clock.
Hypothesis Hbucket : PHOTOS_BUCKET env = Some bucket.

(** One upload: a storage write, and the outcome that follows it. *)
Lemma uploadFile_settles (i : nat) (f : File) :
  let run := Upload.uploadFile f env (Upload.stamp clock i)
               (Upload.random clock i) (Upload.isoTime clock i) in
  Spec.putsOf (trace run) = [(Spec.uploadKey clock i f, f)]
  /\ outcome run = Spec.settles bucket clock i f.
Proof.
  unfold Upload.uploadFile, Spec.settles, trace, outcome.
  rewrite Hbucket.
  change (Upload.EVENT_PREFIX +:+ "/" +:+ ?x) with ("25thAnniversary/" +:+ x).
  fold (Spec.uploadKey clock i f).
  now destruct (bucketPut bucket _ f) as [[]|e].
Qed.

(** All uploads of a batch, started in order. *)
Lemma uploads_settle (A : Type) (tag : File -> A) (files : list File) :
  forall (k : nat) (start : nat -> File * A -> Eff PhotoMetadata),
    (forall i r,
        start i r
        = Upload.uploadFile (fst r) env (Upload.stamp clock (k + i))
            (Upload.random clock (k + i)) (Upload.isoTime clock (k + i))) ->
    let promises := imap start (map (fun f => (f, tag f)) files) in
    Spec.putsOf (concat (map fst promises)) = Spec.writes clock k files
    /\ map snd promises = map snd (Spec.uploads bucket clock k files).
Proof.
  induction files as [|f files IH]; intros k start Hstart; [now split|].
  cbn [map imap concat Spec.writes Spec.uploads].
  destruct (IH (S k) (start ∘ S)) as [IHp IHo].
  { intros i r. cbn. rewrite Hstart.
    now replace (k + S i)%nat with (S k + i)%nat by lia. }
  rewrite Hstart. cbn [fst]. replace (k + 0)%nat with k by lia.
  destruct (uploadFile_settles k f) as [Hp Ho].
  unfold trace, outcome in Hp, Ho.
  rewrite putsOf_app, Hp, Ho. cbn. split; f_equal; assumption.
Qed.

(** The [forEach] over the settled uploads sorts them into the stored
    and the failed, and writes nothing. *)
Lemma collectResults_sorts (us : list (File * Outcome PhotoMetadata)) :
  forall (pre post : list (File * Validation.ValidationResult))
         (stored : list PhotoMetadata) (failed : list FailedUpload),
    map fst post = map fst us ->
    Forall (fun u => forall e, snd u = Throw e -> e <> "") us ->
    exists t,
      Upload.collectResults (length pre) (map snd us) (pre ++ post) env
        stored failed
      = (t, Ok (stored ++ Spec.storedPhotos us,
                failed ++ Spec.failedUploads us))
      /\ Spec.putsOf t = [].
Proof.
  induction us as [|[f o] us IH]; intros pre post stored failed Hpost Hne.
  - exists []. cbn. now rewrite !app_nil_r.
  - destruct post as [|[f' v] post]; [discriminate|].
    cbn in Hpost. injection Hpost as -> Hpost.
    apply Forall_cons in Hne as [Hf Hne].
    cbn [map snd Upload.collectResults].
    rewrite list_lookup_middle by reflexivity. cbn [fst].
    specialize (IH (pre ++ [(f, v)]) post).
    rewrite length_app, Nat.add_1_r, <- app_assoc in IH. cbn [app] in IH.
    destruct o as [m|e].
    + destruct (IH (stored ++ [m]) failed Hpost Hne) as (t & -> & Ht).
      exists t. split; [|exact Ht].
      unfold Spec.storedPhotos, Spec.failedUploads. cbn.
      now rewrite <- app_assoc.
    + destruct (IH stored
                  (failed ++ [{| failedFilename := fileName f;
                                 failedError := orElse e "Upload failed" |}])
                  Hpost Hne) as (t & Hrun & Ht).
      pose proof (logError_ok ("Upload failed for " +:+ fileName f) env)
        as Hok.
      pose proof (logError_no_put ("Upload failed for " +:+ fileName f) env)
        as Hno.
      destruct (ErrorHandling.logError _ env) as [tl ol].
      unfold trace, outcome in Hok, Hno. cbn [fst snd] in Hok, Hno.
      subst ol.
      exists (tl ++ t). unfold bind. rewrite Hrun. split.
      * unfold Spec.storedPhotos, Spec.failedUploads. cbn.
        rewrite <- app_assoc. cbn. do 4 f_equal.
        unfold orElse. specialize (Hf e eq_refl).
        now destruct (String.eqb_spec e "").
      * now rewrite putsOf_app, Hno, Ht.
Qed.

End UploadFacts.

Section UploadHandler.

Variable formatBytes : number -> string.
Variable context : Context.
Variable clock : Upload.Clock.
Variable uploadCounts : gmap string Upload.RateLimitData.
Variable bucket : R2Bucket.
Variable files : list File.

Let verdict (f : File) : Validation.ValidationResult :=
  Validation.validateFile formatBytes f
    (Spec.uploadConstraints (env context)).

Let run : Eff Response :=
  snd (Upload.onRequestPost formatBytes context clock uploadCounts).

Lemma filter_verdicts (b : bool) (fs : list File) :
  filter (fun r : Upload.Validated => Upload.isValid r = b)
         (map (fun f => (f, verdict f)) fs)
  = map (fun f => (f, verdict f))
        (filter (fun f => Validation.valid (verdict f) = b) fs).
Proof.
  induction fs as [|f fs IH]; [reflexivity|].
  cbn [map]. rewrite !filter_cons, IH. unfold Upload.isValid at 1. cbn [snd].
  now destruct (decide (Validation.valid (verdict f) = b)).
Qed.

Lemma filter_all {A} (P : A -> Prop) `{!forall x, Decision (P x)}
    (l : list A) :
  (forall x, x ∈ l -> P x) -> filter P l = l.
Proof.
  induction l as [|x l IH]; intros Hl; [reflexivity|].
  rewrite filter_cons_True by (apply Hl; left).
  f_equal. apply IH. intros y Hy. apply Hl. now right.
Qed.

Lemma filter_none {A} (P : A -> Prop) `{!forall x, Decision (P x)}
    (l : list A) :
  (forall x, x ∈ l -> ~ P x) -> filter P l = [].
Proof.
  induction l as [|x l IH]; intros Hl; [reflexivity|].
  rewrite filter_cons_False by (apply Hl; left).
  apply IH. intros y Hy. apply Hl. now right.
Qed.

(** The handler, for a request that comes to the validation of its
    files. *)
Lemma onRequestPost_validation :
  Spec.reachesValidation context clock uploadCounts bucket files ->
  run
  = tryCatch
      (let validationResults := map (fun f => (f, verdict f)) files in
       let invalidFiles :=
         filter (fun r : Upload.Validated => Upload.isValid r = false)
                validationResults in
       if (0 <? length invalidFiles)%nat then
         ret (ErrorHandling.createValidationError
                ("Invalid files: "
                 +:+ join ", " (map (Upload.describeInvalid) invalidFiles))
                (Some "photos"))
       else
         let uploadPromises :=
           imap (fun i (result : Upload.Validated) =>
                   Upload.uploadFile (fst result) (env context)
                     (Upload.stamp clock i) (Upload.random clock i)
                     (Upload.isoTime clock i))
                (filter (fun r : Upload.Validated => Upload.isValid r = true)
                        validationResults) in
         uploadResults <- allSettled uploadPromises ;;
         collected <- Upload.collectResults 0 uploadResults
                        validationResults (env context) [] [] ;;
         (if (0 <? length (fst collected))%nat
          then Upload.logUploads (fst collected) (env context)
          else ret tt) ;;;
         ret {| status :=
                  if (length (snd collected) =? 0)%nat then 201 else 206;
                headers :=
                  [("Content-Type", "application/json");
                   ("Access-Control-Allow-Origin",
                    orDefault
                      (headersGet (reqHeaders (request context)) "Origin")
                      "*")];
                body :=
                  UploadBody
                    {| success := (length (snd collected) =? 0)%nat;
                       photos :=
                         if (0 <? length (fst collected))%nat
                         then Some (fst collected) else None;
                       errors :=
                         if (0 <? length (snd collected))%nat
                         then Some (snd collected) else None |} |})
      (fun error =>
         ErrorHandling.logError error (env context) ;;;
         ret (ErrorHandling.createErrorResponse "Upload processing failed"
                None None None)).
Proof.
  intros (Hm & Hb & Hr & Ha & Hf & Hne).
  subst run. unfold Upload.onRequestPost.
  unfold ErrorHandling.handleCORS.
  destruct (String.eqb_spec (method (request context)) "OPTIONS");
    [contradiction|].
  rewrite Hb.
  destruct (Upload.checkRateLimit _ _ _ _) as [rl counts]. cbn in Hr.
  subst rl. rewrite Ha, Hf. cbn [snd]. rewrite bind_ret.
  destruct files as [|f fs]; [contradiction|]. reflexivity.
Qed.

(** Some file is invalid: the batch is rejected, nothing is called. *)
Lemma upload_some_invalid :
  Spec.reachesValidation context clock uploadCounts bucket files ->
  (exists f, f ∈ files /\ Validation.valid (verdict f) = false) ->
  run
  = ([], Ok (ErrorHandling.createValidationError
               (Spec.invalidFilesMessage formatBytes (env context) files)
               (Some "photos"))).
Proof.
  intros Hreach (f & Hin & Hf).
  rewrite (onRequestPost_validation Hreach). cbv zeta.
  rewrite filter_verdicts, length_map.
  assert (Hlen : (0 <? length (filter
                    (fun f => Validation.valid (verdict f) = false) files))%nat
                 = true).
  { apply Nat.ltb_lt.
    assert (Hf' : f ∈ filter (fun f => Validation.valid (verdict f) = false)
                              files)
      by now apply list_elem_of_filter.
    destruct (filter _ files); [now apply elem_of_nil in Hf' | cbn; lia]. }
  rewrite Hlen. cbn [tryCatch ret].
  unfold Spec.invalidFilesMessage. now rewrite map_map.
Qed.

(** Every file is valid: each is written to storage, and the answer
    reports the stored and the failed. *)
Lemma upload_all_valid :
  Spec.reachesValidation context clock uploadCounts bucket files ->
  (forall f, f ∈ files -> Validation.valid (verdict f) = true) ->
  let us := Spec.uploads bucket clock 0 files in
  let stored := Spec.storedPhotos us in
  let failed := Spec.failedUploads us in
  exists t,
    run
    = (t, Ok {| status := if failed is [] then 201 else 206;
                headers :=
                  [("Content-Type", "application/json");
                   ("Access-Control-Allow-Origin",
                    orDefault
                      (headersGet (reqHeaders (request context)) "Origin")
                      "*")];
                body :=
                  UploadBody
                    {| success := if failed is [] then true else false;
                       photos := Spec.nonEmpty stored;
                       errors := Spec.nonEmpty failed |} |})
    /\ Spec.putsOf t = Spec.writes clock 0 files.
Proof.
  intros Hreach Hall us stored failed.
  rewrite (onRequestPost_validation Hreach). cbv zeta.
  destruct Hreach as (_ & Hb & _).
  rewrite !filter_verdicts.
  rewrite (filter_none (fun f => Validation.valid (verdict f) = false))
    by (intros f Hf; rewrite (Hall f Hf); discriminate).
  rewrite (filter_all (fun f => Validation.valid (verdict f) = true))
    by exact Hall.
  change (0 <? length (map _ []))%nat with false. cbv iota.
  rewrite allSettled_all.
  destruct (uploads_settle (env context) bucket clock Hb _ verdict files 0
              (fun i (result : Upload.Validated) =>
                 Upload.uploadFile (fst result) (env context)
                   (Upload.stamp clock i) (Upload.random clock i)
                   (Upload.isoTime clock i)))
    as [Hputs Hres]; [reflexivity|].
  rewrite Hres.
  destruct (collectResults_sorts (env context) us []
              (map (fun f => (f, verdict f)) files) [] [])
    as (tc & Hcol & Hcp).
  { subst us. rewrite map_map. cbn. clear.
    generalize 0%nat. induction files as [|f fs IH]; intros k;
      [reflexivity|]. cbn. f_equal. apply IH. }
  { subst us. clear. generalize 0%nat.
    induction files as [|f fs IH]; intros k; constructor; [|apply IH].
    cbn. unfold Spec.settles. destruct (bucketPut _ _ _); [discriminate|].
    intros e' [= <-]. discriminate. }
  cbn [length app] in Hcol. fold us.
  unfold bind at 1. cbn [bind]. unfold bind at 1. rewrite Hcol.
  cbn [fst snd app]. fold stored failed.
  destruct (logUploads_quiet stored (env context)) as [Hlo Hlp].
  assert (Hlog : exists tl,
             (if (0 <? length stored)%nat
              then Upload.logUploads stored (env context) else ret tt)
             = (tl, Ok tt) /\ Spec.putsOf tl = []).
  { destruct (0 <? length stored)%nat; [|now exists []].
    destruct (Upload.logUploads stored (env context)) as [tl ol].
    unfold trace, outcome in Hlo, Hlp. cbn [fst snd] in Hlo, Hlp.
    subst ol. now exists tl. }
  destruct Hlog as (tl & -> & Htl).
  cbn [bind ret tryCatch app].
  eexists. split.
  - f_equal. f_equal.
    destruct failed, stored; reflexivity.
  - rewrite !putsOf_app, Hputs, Hcp, Htl. cbn. now rewrite !app_nil_r.
Qed.

End UploadHandler.

Section StorageWrites.

Variable bucket : R2Bucket.
Variable clock : Upload.Clock.

Lemma failedUploads_cons (k : nat) (f : File) (fs : list File) :
  Spec.failedUploads (Spec.uploads bucket clock k (f :: fs))
  = match bucketPut bucket (Spec.uploadKey clock k f) f with
    | Ok _ => []
    | Throw e =>
        [{| failedFilename := fileName f;
            failedError :=
              "Failed to upload " +:+ fileName f +:+ ": " +:+ e |}]
    end ++ Spec.failedUploads (Spec.uploads bucket clock (S k) fs).
Proof.
  unfold Spec.failedUploads. cbn [Spec.uploads omap list_omap snd fst].
  unfold Spec.settles. now destruct (bucketPut bucket _ f).
Qed.

(** No upload failed when every storage write succeeded. *)
Lemma failedUploads_none (fs : list File) :
  forall k,
    (forall i f, fs !! i = Some f ->
       exists u, bucketPut bucket (Spec.uploadKey clock (k + i) f) f = Ok u) ->
    Spec.failedUploads (Spec.uploads bucket clock k fs) = [].
Proof.
  induction fs as [|f fs IH]; intros k H; [reflexivity|].
  rewrite failedUploads_cons.
  destruct (H 0%nat f eq_refl) as [u Hu].
  rewrite Nat.add_0_r in Hu. rewrite Hu. cbn [app].
  apply IH. intros i g Hg.
  replace (S k + i)%nat with (k + S i)%nat by lia. now apply H.
Qed.

(** A failed storage write is reported with the name of its file. *)
Lemma failedUploads_reported (fs : list File) :
  forall k i f e,
    fs !! i = Some f ->
    bucketPut bucket (Spec.uploadKey clock (k + i) f) f = Throw e ->
    {| failedFilename := fileName f;
       failedError := "Failed to upload " +:+ fileName f +:+ ": " +:+ e |}
    ∈ Spec.failedUploads (Spec.uploads bucket clock k fs).
Proof.
  induction fs as [|g fs IH]; intros k i f e Hi He; [discriminate|].
  rewrite failedUploads_cons. destruct i as [|i].
  - injection Hi as ->. rewrite Nat.add_0_r in He. rewrite He.
    apply elem_of_app. left. apply list_elem_of_singleton. reflexivity.
  - apply elem_of_app. right. apply (IH (S k) i); [exact Hi|].
    now replace (S k + i)%nat with (k + S i)%nat by lia.
Qed.

Lemma length_writes (fs : list File) (k : nat) :
  length (Spec.writes clock k fs) = length fs.
Proof. revert k; induction fs; intros k; cbn; [reflexivity | now rewrite IHfs]. Qed.

End StorageWrites.

(** C2.  For a request that comes to the validation of its files: if a
    file fails validation, the answer is [400 VALIDATION_FAILED] with the
    combined message naming each failing file and its reason, and
    nothing is written (nothing is called at all); if every file passes,
    each file is written to storage, the status is 201 when every write
    succeeds and 206 when one fails, and each failed file is reported as
    [{filename, error}]. *)
Theorem upload_batch_validation_then_writes
    (formatBytes : number -> string) (context : Context)
    (clock : Upload.Clock) (uploadCounts : gmap string Upload.RateLimitData)
    (bucket : R2Bucket) (files : list File) :
  Spec.reachesValidation context clock uploadCounts bucket files ->
  let verdict f :=
    Validation.validateFile formatBytes f
      (Spec.uploadConstraints (env context)) in
  let run := snd (Upload.onRequestPost formatBytes context clock
                    uploadCounts) in
  let us := Spec.uploads bucket clock 0 files in
  ((exists f, f ∈ files /\ Validation.valid (verdict f) = false) ->
   exists response,
     run = ([], Ok response)
     /\ status response = 400
     /\ body response
        = ErrorBody
            {| message :=
                 Spec.invalidFilesMessage formatBytes (env context) files;
               code := "VALIDATION_FAILED";
               errStatus := 400;
               details := Some ("field", DetailStr "photos") |})
  /\ ((forall f, f ∈ files -> Validation.valid (verdict f) = true) ->
      exists t response,
        run = (t, Ok response)
        /\ Spec.putsOf t = Spec.writes clock 0 files
        /\ body response
           = UploadBody
               {| success :=
                    if Spec.failedUploads us is [] then true else false;
                  photos := Spec.nonEmpty (Spec.storedPhotos us);
                  errors := Spec.nonEmpty (Spec.failedUploads us) |}
        /\ ((forall i f, files !! i = Some f ->
               exists u,
                 bucketPut bucket (Spec.uploadKey clock i f) f = Ok u) ->
            status response = 201)
        /\ (forall i f e,
              files !! i = Some f ->
              bucketPut bucket (Spec.uploadKey clock i f) f = Throw e ->
              status response = 206
              /\ {| failedFilename := fileName f;
                    failedError :=
                      "Failed to upload " +:+ fileName f +:+ ": " +:+ e |}
                 ∈ Spec.failedUploads us)).
Proof.
  intros Hreach verdict run us. split.
  - intros Hinv. eexists. split; [|split].
    + apply (upload_some_invalid formatBytes _ _ _ _ _ Hreach Hinv).
    + reflexivity.
    + reflexivity.
  - intros Hall.
    destruct (upload_all_valid formatBytes _ _ _ _ _ Hreach Hall)
      as (t & Hrun & Hputs).
    eexists t, _. split; [exact Hrun|]. split; [exact Hputs|].
    split; [reflexivity|]. cbn [status]. fold us. split.
    + intros Hok. subst us. now rewrite failedUploads_none.
    + intros i f e Hi He.
      pose proof (failedUploads_reported bucket clock files 0 i f e Hi He)
        as Hin. fold us in Hin. split; [|exact Hin].
      destruct (Spec.failedUploads us); [|reflexivity].
      now apply elem_of_nil in Hin.
Qed.

(** C10.  The upload handler has no cap on the number of files: whatever
    the size of the batch, if each file passes [validateFile] then each
    is written to storage and the answer is 201 or 206, never a
    rejection; [validateFiles], which alone looks at [maxFiles] and which
    the handler does not call, would have marked every file of a batch
    of more than ten invalid. *)
Theorem upload_batch_size_not_capped
    (formatBytes : number -> string) (context : Context)
    (clock : Upload.Clock) (uploadCounts : gmap string Upload.RateLimitData)
    (bucket : R2Bucket) (files : list File) :
  Spec.reachesValidation context clock uploadCounts bucket files ->
  (forall f, f ∈ files ->
     Validation.valid
       (Validation.validateFile formatBytes f
          (Spec.uploadConstraints (env context))) = true) ->
  let run := snd (Upload.onRequestPost formatBytes context clock
                    uploadCounts) in
  (exists t response,
      run = (t, Ok response)
      /\ (status response = 201 \/ status response = 206)
      /\ Spec.putsOf t = Spec.writes clock 0 files
      /\ length (Spec.putsOf t) = length files)
  /\ ((10 < length files)%nat ->
      forall r,
        r ∈ Validation.validateFiles formatBytes files
              (Spec.uploadConstraints (env context)) ->
        snd r = Validation.invalid
                  "Too many files selected. Maximum allowed: 10").
Proof.
  intros Hreach Hall run. split.
  - destruct (upload_all_valid formatBytes _ _ _ _ _ Hreach Hall)
      as (t & Hrun & Hputs).
    eexists t, _. split; [exact Hrun|]. cbn [status].
    split; [|split; [exact Hputs|]].
    + destruct (Spec.failedUploads _); [now left | now right].
    + now rewrite Hputs, length_writes.
  - intros Hlen r. unfold Validation.validateFiles.
    replace (gt _ _) with true.
    + intros (f & -> & _)%list_elem_of_fmap. reflexivity.
    + symmetry. cbn. apply Z.ltb_lt. lia.
Qed.

(** ** The properties on the sample data *)

Lemma validateFile_magic_bytes_witness :
  let file := Samples.jpegFile "a.jpg" in
  let constraints := Validation.DEFAULT_CONSTRAINTS in
  gt (Num (fileSize file)) (maxFileSize constraints) = false
  /\ arrayIncludes (allowedTypes constraints) (fileType file) = true
  /\ (Validation.validateFile Samples.formatBytes file constraints
      = {| Validation.valid := true; Validation.error := None |}
      <-> Spec.hasImageSignature (fileContent file)).
Proof.
  split; [reflexivity|]. split; [reflexivity|].
  apply (validateFile_magic_bytes Samples.formatBytes
           (Samples.jpegFile "a.jpg") Validation.DEFAULT_CONSTRAINTS);
    reflexivity.
Defined.

Lemma listing_limit_capped_witness :
  let context := Samples.listing [("limit", "500")] in
  method (request context) <> "OPTIONS"
  /\ PHOTOS_BUCKET (env context) <> None
  /\ exists rest,
       trace (Listing.onRequestGet Samples.renderPhotos context)
       = BucketList {| l_prefix := "25thAnniversary/";
                       l_limit := Listing.limitOf (request context);
                       l_cursor := Listing.cursorOf (request context) |}
           :: rest.
Proof.
  split; [discriminate|]. split; [discriminate|].
  apply (listing_limit_capped Samples.renderPhotos
           (Samples.listing [("limit", "500")])); discriminate.
Defined.




Lemma upload_batch_validation_then_writes_witness :
  let files := [Samples.jpegFile "a.jpg"; Samples.jpegFile "bad.jpg"] in
  Spec.reachesValidation (Samples.upload files) Samples.clock
    Samples.noUploadsYet Samples.bucket files
  /\ exists t response,
       snd (Upload.onRequestPost Samples.formatBytes (Samples.upload files)
              Samples.clock Samples.noUploadsYet)
       = (t, Ok response)
       /\ status response = 206.
Proof.
  cbv zeta.
  assert (H : Spec.reachesValidation
                (Samples.upload [Samples.jpegFile "a.jpg";
                                 Samples.jpegFile "bad.jpg"])
                Samples.clock Samples.noUploadsYet Samples.bucket
                [Samples.jpegFile "a.jpg"; Samples.jpegFile "bad.jpg"])
    by (repeat split; try reflexivity; discriminate).
  split; [exact H|].
  destruct (upload_batch_validation_then_writes Samples.formatBytes _ _ _ _ _ H)
    as [_ Hall].
  destruct Hall as (t & response & Hrun & _ & _ & _ & Hfail).
  { intros f Hf.
    repeat (apply elem_of_cons in Hf as [->|Hf]; [reflexivity|]).
    now apply elem_of_nil in Hf. }
  exists t, response. split; [exact Hrun|].
  apply (Hfail 1%nat (Samples.jpegFile "bad.jpg") "Error: R2 down");
    reflexivity.
Defined.

Lemma upload_batch_size_not_capped_witness :
  Spec.reachesValidation (Samples.upload Samples.elevenFiles) Samples.clock
    Samples.noUploadsYet Samples.bucket Samples.elevenFiles
  /\ (forall f, f ∈ Samples.elevenFiles ->
        Validation.valid
          (Validation.validateFile Samples.formatBytes f
             (Spec.uploadConstraints Samples.environment)) = true)
  /\ exists t response,
       snd (Upload.onRequestPost Samples.formatBytes
              (Samples.upload Samples.elevenFiles) Samples.clock
              Samples.noUploadsYet)
       = (t, Ok response)
       /\ length (Spec.putsOf t) = 11%nat.
Proof.
  assert (H : Spec.reachesValidation (Samples.upload Samples.elevenFiles)
                Samples.clock Samples.noUploadsYet Samples.bucket
                Samples.elevenFiles)
    by (repeat split; try reflexivity; discriminate).
  assert (Hv : forall f, f ∈ Samples.elevenFiles ->
                 Validation.valid
                   (Validation.validateFile Samples.formatBytes f
                      (Spec.uploadConstraints Samples.environment)) = true).
  { intros f Hf. apply elem_of_replicate in Hf as [-> _]. reflexivity. }
  split; [exact H|]. split; [exact Hv|].
  destruct (upload_batch_size_not_capped Samples.formatBytes _ _ _ _ _ H Hv)
    as [(t & response & Hrun & _ & _ & Hlen) _].
  exists t, response. split; [exact Hrun | exact Hlen].
Defined.


(** * Further properties *)

(** ** File names *)

Section FileNames.

Import Validation.

Lemma allString_mapString (p : ascii -> bool) (f : ascii -> ascii)
    (s : string) :
  allString p (mapString f s) = allString (fun c => p (f c)) s.
Proof. induction s as [|c s IH]; cbn; congruence. Qed.

Lemma allString_impl (p q : ascii -> bool) (s : string) :
  (forall c, p c = true -> q c = true) ->
  allString p s = true -> allString q s = true.
Proof.
  intros Hpq. induction s as [|c s IH]; cbn; [reflexivity|].
  intros [Hc Hs]%andb_prop. now rewrite (Hpq c Hc), IH.
Qed.

Lemma allString_true (p : ascii -> bool) (s : string) :
  (forall c, p c = true) -> allString p s = true.
Proof.
  intros Hp. induction s as [|c s IH]; cbn; [reflexivity|].
  now rewrite Hp, IH.
Qed.

Lemma mapString_fixed (p : ascii -> bool) (f : ascii -> ascii)
    (s : string) :
  (forall c, p c = true -> f c = c) ->
  allString p s = true -> mapString f s = s.
Proof.
  intros Hf. induction s as [|c s IH]; cbn; [reflexivity|].
  intros [Hc Hs]%andb_prop. now rewrite (Hf c Hc), IH.
Qed.

(** What [collapseUnderscores] keeps and what it achieves. *)
Lemma collapse_allString (p : ascii -> bool) (s : string) :
  allString p s = true -> allString p (collapseUnderscores s) = true.
Proof.
  induction s as [|c s IH]; [reflexivity|].
  cbn [allString]. intros [Hc Hs]%andb_prop.
  cbn [collapseUnderscores].
  destruct (isChar "_" c).
  - destruct s as [|c' s]; [cbn; now rewrite Hc|].
    destruct (isChar "_" c'); [now apply IH|].
    cbn [allString]. now rewrite Hc, IH.
  - cbn [allString]. now rewrite Hc, IH.
Qed.

Lemma collapse_head (c : ascii) (s : string) :
  exists t, collapseUnderscores (String c s) = String c t.
Proof.
  revert c. induction s as [|c' s IH]; intros c.
  - cbn. destruct (isChar "_" c); now eexists.
  - cbn [collapseUnderscores]. destruct (isChar "_" c) eqn:Ec.
    + destruct (isChar "_" c') eqn:Ec'.
      * destruct (IH c') as [t Ht]. cbn [collapseUnderscores] in Ht.
        rewrite Ec' in Ht.
        apply Ascii.eqb_eq in Ec, Ec'. subst. now exists t.
      * now eexists.
    + now eexists.
Qed.

Lemma collapse_cons (c : ascii) (s : string) :
  collapseUnderscores (String c s)
  = if isChar "_" c && Shape.startsUnderscore s then collapseUnderscores s
    else String c (collapseUnderscores s).
Proof.
  cbn [collapseUnderscores]. destruct (isChar "_" c); [|reflexivity].
  destruct s as [|c' s]; [reflexivity|]. cbn [Shape.startsUnderscore andb].
  now destruct (isChar "_" c').
Qed.

Lemma noDouble_cons (c : ascii) (t : string) :
  Shape.noDoubleUnderscore (String c t)
  = negb (isChar "_" c && Shape.startsUnderscore t)
    && Shape.noDoubleUnderscore t.
Proof.
  destruct t as [|c' t]; [|reflexivity].
  cbn. now rewrite andb_false_r.
Qed.

Lemma collapse_starts (s : string) :
  Shape.startsUnderscore (collapseUnderscores s) = Shape.startsUnderscore s.
Proof.
  destruct s as [|c s]; [reflexivity|].
  destruct (collapse_head c s) as [t ->]. reflexivity.
Qed.

Lemma collapse_noDouble (s : string) :
  Shape.noDoubleUnderscore (collapseUnderscores s) = true.
Proof.
  induction s as [|c s IH]; [reflexivity|].
  rewrite collapse_cons.
  destruct (isChar "_" c && Shape.startsUnderscore s) eqn:E; [exact IH|].
  now rewrite noDouble_cons, collapse_starts, E, IH.
Qed.

Lemma collapse_fixed (s : string) :
  Shape.noDoubleUnderscore s = true -> collapseUnderscores s = s.
Proof.
  induction s as [|c s IH]; [reflexivity|].
  rewrite noDouble_cons, collapse_cons.
  intros [Hc Hs]%andb_prop. apply negb_true_iff in Hc.
  now rewrite Hc, IH.
Qed.

Lemma noDouble_mapString (f : ascii -> ascii) (s : string) :
  (forall c, isChar "_" (f c) = isChar "_" c) ->
  Shape.noDoubleUnderscore (mapString f s) = Shape.noDoubleUnderscore s.
Proof.
  intros Hf. induction s as [|c s IH]; [reflexivity|].
  cbn [mapString]. rewrite !noDouble_cons, Hf, IH. do 3 f_equal.
  destruct s; [reflexivity | apply Hf].
Qed.

Lemma collapse_length (s : string) :
  (String.length (collapseUnderscores s) <= String.length s)%nat.
Proof.
  induction s as [|c s IH]; [reflexivity|].
  cbn [collapseUnderscores].
  destruct (isChar "_" c).
  - destruct s as [|c' s]; [reflexivity|].
    destruct (isChar "_" c'); cbn [String.length] in *; lia.
  - cbn [String.length]. lia.
Qed.

Lemma mapString_length (f : ascii -> ascii) (s : string) :
  String.length (mapString f s) = String.length s.
Proof. induction s as [|c s IH]; cbn; congruence. Qed.

Lemma replaced_is_safe (c : ascii) :
  Shape.isSafeChar
    (lowerChar (if isAlnumDotHyphen c then c else "_"%char)) = true.
Proof. by_cases_on_char c. Qed.

Lemma safe_is_kept (c : ascii) :
  Shape.isSafeChar c = true ->
  (if isAlnumDotHyphen c then c else "_"%char) = c.
Proof. destruct c as [[] [] [] [] [] [] [] []]; vm_compute; congruence. Qed.

Lemma safe_is_lower (c : ascii) :
  Shape.isSafeChar c = true -> lowerChar c = c.
Proof. destruct c as [[] [] [] [] [] [] [] []]; vm_compute; congruence. Qed.

Lemma sanitized_safe (filename : string) :
  allString Shape.isSafeChar (sanitizeFilename filename) = true.
Proof.
  unfold sanitizeFilename, toLowerCase.
  rewrite <- collapse_mapString by apply lowerChar_underscore.
  apply collapse_allString. unfold replaceOutside.
  rewrite mapString_mapString.
  rewrite allString_mapString. apply allString_true, replaced_is_safe.
Qed.

Lemma sanitized_noDouble (filename : string) :
  Shape.noDoubleUnderscore (sanitizeFilename filename) = true.
Proof.
  unfold sanitizeFilename, toLowerCase.
  rewrite noDouble_mapString by apply lowerChar_underscore.
  apply collapse_noDouble.
Qed.

(** X1.  A sanitised file name is made of [[a-z0-9._-]] only, holds no
    two underscores in a row and is no longer than the name it comes
    from. *)
Theorem sanitizeFilename_shape (filename : string) :
  allString Shape.isSafeChar (sanitizeFilename filename) = true
  /\ Shape.noDoubleUnderscore (sanitizeFilename filename) = true
  /\ (String.length (sanitizeFilename filename)
      <= String.length filename)%nat.
Proof.
  split; [apply sanitized_safe|]. split; [apply sanitized_noDouble|].
  unfold sanitizeFilename, toLowerCase.
  rewrite mapString_length.
  etransitivity; [apply collapse_length|].
  unfold replaceOutside. now rewrite mapString_length.
Qed.

(** X2.  Sanitising is idempotent: a sanitised name is left as it is. *)
Theorem sanitizeFilename_idempotent (filename : string) :
  sanitizeFilename (sanitizeFilename filename) = sanitizeFilename filename.
Proof.
  pose proof (sanitized_safe filename) as Hsafe.
  pose proof (sanitized_noDouble filename) as Hnd.
  set (s := sanitizeFilename filename) in *.
  unfold sanitizeFilename at 1, toLowerCase, replaceOutside.
  rewrite (mapString_fixed _ _ s safe_is_kept Hsafe).
  rewrite (collapse_fixed s Hnd).
  apply (mapString_fixed _ _ s safe_is_lower Hsafe).
Qed.

End FileNames.

Section UniqueNames.

Import Validation.

Lemma append_assoc (a b c : string) : (a +:+ b) +:+ c = a +:+ (b +:+ c).
Proof.
  induction a as [|x a IH]; [reflexivity|].
  rewrite !append_cons. now rewrite IH.
Qed.

Lemma append_nil_r (a : string) : a +:+ "" = a.
Proof.
  induction a as [|x a IH]; [reflexivity|].
  rewrite append_cons. now rewrite IH.
Qed.

(** Without a dot the whole string is the last segment. *)
Lemma lastSegment_noDot (s : string) :
  forall cur, Shape.noDot s = true -> lastSegment cur s = cur +:+ s.
Proof.
  unfold Shape.noDot, Shape.isDot.
  induction s as [|c s IH]; intros cur; cbn [allString lastSegment].
  - now rewrite append_nil_r.
  - intros [Hc Hs]%andb_prop. apply negb_true_iff in Hc. rewrite Hc.
    rewrite (IH _ Hs), append_assoc. reflexivity.
Qed.

(** After a dot the segment starts afresh. *)
Lemma lastSegment_after_dot (base rest : string) :
  forall cur,
    lastSegment cur (base +:+ "." +:+ rest) = lastSegment "" rest.
Proof.
  induction base as [|c base IH]; intros cur.
  - reflexivity.
  - rewrite append_cons. cbn [lastSegment].
    destruct (isChar "." c); apply IH.
Qed.

(** X3.  [generateUniqueFilename] keeps the extension of the name as
    written: for [base.ext] the result is [<timestamp>-<random>.ext],
    and for a name without a dot the whole name is taken for the
    extension. *)
Theorem generateUniqueFilename_extension (timestamp : Z)
    (random base ext : string) :
  Shape.noDot ext = true ->
  generateUniqueFilename timestamp random (base +:+ "." +:+ ext)
  = ZtoString timestamp +:+ "-" +:+ random +:+ "." +:+ ext
  /\ generateUniqueFilename timestamp random ext
     = ZtoString timestamp +:+ "-" +:+ random +:+ "." +:+ ext.
Proof.
  intros Hext. unfold generateUniqueFilename.
  rewrite lastSegment_after_dot, !(lastSegment_noDot ext "" Hext).
  change ("" +:+ ext) with ext.
  assert (orElse ext "" = ext) as ->
    by (unfold orElse; now destruct (String.eqb_spec ext "")).
  split; reflexivity.
Qed.

Lemma generateUniqueFilename_extension_witness :
  Shape.noDot "JPG" = true
  /\ generateUniqueFilename 1700000000000 "k3x9ab" "photo.JPG"
     = "1700000000000-k3x9ab.JPG".
Proof.
  split; [reflexivity|].
  apply (generateUniqueFilename_extension 1700000000000 "k3x9ab"
           "photo" "JPG"). reflexivity.
Defined.

End UniqueNames.

(** ** Validation of files *)

Lemma arrayIncludes_elem (xs : list string) (x : string) :
  arrayIncludes xs x = true <-> x ∈ xs.
Proof.
  unfold arrayIncludes. rewrite existsb_exists. split.
  - intros (y & Hy & ->%String.eqb_eq). now apply list_elem_of_In.
  - intros H. exists x. split; [now apply list_elem_of_In|].
    apply String.eqb_refl.
Qed.

Section ValidateFiles.

Import Validation.

Variable formatBytes : number -> string.

(** X4.  A file that [validateFile] accepts is within the size limit,
    is of an allowed type, had its first eight bytes read and starts
    with the signature of a JPEG, a PNG or a WebP image. *)
Theorem validateFile_sound (file : File) (constraints : UploadConstraints) :
  valid (validateFile formatBytes file constraints) = true ->
  (forall m, maxFileSize constraints = Num m -> fileSize file <= m)
  /\ fileType file ∈ allowedTypes constraints
  /\ fileIoError file 0 8 = false
  /\ Spec.hasImageSignature (fileContent file)
  /\ validateFile formatBytes file constraints
     = {| valid := true; error := None |}.
Proof.
  unfold validateFile.
  destruct (gt (Num (fileSize file)) (maxFileSize constraints)) eqn:Hs;
    [discriminate|].
  destruct (arrayIncludes (allowedTypes constraints) (fileType file)) eqn:Ht;
    [|discriminate].
  cbn [negb]. destruct (isValidImageFile file) eqn:Hi; [|discriminate].
  intros _. rewrite isValidImageFile_unfold in Hi.
  apply andb_prop in Hi as [Hio Hsig]. apply negb_true_iff in Hio.
  repeat split.
  - intros m Hm. rewrite Hm in Hs. cbn in Hs. now apply Z.ltb_ge in Hs.
  - now apply arrayIncludes_elem.
  - exact Hio.
  - unfold Spec.hasImageSignature.
    rewrite <- (drop_0 (fileContent file)) at 1 2 3.
    rewrite <- !bytesAt_prefix.
    apply orb_prop in Hsig as [[H|H]%orb_prop|H]; [now left | right; now left |].
    apply andb_prop in H as [[H1 _]%andb_prop H2].
    right. right. now split.
Qed.

(** X5.  [validateFiles] gives one verdict per file, in the order of
    the files.  Over the [maxFiles] cap every file is refused with the
    "too many files" message, whatever the file; otherwise the
    verdicts are those of [validateFile]. *)
Theorem validateFiles_verdicts (files : list File)
    (constraints : UploadConstraints) :
  let verdicts := validateFiles formatBytes files constraints in
  map fst verdicts = files
  /\ (forall cap, maxFiles constraints = Num cap ->
        cap < Z.of_nat (length files) ->
        forall v, v ∈ verdicts ->
          snd v = invalid ("Too many files selected. Maximum allowed: "
                           +:+ ZtoString cap))
  /\ (forall cap, maxFiles constraints = Num cap ->
        Z.of_nat (length files) <= cap ->
        verdicts
        = map (fun f => (f, validateFile formatBytes f constraints)) files).
Proof.
  intros verdicts. subst verdicts. unfold validateFiles. repeat split.
  - destruct (gt _ _); rewrite map_map; apply map_id.
  - intros cap Hcap Hlen v. rewrite Hcap. cbn [gt lt].
    replace (cap <? Z.of_nat (length files)) with true
      by (symmetry; now apply Z.ltb_lt).
    intros (f & -> & _)%list_elem_of_fmap. reflexivity.
  - intros cap Hcap Hlen. rewrite Hcap. cbn [gt lt].
    now replace (cap <? Z.of_nat (length files)) with false
      by (symmetry; now apply Z.ltb_ge).
Qed.

End ValidateFiles.

Lemma validateFile_sound_witness :
  Validation.valid
    (Validation.validateFile Samples.formatBytes Samples.webpFile
       Validation.DEFAULT_CONSTRAINTS) = true
  /\ Spec.hasImageSignature (fileContent Samples.webpFile).
Proof.
  split; [reflexivity|].
  apply (validateFile_sound Samples.formatBytes Samples.webpFile
           Validation.DEFAULT_CONSTRAINTS). reflexivity.
Defined.

Lemma validateFiles_verdicts_witness :
  maxFiles Validation.DEFAULT_CONSTRAINTS = Num 10
  /\ 10 < Z.of_nat (length Samples.elevenFiles)
  /\ forall v,
       v ∈ Validation.validateFiles Samples.formatBytes Samples.elevenFiles
             Validation.DEFAULT_CONSTRAINTS ->
       snd v = Validation.invalid
                 "Too many files selected. Maximum allowed: 10".
Proof.
  split; [reflexivity|]. split; [reflexivity|].
  apply (proj1 (proj2 (validateFiles_verdicts Samples.formatBytes
                         Samples.elevenFiles
                         Validation.DEFAULT_CONSTRAINTS)) 10);
    reflexivity.
Defined.

(** ** Error responses and CORS *)

Section Headers.

Lemma headerValues_app (h1 h2 : list (string * string)) (name : string) :
  headerValues (h1 ++ h2) name = headerValues h1 name ++ headerValues h2 name.
Proof. unfold headerValues. now rewrite filter_app, map_app. Qed.

Lemma join_singleton (sep v : string) : join sep [v] = v.
Proof. reflexivity. Qed.

(** Reading a header that was just set gives the value set. *)
Lemma headersGet_set_same (hs : list (string * string))
    (name name' value : string) :
  toLowerCase name' = toLowerCase name ->
  headersGet (headersSet hs name value) name' = Some value.
Proof.
  intros Hn. unfold headersGet, headersSet.
  rewrite headerValues_app.
  assert (headerValues
            (filter (fun h => toLowerCase (fst h) <> toLowerCase name) hs)
            name' = []) as ->.
  { unfold headerValues. rewrite list_filter_filter.
    rewrite (filter_none _ hs); [reflexivity|].
    intros h _ [H1 H2]. congruence. }
  unfold headerValues. rewrite filter_cons_True by (cbn; congruence).
  reflexivity.
Qed.

(** Setting a header leaves the other headers as they were. *)
Lemma headersGet_set_other (hs : list (string * string))
    (name name' value : string) :
  toLowerCase name' <> toLowerCase name ->
  headersGet (headersSet hs name value) name' = headersGet hs name'.
Proof.
  intros Hn. unfold headersGet, headersSet.
  rewrite headerValues_app.
  assert (headerValues [(name, value)] name' = []) as ->.
  { unfold headerValues. rewrite filter_cons_False by (cbn; congruence).
    reflexivity. }
  rewrite app_nil_r. unfold headerValues. rewrite list_filter_filter.
  rewrite (list_filter_iff _
             (fun h : string * string =>
                toLowerCase (fst h) = toLowerCase name')); [reflexivity|].
  intros h. split.
  - now intros [H _].
  - intros H. split; [exact H | congruence].
Qed.

End Headers.

(** X6.  [handleCORS] answers preflights only: a request whose method is
    not [OPTIONS] is passed on; an [OPTIONS] request gets a 204 without
    body, whose [Access-Control-Allow-Origin] is the request's origin
    (or [*] without one) when [*] is among the allowed origins, the
    origin when it is listed, and is left out otherwise. *)
Theorem handleCORS_preflight (request : Request)
    (allowedOrigins : option (list string)) :
  let origins := default ["*"] allowedOrigins in
  let origin := headersGet (reqHeaders request) "Origin" in
  (method request <> "OPTIONS" ->
   ErrorHandling.handleCORS request allowedOrigins = None)
  /\ (method request = "OPTIONS" ->
      exists response,
        ErrorHandling.handleCORS request allowedOrigins = Some response
        /\ status response = 204
        /\ body response = NoBody
        /\ headersGet (headers response) "Access-Control-Allow-Origin"
           = if bool_decide ("*" ∈ origins) then Some (orDefault origin "*")
             else match givenStrOpt origin with
                  | Some o => if bool_decide (o ∈ origins) then Some o
                              else None
                  | None => None
                  end).
Proof.
  intros origins origin. unfold ErrorHandling.handleCORS.
  fold origins. fold origin. split.
  - intros Hm. now destruct (String.eqb_spec (method request) "OPTIONS").
  - intros ->. cbn [String.eqb Ascii.eqb Bool.eqb andb].
    eexists. split; [reflexivity|]. split; [reflexivity|].
    split; [reflexivity|]. cbn [headers].
    destruct (arrayIncludes origins "*") eqn:Hstar.
    + rewrite bool_decide_eq_true_2 by now apply arrayIncludes_elem.
      reflexivity.
    + rewrite bool_decide_eq_false_2
        by (rewrite <- arrayIncludes_elem; congruence).
      destruct origin as [o|]; cbn [truthyStr givenStrOpt default];
        unfold id; [|reflexivity].
      destruct (String.eqb o ""); cbn [negb andb]; [reflexivity|].
      destruct (arrayIncludes origins o) eqn:Ho.
      * rewrite bool_decide_eq_true_2 by now apply arrayIncludes_elem.
        reflexivity.
      * rewrite bool_decide_eq_false_2
          by (rewrite <- arrayIncludes_elem; congruence).
        reflexivity.
Qed.

Lemma handleCORS_preflight_witness :
  let request :=
    {| method := "OPTIONS"; searchParams := [];
       reqHeaders := [("origin", "https://evil.example")];
       formData := Throw "TypeError" |} in
  method request = "OPTIONS"
  /\ exists response,
       ErrorHandling.handleCORS request (Some ["https://bbff.example"])
       = Some response
       /\ headersGet (headers response) "Access-Control-Allow-Origin" = None.
Proof.
  cbv zeta. split; [reflexivity|].
  destruct (proj2 (handleCORS_preflight
                     {| method := "OPTIONS"; searchParams := [];
                        reqHeaders := [("origin", "https://evil.example")];
                        formData := Throw "TypeError" |}
                     (Some ["https://bbff.example"])) eq_refl)
    as (response & Hr & _ & _ & Hh).
  exists response. split; [exact Hr | exact Hh].
Defined.

(** X7.  Every response built by the error helpers is a JSON envelope
    that is never cached and whose [status] field repeats the HTTP
    status; the helpers for validation, upload, authorisation, rate
    limiting and missing files fix the code and the status (400, 400,
    401, 429, 404), none of which is a success. *)
Theorem error_envelopes (message : string) (code : option string)
    (status' : option Z) (details : option (string * Detail))
    (field filename : option string) (retryAfter : option Z) :
  let describes (r : Response) (c : string) (s : Z) :=
    status r = s /\ ok r = false
    /\ headersGet (headers r) "Cache-Control" = Some "no-store"
    /\ headersGet (headers r) "Content-Type" = Some "application/json"
    /\ exists m d,
         body r = ErrorBody {| Types.message := m; Types.code := c;
                               errStatus := s; Types.details := d |} in
  (let r := ErrorHandling.createErrorResponse message code status' details in
   headersGet (headers r) "Cache-Control" = Some "no-store"
   /\ body r = ErrorBody
                 {| Types.message := message;
                    Types.code := default "INTERNAL_ERROR" code;
                    errStatus := status r;
                    Types.details := details |}
   /\ status r = default 500 status')
  /\ describes (ErrorHandling.createValidationError message field)
       "VALIDATION_FAILED" 400
  /\ describes (ErrorHandlingRest.createUploadError message filename)
       "UPLOAD_FAILED" 400
  /\ describes (ErrorHandling.createUnauthorizedError (Some message))
       "UNAUTHORIZED" 401
  /\ describes (ErrorHandling.createRateLimitError (Some message) retryAfter)
       "RATE_LIMITED" 429
  /\ describes (ErrorHandling.createNotFoundError filename)
       "FILE_NOT_FOUND" 404.
Proof.
  cbv zeta. repeat split; try reflexivity; try (now eexists _, _).
  - destruct retryAfter as [r|]; cbn; [destruct (r =? 0)|]; reflexivity.
  - destruct retryAfter as [r|]; cbn; [destruct (r =? 0)|]; reflexivity.
Qed.

(** X8.  [logError] never throws, whatever the analytics sink does; it
    writes one line to the console, then at most one data point of type
    [error], and one more console line if that write failed. *)
Theorem logError_swallows (error : string) (env : Env) :
  outcome (ErrorHandling.logError error env) = Ok tt
  /\ (ANALYTICS env = None ->
      trace (ErrorHandling.logError error env)
      = [ConsoleError ("Error: " +:+ error)])
  /\ (forall a, ANALYTICS env = Some a ->
        trace (ErrorHandling.logError error env)
        = [ConsoleError ("Error: " +:+ error); AnalyticsWrite "error"]
            ++ match writeDataPoint a "error" with
               | Ok _ => []
               | Throw _ => [ConsoleError "Failed to log to analytics:"]
               end).
Proof.
  unfold ErrorHandling.logError, trace, outcome. repeat split.
  - destruct (ANALYTICS env) as [a|]; cbn; [|reflexivity].
    now destruct (writeDataPoint a _) as [[]|].
  - now intros ->.
  - intros a ->. cbn. now destruct (writeDataPoint a _).
Qed.

Lemma logError_swallows_witness :
  ANALYTICS Samples.environment = None
  /\ trace (ErrorHandling.logError "boom" Samples.environment)
     = [ConsoleError "Error: boom"].
Proof.
  split; [reflexivity|].
  apply (proj1 (proj2 (logError_swallows "boom" Samples.environment))).
  reflexivity.
Defined.

(** X9.  [validateEnvironment] returns normally exactly when every
    required variable is set; otherwise it throws, and its message lists
    the missing variables, each once per mention, in the order asked. *)
Theorem validateEnvironment_missing (env : string -> bool)
    (required : list string) :
  (ErrorHandlingRest.validateEnvironment env required = Ok tt
   <-> forall key, key ∈ required -> env key = true)
  /\ ((exists key, key ∈ required /\ env key = false) ->
      ErrorHandlingRest.validateEnvironment env required
      = Throw ("Missing required environment variables: "
               +:+ join ", " (filter (fun key => env key = false) required))).
Proof.
  unfold ErrorHandlingRest.validateEnvironment.
  set (missing := filter (fun key => env key = false) required).
  assert (Hm : missing = [] <-> forall key, key ∈ required -> env key = true).
  { subst missing. split.
    - intros H key Hk. destruct (env key) eqn:E; [reflexivity|].
      exfalso. eapply (filter_nil_not_elem_of _ required key H); eauto.
    - intros H. apply filter_none. intros key Hk. rewrite (H key Hk).
      discriminate. }
  split.
  - rewrite <- Hm. destruct missing; cbn; split; congruence.
  - intros (key & Hk & He).
    destruct missing; [|reflexivity].
    rewrite (proj1 Hm eq_refl key Hk) in He. discriminate.
Qed.

Lemma validateEnvironment_missing_witness :
  let env := fun key : string => String.eqb key "PHOTOS_BUCKET" in
  (exists key, key ∈ ["PHOTOS_BUCKET"; "IMAGES"; "BRANDING_ASSETS"]
               /\ env key = false)
  /\ ErrorHandlingRest.validateEnvironment env
       ["PHOTOS_BUCKET"; "IMAGES"; "BRANDING_ASSETS"]
     = Throw "Missing required environment variables: IMAGES, BRANDING_ASSETS".
Proof.
  cbv zeta.
  assert (H : exists key, key ∈ ["PHOTOS_BUCKET"; "IMAGES"; "BRANDING_ASSETS"]
                          /\ String.eqb key "PHOTOS_BUCKET" = false).
  { exists "IMAGES". split; [set_solver | reflexivity]. }
  split; [exact H|].
  apply (proj2 (validateEnvironment_missing
                  (fun key => String.eqb key "PHOTOS_BUCKET")
                  ["PHOTOS_BUCKET"; "IMAGES"; "BRANDING_ASSETS"]) H).
Defined.

(** ** The image processing adapter *)

Section Adapter.

Import ImageProcessing.

Lemma applyWatermarks_calls (img : ImagesBinding) (p : Proc img)
    (assets : option KVNamespace) (e : Event) :
  e ∈ trace (applyWatermarks img p assets) ->
  Shape.isAdapterCall e = true
  /\ (forall o, e <> ImagesTransform o)
  /\ (forall o, e <> ImagesOutput o).
Proof.
  unfold applyWatermarks, drawLogo, watermarkingFailed, trace.
  unfold tryCatch, bind, call, emit, ret.
  destruct assets as [kv|]; repeat (branch; cbn [fst snd]); simplify_eq/=;
    rewrite ?elem_of_cons, ?elem_of_nil;
    intuition (subst; try reflexivity; discriminate).
Qed.



(** X11.  When watermarking is not asked for, or no branding assets
    are bound, [processImage] reads no asset and draws nothing. *)
Theorem processImage_without_watermark (imageData : Data)
    (options : ImageProcessingOptions) (env : Env) :
  watermark options <> Some true \/ BRANDING_ASSETS env = None ->
  forall e, e ∈ trace (processImage imageData options env) ->
            Shape.isWatermarkCall e = false.
Proof.
  intros Hoff e. unfold processImage, trace.
  destruct (IMAGES env) as [img|]; [|cbn; set_solver].
  assert (Hstep : forall p : Proc img,
             match watermark options, BRANDING_ASSETS env with
             | Some true, Some _ =>
                 applyWatermarks img p (BRANDING_ASSETS env)
             | _, _ => ret p
             end = ret p).
  { intros p. destruct Hoff as [H| ->].
    - destruct (watermark options) as [[]|]; try reflexivity; congruence.
    - now destruct (watermark options) as [[]|]. }
  unfold tryCatch, bind, call, emit, throw.
  destruct (input img imageData) as [p0|x]; cbn [fst snd].
  - destruct (given (width options) || given (height options)).
    + destruct (transform img p0 _) as [p1|x]; cbn [fst snd].
      * rewrite Hstep. cbn. destruct (output img p1 _); cbn;
          rewrite ?elem_of_cons, ?elem_of_nil;
          intuition (subst; reflexivity).
      * cbn. rewrite ?elem_of_cons, ?elem_of_nil;
          intuition (subst; reflexivity).
    + cbn. rewrite Hstep. cbn. destruct (output img p0 _); cbn;
        rewrite ?elem_of_cons, ?elem_of_nil;
        intuition (subst; reflexivity).
  - cbn. rewrite ?elem_of_cons, ?elem_of_nil;
      intuition (subst; reflexivity).
Qed.

Lemma processImage_without_watermark_witness :
  let options :=
    {| width := Some (Num 800); height := None; quality := Some (Num 90);
       format := Some "jpeg"; watermark := Some false |} in
  (watermark options <> Some true
   \/ BRANDING_ASSETS Samples.environment = None)
  /\ forall e,
       e ∈ trace (processImage [xff; xd8; xff] options Samples.environment)
       -> Shape.isWatermarkCall e = false.
Proof.
  cbv zeta.
  assert (H : Some false <> Some true
              \/ BRANDING_ASSETS Samples.environment = None)
    by (left; discriminate).
  split; [exact H|].
  apply (processImage_without_watermark [xff; xd8; xff]
           {| width := Some (Num 800); height := None;
              quality := Some (Num 90); format := Some "jpeg";
              watermark := Some false |}
           Samples.environment H).
Defined.

(** X12.  [processImage] asks for a resize only when a width or a
    height is given (a quality alone does not), and then with the
    given dimensions only: a dimension that is absent, zero or [NaN]
    is left out of the request. *)
Theorem processImage_resize (imageData : Data)
    (options : ImageProcessingOptions) (env : Env) :
  let asked :=
    {| t_width := keepIfGiven (width options);
       t_height := keepIfGiven (height options);
       t_quality := keepIfGiven (quality options) |} in
  (forall o, ImagesTransform o ∈ trace (processImage imageData options env)
             -> o = asked
                /\ (given (width options) = true
                    \/ given (height options) = true))
  /\ (forall img p,
        IMAGES env = Some img -> input img imageData = Ok p ->
        given (width options) || given (height options) = true ->
        exists rest,
          trace (processImage imageData options env)
          = ImagesInput imageData :: ImagesTransform asked :: rest).
Proof.
  intros asked.
  set (mark := fun (img : ImagesBinding) (p : Proc img) =>
                 match watermark options, BRANDING_ASSETS env with
                 | Some true, Some _ =>
                     applyWatermarks img p (BRANDING_ASSETS env)
                 | _, _ => ret p
                 end).
  assert (Hw : forall img (p : Proc img) o,
             ImagesTransform o ∉ fst (mark img p)).
  { intros img p o Hin. subst mark. cbn beta in Hin.
    destruct (watermark options) as [[]|], (BRANDING_ASSETS env) as [kv|];
      try (now apply elem_of_nil in Hin).
    destruct (applyWatermarks_calls img p (Some kv) (ImagesTransform o) Hin)
      as (_ & Hno & _).
    now apply (Hno o). }
  assert (Hrun : forall img,
             IMAGES env = Some img ->
             processImage imageData options env
             = tryCatch
                 (processor <- call (ImagesInput imageData)
                                    (input img imageData) ;;
                  processor <-
                    (if given (width options) || given (height options)
                     then call (ImagesTransform asked)
                               (transform img processor asked)
                     else ret processor) ;;
                  processor <- mark img processor ;;
                  call (ImagesOutput
                          {| o_format := givenStrOpt (format options);
                             o_quality := keepIfGiven (quality options) |})
                       (output img processor
                          {| o_format := givenStrOpt (format options);
                             o_quality := keepIfGiven (quality options) |}))
                 (fun _ =>
                    emit (ConsoleError "Image processing failed:") ;;;
                    throw "Image processing failed")).
  { intros img HI. unfold processImage. now rewrite HI. }
  clearbody mark. split.
  - intros o. destruct (IMAGES env) as [img|] eqn:HI.
    2:{ unfold processImage, trace. rewrite HI. cbn. set_solver. }
    rewrite (Hrun img eq_refl). unfold trace.
    unfold tryCatch, bind, call, emit, throw, ret.
    destruct (input img imageData) as [p0|x]; cbn [fst snd].
    + destruct (given (width options) || given (height options)) eqn:Hg.
      * apply orb_prop in Hg.
        destruct (transform img p0 asked) as [p1|x]; cbn [fst snd].
        -- pose proof (Hw img p1 o) as Hno.
           destruct (mark img p1) as [t [p2|x]]; cbn [fst snd] in *;
             [destruct (output img p2 _)|]; cbn;
             rewrite ?elem_of_cons, ?elem_of_app, ?elem_of_cons,
               ?elem_of_nil;
             intuition (try discriminate; try congruence).
        -- cbn. rewrite ?elem_of_cons, ?elem_of_nil.
           intuition (try discriminate; try congruence).
      * cbn [fst snd app].
        pose proof (Hw img p0 o) as Hno.
        destruct (mark img p0) as [t [p2|x]]; cbn [fst snd] in *;
          [destruct (output img p2 _)|]; cbn;
          rewrite ?elem_of_cons, ?elem_of_app, ?elem_of_cons,
            ?elem_of_nil;
          intuition (try discriminate; try congruence).
    + cbn. rewrite ?elem_of_cons, ?elem_of_nil.
      intuition (try discriminate; try congruence).
  - intros img p HI Hin Hg. rewrite (Hrun img HI). unfold trace.
    unfold tryCatch, bind, call, emit, throw. rewrite Hin, Hg.
    cbn [fst snd].
    destruct (transform img p asked) as [p1|x]; cbn [fst snd].
    + destruct (mark img p1) as [t [p2|x]]; cbn [fst snd];
        [destruct (output img p2 _)|]; cbn; now eexists.
    + cbn. now eexists.
Qed.

Lemma processImage_resize_witness :
  let options :=
    {| width := Some (Num 800); height := Some (Num 0);
       quality := Some (Num 90); format := Some "jpeg";
       watermark := Some false |} in
  IMAGES Samples.environment = Some Samples.brokenDraw
  /\ input Samples.brokenDraw [xff; xd8; xff] = Ok ["input"]
  /\ given (width options) || given (height options) = true
  /\ exists rest,
       trace (processImage [xff; xd8; xff] options Samples.environment)
       = ImagesInput [xff; xd8; xff]
           :: ImagesTransform {| t_width := Some (Num 800);
                                 t_height := None;
                                 t_quality := Some (Num 90) |}
           :: rest.
Proof.
  cbv zeta. repeat (split; [reflexivity|]).
  apply (proj2 (processImage_resize [xff; xd8; xff]
                  {| width := Some (Num 800); height := Some (Num 0);
                     quality := Some (Num 90); format := Some "jpeg";
                     watermark := Some false |}
                  Samples.environment)
               Samples.brokenDraw ["input"]); reflexivity.
Defined.

End Adapter.

(** ** Cache keys and options *)

Section CacheKeys.

(** Tails of equal length can be split off. *)
Lemma append_inj_tail (a b s t : string) :
  String.length s = String.length t ->
  a +:+ s = b +:+ t -> a = b /\ s = t.
Proof.
  intros Hl. revert b; induction a as [|x a IH]; intros [|y b] H;
    rewrite ?append_cons, ?append_nil_l in H.
  - now split.
  - apply (f_equal String.length) in H. cbn in H.
    rewrite length_append in H. lia.
  - apply (f_equal String.length) in H. cbn in H.
    rewrite length_append in H. lia.
  - injection H as -> H. destruct (IH b H) as [-> ->]. now split.
Qed.

(** A cache key ends with the watermark flag. *)
Lemma cacheKey_ends (k : string) (options : ImageProcessingOptions) :
  exists front,
    join "_" (k :: ImageProcessing.optionFields options)
    = front +:+ (match watermark options with
                 | Some true => "_wm"
                 | _ => "-wm"
                 end).
Proof.
  unfold ImageProcessing.optionFields.
  set (w := ImageProcessing.orAuto (width options)).
  set (h := ImageProcessing.orAuto (height options)).
  set (q := ImageProcessing.orAuto (quality options)).
  set (f := orDefault (format options) "auto").
  destruct (watermark options) as [[]|].
  - exists (k +:+ "_" +:+ w +:+ "_" +:+ h +:+ "_" +:+ q +:+ "_" +:+ f).
    rewrite !append_assoc. reflexivity.
  - exists (k +:+ "_" +:+ w +:+ "_" +:+ h +:+ "_" +:+ q +:+ "_" +:+ f
              +:+ "_no").
    rewrite !append_assoc. reflexivity.
  - exists (k +:+ "_" +:+ w +:+ "_" +:+ h +:+ "_" +:+ q +:+ "_" +:+ f
              +:+ "_no").
    rewrite !append_assoc. reflexivity.
Qed.

(** X13.  A watermarked and an unwatermarked rendering never share a
    cache key, whatever the image keys and the other options, with the
    adapter's [createCacheKey] and with the handler's. *)
Theorem cacheKey_separates_watermark (k1 k2 : string)
    (o1 o2 : ImageProcessingOptions) :
  watermark o1 = Some true -> watermark o2 <> Some true ->
  ImageProcessing.createCacheKey k1 o1
  <> ImageProcessing.createCacheKey k2 o2
  /\ Images.createCacheKey k1 o1 <> Images.createCacheKey k2 o2.
Proof.
  intros H1 H2.
  assert (Hne : forall a b,
             join "_" (a :: ImageProcessing.optionFields o1)
             <> join "_" (b :: ImageProcessing.optionFields o2)).
  { intros a b Heq.
    destruct (cacheKey_ends a o1) as [fa Ha].
    destruct (cacheKey_ends b o2) as [fb Hb].
    rewrite Ha, Hb, H1 in Heq.
    destruct (watermark o2) as [[]|]; try congruence;
      now apply append_inj_tail in Heq as [_ ?]. }
  split; apply Hne.
Qed.

Lemma cacheKey_separates_watermark_witness :
  let on :=
    {| width := None; height := None; quality := Some (Num 90);
       format := Some "webp"; watermark := Some true |} in
  let off :=
    {| width := None; height := None; quality := Some (Num 90);
       format := Some "webp"; watermark := Some false |} in
  watermark on = Some true /\ watermark off <> Some true
  /\ Images.createCacheKey "25thAnniversary/a.jpg" on
     <> Images.createCacheKey "25thAnniversary/a.jpg" off.
Proof.
  cbv zeta. split; [reflexivity|]. split; [discriminate|].
  apply (cacheKey_separates_watermark "25thAnniversary/a.jpg"
           "25thAnniversary/a.jpg"
           {| width := None; height := None; quality := Some (Num 90);
              format := Some "webp"; watermark := Some true |}
           {| width := None; height := None; quality := Some (Num 90);
              format := Some "webp"; watermark := Some false |});
    [reflexivity | discriminate].
Defined.

(** X14.  For the same options, the adapter's cache key tells image
    keys apart; the handler's cache key tells them apart exactly as
    far as their sanitised forms differ, so two storage keys that
    differ only in characters outside word, dot and hyphen (such as a
    slash against an underscore) share a cache entry. *)
Theorem cacheKey_tells_keys_apart (k1 k2 : string)
    (options : ImageProcessingOptions) :
  (ImageProcessing.createCacheKey k1 options
   = ImageProcessing.createCacheKey k2 options -> k1 = k2)
  /\ (Images.createCacheKey k1 options = Images.createCacheKey k2 options
      <-> replaceOutside Images.isWordDotHyphen k1
          = replaceOutside Images.isWordDotHyphen k2)
  /\ Images.createCacheKey "25thAnniversary/a/b.jpg" options
     = Images.createCacheKey "25thAnniversary/a_b.jpg" options.
Proof.
  unfold Images.createCacheKey, ImageProcessing.createCacheKey,
    ImageProcessing.optionFields.
  rewrite !join_cons. repeat split.
  - apply append_cancel_r.
  - apply append_cancel_r.
  - now intros ->.
Qed.

(** X15.  [validateProcessingOptions] accepts exactly the options
    whose width and height, when they are integers, lie in 1..4000,
    whose quality, when it is an integer, lies in 1..100, and whose
    format, when it is given and not empty, is one of the three known
    ones; a dimension or quality that is [NaN] is accepted. *)
Theorem validateProcessingOptions_accepts
    (options : ImageProcessingOptions) :
  let within lo hi (n : option number) :=
    forall z, n = Some (Num z) -> lo <= z <= hi in
  Validation.valid (ImageProcessing.validateProcessingOptions options)
  = true
  <-> within 1 4000 (width options)
      /\ within 1 4000 (height options)
      /\ within 1 100 (quality options)
      /\ (forall f, format options = Some f -> f <> "" ->
            f ∈ ["jpeg"; "png"; "webp"]).
Proof.
  intros within.
  assert (Hin : forall lo hi n,
             ImageProcessing.outside lo hi n = false <-> within lo hi n).
  { intros lo hi n. subst within. cbn beta.
    rewrite <- not_true_iff_false, outside_iff.
    unfold Spec.outsideBound. split.
    - intros H z Hz. destruct (decide (lo <= z <= hi)); [assumption|].
      exfalso. apply H. exists z. split; [exact Hz | lia].
    - intros H (z & Hz & Hout). specialize (H z Hz). lia. }
  rewrite <- !Hin. unfold ImageProcessing.validateProcessingOptions.
  destruct (ImageProcessing.outside 1 4000 (width options));
    [cbn; intuition discriminate|].
  destruct (ImageProcessing.outside 1 4000 (height options));
    [cbn; intuition discriminate|].
  destruct (ImageProcessing.outside 1 100 (quality options));
    [cbn; intuition discriminate|].
  destruct (format options) as [f|]; cbn [truthyStr default andb].
  - destruct (String.eqb_spec f ""); cbn [negb andb].
    + cbn. intuition congruence.
    + unfold id. destruct (arrayIncludes _ f) eqn:Hf; cbn.
      * apply arrayIncludes_elem in Hf.
        split; [|reflexivity]. intros _. repeat split; try reflexivity.
        now intros f' [= <-] _.
      * split; [discriminate|]. intros (_ & _ & _ & H).
        apply not_true_iff_false in Hf. exfalso. apply Hf.
        apply arrayIncludes_elem. now apply H.
  - cbn. intuition congruence.
Qed.

End CacheKeys.

Lemma cacheKey_tells_keys_apart_witness :
  let options :=
    {| width := Some (Num 800); height := None; quality := Some (Num 90);
       format := Some "webp"; watermark := Some true |} in
  Images.createCacheKey "25thAnniversary/a.jpg" options
  = Images.createCacheKey "25thAnniversary_a.jpg" options.
Proof.
  cbv zeta.
  apply (proj2 (proj1 (proj2 (cacheKey_tells_keys_apart
                                "25thAnniversary/a.jpg"
                                "25thAnniversary_a.jpg" _)))).
  reflexivity.
Defined.

Lemma validateProcessingOptions_accepts_witness :
  Validation.valid
    (ImageProcessing.validateProcessingOptions
       {| width := Some NaN; height := Some (Num 4000);
          quality := Some (Num 1); format := Some "png";
          watermark := None |}) = true.
Proof.
  apply (proj2 (validateProcessingOptions_accepts
                  {| width := Some NaN; height := Some (Num 4000);
                     quality := Some (Num 1); format := Some "png";
                     watermark := None |})).
  cbn. split; [discriminate|]. split; [intros z [= <-]; lia|].
  split; [intros z [= <-]; lia|].
  intros f [= <-] _. set_solver.
Defined.

(** ** Rate limiting and authentication of uploads *)

Section RateLimit.

Variable request : Request.
Variable env : Env.
Variable limit : Z.
Hypothesis Hlimit :
  parseInt (orElse (UPLOAD_RATE_LIMIT env) "100") = Num limit.

Let client : string := Replay.clientOf request.

Lemma admitted_in_window (times : list Z) :
  forall (uploadCounts : gmap string Upload.RateLimitData) (c R : Z),
    uploadCounts !! client
    = Some {| Upload.count := c; Upload.resetTime := R |} ->
    (forall t, t ∈ times -> t <= R) ->
    Replay.admitted request env times uploadCounts
    = map (fun i => bool_decide (c + Z.of_nat i < limit))
          (seq 0 (length times)).
Proof.
  induction times as [|t times IH]; intros counts c R Hc Hw;
    [reflexivity|].
  cbn [Replay.admitted length seq map].
  unfold Upload.checkRateLimit. fold (Replay.clientOf request).
  fold client. rewrite Hlimit, Hc. cbn [Upload.resetTime Upload.count].
  replace (R <? t) with false
    by (symmetry; apply Z.ltb_ge, Hw; left).
  cbn [Upload.resetTime Upload.count ge le].
  rewrite <- seq_shift, map_map.
  destruct (Z.leb_spec limit c) as [Hge|Hlt].
  - rewrite bool_decide_eq_false_2 by lia. f_equal.
    rewrite (IH counts c R Hc) by (intros; apply Hw; now right).
    apply map_ext. intros i.
    rewrite !bool_decide_eq_false_2 by lia. reflexivity.
  - rewrite bool_decide_eq_true_2 by lia. f_equal.
    rewrite (IH _ (c + 1) R)
      by (try apply lookup_insert_eq; intros; apply Hw; now right).
    apply map_ext. intros i. apply bool_decide_ext. lia.
Qed.

(** X16.  Within one window the rate limiter lets exactly [limit]
    requests of a client pass: for a client not seen before, of the
    requests made at [first] and then at times up to one hour after
    [first], the first [limit] pass and every later one is refused. *)
Theorem rate_limit_window (first : Z) (later : list Z)
    (uploadCounts : gmap string Upload.RateLimitData) :
  0 < limit ->
  uploadCounts !! Replay.clientOf request = None ->
  (forall t, t ∈ later -> t <= first + 3600000) ->
  Replay.admitted request env (first :: later) uploadCounts
  = map (fun i => bool_decide (Z.of_nat i < limit))
        (seq 0 (S (length later))).
Proof.
  intros Hpos Hnew Hw.
  cbn [Replay.admitted length seq map].
  unfold Upload.checkRateLimit. fold (Replay.clientOf request).
  rewrite Hlimit, Hnew. cbn [Upload.resetTime Upload.count ge le].
  replace (limit <=? 0) with false by (symmetry; apply Z.leb_gt; lia).
  rewrite bool_decide_eq_true_2 by lia. f_equal.
  rewrite (admitted_in_window later _ 1 (first + 3600000)).
  - rewrite <- seq_shift, map_map. apply map_ext. intros i.
    apply bool_decide_ext. lia.
  - apply lookup_insert_eq.
  - intros t Ht. specialize (Hw t Ht). lia.
Qed.

(** X17.  A check of the rate limiter touches the window of the
    request's client only; and when it refuses, with status 429 and a
    [Retry-After] of the seconds left in the window, it changes
    nothing at all. *)
Theorem rate_limit_refusal (now : Z)
    (uploadCounts : gmap string Upload.RateLimitData) :
  let result := Upload.checkRateLimit request env now uploadCounts in
  (forall other, other <> Replay.clientOf request ->
     snd result !! other = uploadCounts !! other)
  /\ (forall refusal, fst result = Some refusal ->
        snd result = uploadCounts
        /\ status refusal = 429
        /\ exists c R,
             limit <= c
             /\ (uploadCounts !! Replay.clientOf request
                 = Some {| Upload.count := c; Upload.resetTime := R |}
                 /\ now <= R
                 \/ c = 0 /\ R = now + 3600000)
             /\ headersGet (headers refusal) "Retry-After"
                = if Upload.ceilDiv (R - now) 1000 =? 0 then None
                  else Some (ZtoString (Upload.ceilDiv (R - now) 1000))).
Proof.
  intros result. subst result. unfold Upload.checkRateLimit.
  fold (Replay.clientOf request). rewrite Hlimit.
  set (fresh := {| Upload.count := 0;
                   Upload.resetTime := now + 60 * 60 * 1000 |}).
  set (data := match uploadCounts !! Replay.clientOf request with
               | Some d => if Upload.resetTime d <? now then fresh else d
               | None => fresh
               end).
  assert (Hdata :
            (uploadCounts !! Replay.clientOf request = Some data
             /\ now <= Upload.resetTime data)
            \/ data = fresh).
  { subst data. destruct (uploadCounts !! _) as [d|]; [|now right].
    destruct (Z.ltb_spec (Upload.resetTime d) now); [now right|].
    left. now split. }
  clearbody data. cbn [ge le].
  destruct (Z.leb_spec limit (Upload.count data)) as [Hge|Hlt];
    cbn [fst snd]; split.
  - reflexivity.
  - intros refusal [= <-]. split; [reflexivity|]. split; [reflexivity|].
    exists (Upload.count data), (Upload.resetTime data).
    split; [exact Hge|]. split.
    + destruct Hdata as [[H1 H2]| ->]; [left | right; now split].
      split; [|exact H2]. now destruct data.
    + unfold ErrorHandling.createRateLimitError. cbn [headers].
      now destruct (Upload.ceilDiv _ 1000 =? 0).
  - intros other Ho. now apply lookup_insert_ne.
  - discriminate.
Qed.

End RateLimit.

Lemma rate_limit_window_witness :
  let env := Scenes.bare "test" "2" in
  parseInt (orElse (UPLOAD_RATE_LIMIT env) "100") = Num 2
  /\ Replay.admitted (Samples.getRequest []) env [1000; 2000; 3000; 3601000]
       Samples.noUploadsYet
     = [true; true; false; false].
Proof.
  cbv zeta. split; [reflexivity|].
  apply (rate_limit_window (Samples.getRequest [])
           (Scenes.bare "test" "2") 2 eq_refl 1000
           [2000; 3000; 3601000] Samples.noUploadsYet).
  - lia.
  - reflexivity.
  - intros t Ht.
    repeat (apply elem_of_cons in Ht as [->|Ht]; [lia|]).
    now apply elem_of_nil in Ht.
Defined.

Lemma rate_limit_refusal_witness :
  let env := Scenes.bare "test" "0" in
  parseInt (orElse (UPLOAD_RATE_LIMIT env) "100") = Num 0
  /\ forall other, other <> Replay.clientOf (Samples.getRequest []) ->
       snd (Upload.checkRateLimit (Samples.getRequest []) env 1000
              Samples.noUploadsYet) !! other
       = Samples.noUploadsYet !! other.
Proof.
  cbv zeta. split; [reflexivity|].
  apply (rate_limit_refusal (Samples.getRequest [])
           (Scenes.bare "test" "0") 0 eq_refl 1000
           Samples.noUploadsYet).
Defined.

(** X18.  Uploads are authenticated in two environments only: in
    [production] a request passes exactly when it carries a non-empty
    [Cf-Access-Jwt-Assertion] header (its content is not looked at), in
    [development] exactly when its [X-Upload-Token] is
    [dev-upload-token]; in every other environment every request
    passes.  A refusal is a 401. *)
Theorem validateAuthentication_environments (request : Request) (env : Env) :
  let passes := Upload.validateAuthentication request env = None in
  (ENVIRONMENT env = "production" ->
   (passes <->
    truthyStr (headersGet (reqHeaders request) "Cf-Access-Jwt-Assertion")
    = true))
  /\ (ENVIRONMENT env = "development" ->
      (passes <->
       headersGet (reqHeaders request) "X-Upload-Token"
       = Some "dev-upload-token"))
  /\ (ENVIRONMENT env <> "production" ->
      ENVIRONMENT env <> "development" -> passes)
  /\ (forall refusal,
        Upload.validateAuthentication request env = Some refusal ->
        status refusal = 401).
Proof.
  cbv zeta. unfold Upload.validateAuthentication. repeat split.
  - rewrite H. cbn. destruct (truthyStr _); cbn; [reflexivity | discriminate].
  - rewrite H. cbn. now destruct (truthyStr _).
  - rewrite H. cbn.
    destruct (headersGet (reqHeaders request) "X-Upload-Token") as [tok|];
      cbn; [|discriminate].
    destruct (String.eqb_spec tok ""); cbn; [discriminate|].
    unfold id. destruct (String.eqb_spec tok "dev-upload-token");
      cbn; [congruence | discriminate].
  - rewrite H. cbn. intros ->. reflexivity.
  - intros Hp Hd.
    destruct (String.eqb_spec (ENVIRONMENT env) "production");
      [contradiction|].
    destruct (String.eqb_spec (ENVIRONMENT env) "development");
      [contradiction|]. reflexivity.
  - intros refusal.
    destruct (String.eqb (ENVIRONMENT env) "production" && _);
      [now intros [= <-]|].
    destruct (String.eqb (ENVIRONMENT env) "development"); [|discriminate].
    destruct (negb _ || _); [now intros [= <-] | discriminate].
Qed.

Lemma validateAuthentication_environments_witness :
  ENVIRONMENT Samples.environment <> "production"
  /\ ENVIRONMENT Samples.environment <> "development"
  /\ Upload.validateAuthentication (Samples.getRequest [])
       Samples.environment = None.
Proof.
  split; [discriminate|]. split; [discriminate|].
  apply (validateAuthentication_environments (Samples.getRequest [])
           Samples.environment); discriminate.
Defined.

(** ** The handlers as a whole *)

Lemma tryCatch_outcome {A} (m : Eff A) (h : string -> Eff A) :
  outcome (tryCatch m h)
  = match outcome m with
    | Ok a => Ok a
    | Throw e => outcome (h e)
    end.
Proof.
  destruct m as [t [a|e]]; [reflexivity|].
  unfold outcome. cbn. now destruct (h e).
Qed.

Lemma logged_answer (error : string) (env : Env) (answer : Response) :
  outcome (ErrorHandling.logError error env ;;; ret answer) = Ok answer.
Proof.
  pose proof (logError_ok error env) as H. unfold outcome in *.
  destruct (ErrorHandling.logError error env) as [t o]. cbn in H. subst o.
  reflexivity.
Qed.

Lemma guarded_answer (m : Eff Response) (env : Env) (message : string) :
  exists answer,
    outcome
      (tryCatch m
         (fun error =>
            ErrorHandling.logError error env ;;;
            ret (ErrorHandling.createErrorResponse message None None None)))
    = Ok answer
    /\ ((exists error, outcome m = Throw error) ->
        answer = ErrorHandling.createErrorResponse message None None None).
Proof.
  rewrite tryCatch_outcome. destruct (outcome m) as [a|e].
  - exists a. split; [reflexivity|]. now intros [e [=]].
  - eexists. split; [apply logged_answer | reflexivity].
Qed.

(** X19.  None of the three request handlers ever throws: whatever the
    bindings, the form data or the rendering do, the upload handler, the
    listing handler and the image handler each end with a response. *)
Theorem handlers_always_answer (formatBytes : number -> string)
    (renderPhotos : R2Objects -> string -> Outcome string)
    (context : Context) (clock : Upload.Clock)
    (uploadCounts : gmap string Upload.RateLimitData) (cache : Cache) :
  (exists answer,
     outcome (snd (Upload.onRequestPost formatBytes context clock
                     uploadCounts)) = Ok answer)
  /\ (exists answer,
        outcome (Listing.onRequestGet renderPhotos context) = Ok answer)
  /\ (exists answer,
        outcome (Images.onRequestGet context cache) = Ok answer).
Proof.
  repeat split.
  - unfold Upload.onRequestPost. cbn [snd].
    edestruct guarded_answer as (a & Ha & _); eexists; exact Ha.
  - unfold Listing.onRequestGet.
    edestruct guarded_answer as (a & Ha & _); eexists; exact Ha.
  - unfold Images.onRequestGet.
    edestruct guarded_answer as (a & Ha & _); eexists; exact Ha.
Qed.

Lemma rate_limit_unchanged (request : Request) (env : Env) (now : Z)
    (uploadCounts : gmap string Upload.RateLimitData) (refusal : Response) :
  fst (Upload.checkRateLimit request env now uploadCounts) = Some refusal ->
  snd (Upload.checkRateLimit request env now uploadCounts) = uploadCounts.
Proof.
  unfold Upload.checkRateLimit. cbv zeta.
  destruct (ge _ _); cbn; [reflexivity | discriminate].
Qed.

Section UploadGuards.

Variable formatBytes : number -> string.
Variable context : Context.
Variable clock : Upload.Clock.
Variable uploadCounts : gmap string Upload.RateLimitData.

Let handled : gmap string Upload.RateLimitData * Eff Response :=
  Upload.onRequestPost formatBytes context clock uploadCounts.

Let limited : option Response * gmap string Upload.RateLimitData :=
  Upload.checkRateLimit (request context) (env context) (Upload.now clock)
    uploadCounts.

(** X20.  The guards of the upload handler run in the order preflight,
    storage binding, rate limit, authentication, and the rate limiter
    counts a request before it is authenticated: a preflight request,
    a request while storage is not bound and a rate-limited request
    leave the upload counts as they were, while a request refused by
    authentication has already been counted.  None of the four reads
    the form or writes to storage. *)
Theorem upload_guard_order :
  (method (request context) = "OPTIONS" ->
   exists preflight,
     ErrorHandling.handleCORS (request context) None = Some preflight
     /\ status preflight = 204
     /\ handled = (uploadCounts, ret preflight))
  /\ (method (request context) <> "OPTIONS" ->
      (PHOTOS_BUCKET (env context) = None ->
       fst handled = uploadCounts
       /\ outcome (snd handled)
          = Ok (ErrorHandling.createErrorResponse "Storage not configured"
                  (Some "STORAGE_ERROR") (Some 503) None)
       /\ Spec.putsOf (trace (snd handled)) = [])
      /\ (PHOTOS_BUCKET (env context) <> None ->
          (forall refusal, fst limited = Some refusal ->
             handled = (uploadCounts, ret refusal))
          /\ (fst limited = None ->
              forall refusal,
                Upload.validateAuthentication (request context)
                  (env context) = Some refusal ->
                handled = (snd limited, ret refusal)))).
Proof.
  subst handled limited. unfold Upload.onRequestPost.
  unfold ErrorHandling.handleCORS. split.
  { intros ->. cbn. eexists. repeat split. }
  intros Hm.
  destruct (String.eqb_spec (method (request context)) "OPTIONS");
    [contradiction|].
  split.
  - intros ->. cbn [fst snd]. split; [reflexivity|].
    pose proof (logError_ok "PHOTOS_BUCKET not configured" (env context))
      as Hok.
    pose proof (logError_no_put "PHOTOS_BUCKET not configured"
                  (env context)) as Hput.
    unfold outcome, trace in *.
    destruct (ErrorHandling.logError _ _) as [t o]. cbn in Hok, Hput.
    subst o. cbn. rewrite app_nil_r. now split.
  - intros Hb. destruct (PHOTOS_BUCKET (env context)); [|contradiction].
    pose proof (rate_limit_unchanged (request context) (env context)
                  (Upload.now clock) uploadCounts) as Hsame.
    destruct (Upload.checkRateLimit _ _ _ _) as [[refusal|] counts];
      cbn [fst snd] in *; split.
    + intros ? [= <-]. now rewrite (Hsame refusal eq_refl).
    + discriminate.
    + discriminate.
    + intros _ refusal ->. reflexivity.
Qed.

(** X21.  A request that has passed the four guards and carries no
    file is answered [400 VALIDATION_FAILED] for the field [photos]
    with nothing called; one whose form cannot be read is answered
    [500 INTERNAL_ERROR], [Upload processing failed], and nothing is
    written to storage. *)
Theorem upload_without_files (bucket : R2Bucket) :
  method (request context) <> "OPTIONS" ->
  PHOTOS_BUCKET (env context) = Some bucket ->
  fst limited = None ->
  Upload.validateAuthentication (request context) (env context) = None ->
  (formData (request context) = Ok [] ->
   snd handled
   = ret (ErrorHandling.createValidationError "No files provided"
            (Some "photos")))
  /\ (forall error, formData (request context) = Throw error ->
        outcome (snd handled)
        = Ok (ErrorHandling.createErrorResponse "Upload processing failed"
                (Some "INTERNAL_ERROR") (Some 500) None)
        /\ Spec.putsOf (trace (snd handled)) = []).
Proof.
  intros Hm Hb Hr Ha. subst handled limited.
  unfold Upload.onRequestPost, ErrorHandling.handleCORS.
  destruct (String.eqb_spec (method (request context)) "OPTIONS");
    [contradiction|].
  rewrite Hb.
  destruct (Upload.checkRateLimit _ _ _ _) as [rl counts]. cbn in Hr.
  subst rl. rewrite Ha. cbn [snd]. split.
  - intros ->. reflexivity.
  - intros error ->.
    pose proof (logError_ok error (env context)) as Hok.
    pose proof (logError_no_put error (env context)) as Hput.
    unfold outcome, trace in *.
    destruct (ErrorHandling.logError _ _) as [t o] eqn:Hlog.
    cbn in Hok, Hput. subst o. cbn. rewrite Hlog. cbn.
    rewrite app_nil_r. now split.
Qed.

End UploadGuards.

Lemma upload_guard_order_witness :
  fst (Upload.onRequestPost Samples.formatBytes
         (Scenes.uploadIn (Scenes.named "development") [])
         Samples.clock Samples.noUploadsYet) !! "unknown"
  = Some {| Upload.count := 1; Upload.resetTime := 1700003600000 |}.
Proof.
  destruct (upload_guard_order Samples.formatBytes
              (Scenes.uploadIn (Scenes.named "development") [])
              Samples.clock Samples.noUploadsYet) as [_ Hpost].
  destruct (Hpost ltac:(discriminate)) as [_ Hbound].
  destruct (Hbound ltac:(discriminate)) as [_ Hcounted].
  rewrite (Hcounted eq_refl _ eq_refl). reflexivity.
Defined.

Lemma upload_without_files_witness :
  snd (Upload.onRequestPost Samples.formatBytes (Samples.upload [])
         Samples.clock Samples.noUploadsYet)
  = ret (ErrorHandling.createValidationError "No files provided"
           (Some "photos")).
Proof.
  apply (upload_without_files Samples.formatBytes (Samples.upload [])
           Samples.clock Samples.noUploadsYet Samples.bucket);
    [discriminate | reflexivity | reflexivity | reflexivity | reflexivity].
Defined.

(** ** What an accepted batch reports *)

Lemma startsWith_append (p s : string) : startsWith (p +:+ s) p = true.
Proof.
  induction p as [|c p IH]; [now destruct s|].
  rewrite append_cons. cbn [startsWith]. now rewrite Ascii.eqb_refl, IH.
Qed.

Section Accounting.

Variable bucket : R2Bucket.
Variable clock : Upload.Clock.

Lemma uploads_all_reported (fs : list File) :
  forall k,
    (length (Spec.storedPhotos (Spec.uploads bucket clock k fs))
     + length (Spec.failedUploads (Spec.uploads bucket clock k fs)))%nat
    = length fs.
Proof.
  induction fs as [|f fs IH]; intros k; [reflexivity|].
  specialize (IH (S k)). unfold Spec.storedPhotos, Spec.failedUploads in *.
  cbn [Spec.uploads omap list_omap snd fst]. unfold Spec.settles.
  destruct (bucketPut bucket _ f); cbn [length]; lia.
Qed.

Lemma stored_were_written (fs : list File) :
  forall k photo,
    photo ∈ Spec.storedPhotos (Spec.uploads bucket clock k fs) ->
    exists i f,
      fs !! i = Some f
      /\ photo = Spec.metadataOf clock (k + i) f
      /\ bucketPut bucket (Spec.uploadKey clock (k + i) f) f = Ok tt.
Proof.
  induction fs as [|f fs IH]; intros k photo Hin.
  - now apply elem_of_nil in Hin.
  - unfold Spec.storedPhotos in Hin.
    cbn [Spec.uploads omap list_omap snd fst] in Hin.
    unfold Spec.settles in Hin at 1.
    destruct (bucketPut bucket _ f) as [[]|e] eqn:Hput.
    + apply elem_of_cons in Hin as [->|Hin].
      * exists 0%nat, f. now rewrite Nat.add_0_r.
      * destruct (IH (S k) photo Hin) as (i & g & Hi & Hp & Hw).
        exists (S i), g.
        now replace (k + S i)%nat with (S k + i)%nat by lia.
    + destruct (IH (S k) photo Hin) as (i & g & Hi & Hp & Hw).
      exists (S i), g.
      now replace (k + S i)%nat with (S k + i)%nat by lia.
Qed.

Lemma writes_lookup (fs : list File) :
  forall k i f,
    fs !! i = Some f ->
    (Spec.uploadKey clock (k + i) f, f) ∈ Spec.writes clock k fs.
Proof.
  induction fs as [|g fs IH]; intros k i f Hi; [discriminate|].
  cbn [Spec.writes]. destruct i as [|i].
  - injection Hi as ->. rewrite Nat.add_0_r. left.
  - right. replace (k + S i)%nat with (S k + i)%nat by lia.
    now apply IH.
Qed.

Lemma writes_prefixed (fs : list File) :
  forall k key f,
    (key, f) ∈ Spec.writes clock k fs ->
    startsWith key "25thAnniversary/" = true.
Proof.
  induction fs as [|g fs IH]; intros k key f Hin.
  - now apply elem_of_nil in Hin.
  - cbn [Spec.writes] in Hin. apply elem_of_cons in Hin as [[= -> ->]|Hin].
    + apply startsWith_append.
    + eapply IH, Hin.
Qed.

End Accounting.

(** X22.  An accepted batch is accounted for in full: the photos reported
    as stored and the uploads reported as failed are together as many as
    the files sent.  Each photo reported as stored is one of the files,
    under its sanitized name, with its size and type, and under a key that
    was indeed written, successfully; and every key the handler writes to
    storage lies under [25thAnniversary/]. *)
Theorem upload_accounting (formatBytes : number -> string)
    (context : Context) (clock : Upload.Clock)
    (uploadCounts : gmap string Upload.RateLimitData)
    (bucket : R2Bucket) (files : list File) :
  Spec.reachesValidation context clock uploadCounts bucket files ->
  (forall f, f ∈ files ->
     Validation.valid
       (Validation.validateFile formatBytes f
          {| maxFileSize :=
               parseInt (orElse (MAX_UPLOAD_SIZE (env context)) "10485760");
             allowedTypes := ["image/jpeg"; "image/png"; "image/webp"];
             maxFiles := Num 10 |}) = true) ->
  exists calls answer stored failed,
    snd (Upload.onRequestPost formatBytes context clock uploadCounts)
    = (calls, Ok answer)
    /\ body answer
       = UploadBody {| success := if failed is [] then true else false;
                       photos := if stored is [] then None else Some stored;
                       errors := if failed is [] then None else Some failed |}
    /\ (length stored + length failed)%nat = length files
    /\ (forall photo, photo ∈ stored ->
          exists i f,
            files !! i = Some f
            /\ filename photo = Validation.sanitizeFilename (fileName f)
            /\ size photo = fileSize f
            /\ contentType photo = fileType f
            /\ key photo
               = "25thAnniversary/"
                   +:+ Validation.generateUniqueFilename
                         (Upload.stamp clock i) (Upload.random clock i)
                         (Validation.sanitizeFilename (fileName f))
            /\ BucketPut (key photo) f ∈ calls
            /\ bucketPut bucket (key photo) f = Ok tt)
    /\ (forall key f, BucketPut key f ∈ calls ->
          startsWith key "25thAnniversary/" = true).
Proof.
  intros Hreach Hall.
  destruct (upload_all_valid formatBytes context clock uploadCounts bucket
              files Hreach Hall) as (t & Hrun & Hputs).
  assert (Hcalls : forall key f,
             BucketPut key f ∈ t <-> (key, f) ∈ Spec.putsOf t).
  { intros key f. unfold Spec.putsOf. rewrite list_elem_of_omap. split.
    - intros Hin. exists (BucketPut key f). now split.
    - intros (e & Hin & He). destruct e; try discriminate.
      now injection He as -> ->. }
  eexists t, _, _, _. split; [exact Hrun|]. cbn [body].
  split; [reflexivity|]. split; [apply uploads_all_reported|]. split.
  - intros photo Hin.
    destruct (stored_were_written bucket clock files 0 photo Hin)
      as (i & f & Hi & -> & Hw).
    exists i, f. cbn [Spec.metadataOf filename size contentType key].
    repeat split; try assumption; try reflexivity.
    apply Hcalls. rewrite Hputs. apply (writes_lookup clock files 0 i f Hi).
  - intros key f Hin. apply Hcalls in Hin. rewrite Hputs in Hin.
    eapply writes_prefixed, Hin.
Qed.

Lemma upload_accounting_witness :
  exists calls answer (stored : list PhotoMetadata)
         (failed : list FailedUpload),
    snd (Upload.onRequestPost Samples.formatBytes
           (Samples.upload [Samples.jpegFile "a.jpg";
                            Samples.jpegFile "bad.jpg"])
           Samples.clock Samples.noUploadsYet)
    = (calls, Ok answer)
    /\ (length stored + length failed)%nat = 2%nat.
Proof.
  destruct (upload_accounting Samples.formatBytes
              (Samples.upload [Samples.jpegFile "a.jpg";
                               Samples.jpegFile "bad.jpg"])
              Samples.clock Samples.noUploadsYet Samples.bucket
              [Samples.jpegFile "a.jpg"; Samples.jpegFile "bad.jpg"])
    as (calls & answer & stored & failed & Hrun & _ & Hcount & _).
  - repeat split; discriminate.
  - intros f Hf.
    repeat (apply elem_of_cons in Hf as [->|Hf]; [reflexivity|]).
    now apply elem_of_nil in Hf.
  - now exists calls, answer, stored, failed.
Defined.

(** ** Serving an image *)

Lemma omap_none {A B} (f : A -> option B) (l : list A) :
  (forall x, x ∈ l -> f x = None) -> omap f l = [].
Proof.
  induction l as [|x l IH]; intros H; [reflexivity|].
  cbn. rewrite (H x) by left. apply IH. intros y Hy. apply H. now right.
Qed.

Lemma trace_bind_in {A B} (m : Eff A) (k : A -> Eff B) (e : Event) :
  e ∈ trace (bind m k) ->
  e ∈ trace m \/ exists a, outcome m = Ok a /\ e ∈ trace (k a).
Proof.
  destruct m as [t [a|x]]; unfold trace, outcome; cbn; [|now left].
  destruct (k a) as [t' r] eqn:Hk. cbn. rewrite elem_of_app.
  intros [H|H]; [now left|]. right. exists a. now rewrite Hk.
Qed.

Lemma trace_tryCatch_in {A} (m : Eff A) (h : string -> Eff A) (e : Event) :
  e ∈ trace (tryCatch m h) ->
  e ∈ trace m \/ exists x, outcome m = Throw x /\ e ∈ trace (h x).
Proof.
  destruct m as [t [a|x]]; unfold trace, outcome; cbn; [now left|].
  destruct (h x) as [t' r] eqn:Hh. cbn. rewrite elem_of_app.
  intros [H|H]; [now left|]. right. exists x. now rewrite Hh.
Qed.

Lemma trace_bind_l {A B} (m : Eff A) (k : A -> Eff B) (e : Event) :
  e ∈ trace m -> e ∈ trace (bind m k).
Proof.
  destruct m as [t [a|x]]; unfold trace; cbn; [|easy].
  destruct (k a). cbn. rewrite elem_of_app. now left.
Qed.

Lemma trace_bind_r {A B} (m : Eff A) (k : A -> Eff B) (a : A) (e : Event) :
  outcome m = Ok a -> e ∈ trace (k a) -> e ∈ trace (bind m k).
Proof.
  destruct m as [t o]; unfold trace, outcome; cbn. intros ->.
  destruct (k a). cbn. rewrite elem_of_app. now right.
Qed.

Lemma trace_tryCatch_l {A} (m : Eff A) (h : string -> Eff A) (e : Event) :
  e ∈ trace m -> e ∈ trace (tryCatch m h).
Proof.
  destruct m as [t [a|x]]; unfold trace; cbn; [easy|].
  destruct (h x). cbn. rewrite elem_of_app. now left.
Qed.

(** Splits a call found in the trace of a sequence along its parts. *)
Ltac along H :=
  cbv beta in H;
  lazymatch type of H with
  | _ ∈ trace (tryCatch _ _) =>
      apply trace_tryCatch_in in H as [H|(? & ? & H)]; [along H | along H]
  | _ ∈ trace (bind _ _) =>
      apply trace_bind_in in H as [H|(? & ? & H)]; [along H | along H]
  | _ => idtac
  end.

Ltac one_of H :=
  cbn in H; rewrite ?elem_of_cons, ?elem_of_nil in H;
  intuition (subst; try reflexivity; try discriminate).

Lemma processImage_calls (imageData : Data)
    (options : ImageProcessingOptions) (env : Env) (e : Event) :
  e ∈ trace (ImageProcessing.processImage imageData options env) ->
  Shape.isAdapterCall e = true.
Proof.
  unfold ImageProcessing.processImage.
  destruct (IMAGES env) as [img|]; [|cbn; set_solver].
  intros He. along He; try (one_of He; fail).
  - destruct (_ || _); one_of He.
  - destruct (watermark options) as [[]|]; try (one_of He; fail).
    destruct (BRANDING_ASSETS env) as [kv|] eqn:Hkv; [|one_of He].
    now apply applyWatermarks_calls in He.
Qed.

Lemma fullKeyOf_prefixed (imageKey : string) :
  startsWith (Serving.fullKeyOf imageKey) "25thAnniversary" = true.
Proof.
  unfold Serving.fullKeyOf.
  destruct (startsWith imageKey Images.EVENT_PREFIX) eqn:H; [exact H|].
  apply startsWith_append.
Qed.

Lemma logError_not_get (msg : string) (env : Env) (key : string) :
  BucketGet key ∈ trace (ErrorHandling.logError msg env) -> False.
Proof. intros H. now apply logError_quiet in H. Qed.

Lemma logImageServed_calls (env : Env) (e : Event) :
  e ∈ trace (Images.logImageServed env) ->
  Spec.touchesStoreOrAdapter e = false.
Proof.
  unfold Images.logImageServed.
  destruct (ANALYTICS env) as [a|]; [|cbn; set_solver].
  intros He. along He; one_of He.
Qed.

Lemma givenStrOpt_some (x : option string) (s : string) :
  givenStrOpt x = Some s <-> x = Some s /\ s <> "".
Proof.
  unfold givenStrOpt. destruct x as [t|]; [|split; [discriminate | now intros [[=] _]]].
  destruct (String.eqb_spec t ""); split.
  - discriminate.
  - intros [[= ->] H]. contradiction.
  - intros [= ->]. now split.
  - now intros [[= ->] _].
Qed.

(** X23.  The image handler reads the bucket for a request exactly when
    the request has passed its guards and the cache holds no answer for
    it, and then under one key: the requested key as it is when it
    starts with [25thAnniversary], else the requested key under
    [25thAnniversary/].  A key is never prefixed twice. *)
Theorem image_storage_read (context : Context) (cache : Cache)
    (key : string) :
  (BucketGet key ∈ trace (Images.onRequestGet context cache) <->
   exists bucket imageKey,
     Serving.servable context bucket imageKey
     /\ key = Serving.fullKeyOf imageKey
     /\ cacheMatch cache (Serving.cacheUrl (request context) imageKey)
        = Ok None)
  /\ (forall imageKey,
        startsWith (Serving.fullKeyOf imageKey) "25thAnniversary" = true
        /\ Serving.fullKeyOf (Serving.fullKeyOf imageKey)
           = Serving.fullKeyOf imageKey).
Proof.
  split; [|intros imageKey; split; [apply fullKeyOf_prefixed|]].
  2:{ pose proof (fullKeyOf_prefixed imageKey) as H.
      unfold Serving.fullKeyOf at 1.
      change Images.EVENT_PREFIX with "25thAnniversary". now rewrite H. }
  unfold Images.onRequestGet, Serving.servable, ErrorHandling.handleCORS.
  split.
  - intros He. along He.
    2:{ now apply logError_not_get in He. }
    2:{ one_of He. }
    destruct (String.eqb_spec (method (request context)) "OPTIONS");
      [one_of He|].
    destruct (PHOTOS_BUCKET (env context)) as [bucket|].
    2:{ along He; [now apply logError_not_get in He | one_of He]. }
    destruct (givenStrOpt _) as [imageKey|] eqn:Hkey; [|one_of He].
    destruct (Validation.valid _) eqn:Hvalid; [|one_of He].
    cbn [negb] in He.
    apply trace_bind_in in He as [He|(cached & Hmatch & He)]; [one_of He|].
    destruct cached as [cached|]; [one_of He|].
    apply trace_bind_in in He as [He|(object & Hget & He)].
    { cbn in He. apply list_elem_of_singleton in He. injection He as ->.
      exists bucket, imageKey. repeat split; auto. }
    exfalso. destruct object as [object|]; [|one_of He].
    apply trace_bind_in in He as [He|(processed & Hproc & He)].
    { apply processImage_calls in He. discriminate. }
    destruct (negb (ok processed)).
    { along He; [now apply logError_not_get in He | one_of He]. }
    along He; try (one_of He; fail).
    apply logImageServed_calls in He. discriminate.
  - intros (bucket & imageKey & (Hm & Hb & Hk & Hv) & -> & Hmiss).
    destruct (String.eqb_spec (method (request context)) "OPTIONS");
      [contradiction|].
    rewrite Hb, Hk, Hv. cbn [negb].
    apply trace_tryCatch_l. eapply trace_bind_r; [exact Hmiss|].
    apply trace_bind_l. left.
Qed.

Lemma image_storage_read_witness :
  BucketGet "25thAnniversary/test.jpg"
  ∈ trace (Images.onRequestGet (Scenes.image "test.jpg" []) Samples.cache).
Proof.
  apply (proj1 (image_storage_read (Scenes.image "test.jpg" [])
                  Samples.cache "25thAnniversary/test.jpg")).
  exists Samples.bucket, "test.jpg". repeat split. discriminate.
Defined.

Lemma outcome_bind {A B} (m : Eff A) (k : A -> Eff B) :
  outcome (bind m k)
  = match outcome m with
    | Ok a => outcome (k a)
    | Throw e => Throw e
    end.
Proof.
  destruct m as [t [a|x]]; unfold outcome; cbn; [|reflexivity].
  now destruct (k a).
Qed.

Lemma logImageServed_ok (env : Env) :
  outcome (Images.logImageServed env) = Ok tt.
Proof.
  unfold Images.logImageServed, outcome.
  destruct (ANALYTICS env) as [a|]; cbn; [|reflexivity].
  now destruct (writeDataPoint a _) as [[]|].
Qed.

Section ImageAnswers.

Variable context : Context.
Variable bucket : R2Bucket.
Variable imageKey : string.
Hypothesis Hservable : Serving.servable context bucket imageKey.

Let url : string := Serving.cacheUrl (request context) imageKey.
Let fullKey : string := Serving.fullKeyOf imageKey.
Let options : ImageProcessingOptions :=
  Images.parseProcessingOptions (request context).

Ltac enter :=
  destruct Hservable as (Hm & Hb & Hk & Hv);
  unfold Images.onRequestGet, ErrorHandling.handleCORS;
  destruct (String.eqb_spec (method (request context)) "OPTIONS");
    [contradiction|];
  rewrite Hb, Hk, Hv; cbn [negb];
  fold (Serving.fullKeyOf imageKey);
  fold (Serving.cacheUrl (request context) imageKey);
  fold url fullKey options.

Lemma served_from_cache (cache : Cache) (cached : Response) :
  cacheMatch cache url = Ok (Some cached) ->
  Images.onRequestGet context cache
  = ([CacheMatch url], Ok (Serving.fromCache cached)).
Proof. enter. intros ->. reflexivity. Qed.

Lemma served_fresh (cache : Cache) (object : R2Object)
    (processed : Response) :
  cacheMatch cache url = Ok None ->
  bucketGet bucket fullKey = Ok (Some object) ->
  outcome (ImageProcessing.processImage (r2Body object) options
             (env context)) = Ok processed ->
  ok processed = true ->
  outcome (Images.onRequestGet context cache)
  = Ok (Serving.freshAnswer context imageKey processed).
Proof.
  enter. intros Hmatch Hget Hproc Hok.
  rewrite tryCatch_outcome, outcome_bind. cbn [outcome call snd].
  rewrite Hmatch, outcome_bind. cbn [outcome call snd].
  rewrite Hget, outcome_bind. rewrite Hproc, Hok. cbn [negb].
  rewrite !outcome_bind, tryCatch_outcome, logImageServed_ok.
  destruct (cachePut cache _ _) as [[]|x]; reflexivity.
Qed.

(** X24.  A request whose answer is in the cache is served from the
    cache and from nothing else: the one call made is the cache
    lookup.  The answer has the status and the body of the cached
    response and its headers, but for [X-Cache], which reads [HIT],
    and [Access-Control-Allow-Origin], which reads [*]. *)
Theorem image_cache_hit (cache : Cache) (cached : Response) :
  cacheMatch cache (Serving.cacheUrl (request context) imageKey)
  = Ok (Some cached) ->
  exists answer,
    Images.onRequestGet context cache
    = ([CacheMatch (Serving.cacheUrl (request context) imageKey)],
       Ok answer)
    /\ status answer = status cached
    /\ body answer = body cached
    /\ headersGet (headers answer) "X-Cache" = Some "HIT"
    /\ headersGet (headers answer) "Access-Control-Allow-Origin"
       = Some "*"
    /\ forall name,
         toLowerCase name <> "x-cache" ->
         toLowerCase name <> "access-control-allow-origin" ->
         headersGet (headers answer) name
         = headersGet (headers cached) name.
Proof.
  intros Hhit. exists (Serving.fromCache cached).
  split; [now apply served_from_cache|].
  unfold Serving.fromCache. cbn [status body headers].
  repeat split.
  - rewrite headersGet_set_other by discriminate.
    now apply headersGet_set_same.
  - now apply headersGet_set_same.
  - intros name H1 H2. now rewrite !headersGet_set_other.
Qed.

(** X25.  How serving fails, for a request that has passed the guards.
    A key that is not in the bucket gives [404 FILE_NOT_FOUND] naming
    the key as requested, after one cache lookup and one bucket read;
    a processed image that is not [ok] gives [500 PROCESSING_ERROR];
    and whatever throws in between (the cache lookup, the bucket read,
    the processing) gives [500 INTERNAL_ERROR], [Failed to serve
    image]. *)
Theorem image_failures (cache : Cache) :
  let run := Images.onRequestGet context cache in
  let url := Serving.cacheUrl (request context) imageKey in
  let fullKey := Serving.fullKeyOf imageKey in
  let failed :=
    ErrorHandling.createErrorResponse "Failed to serve image"
      (Some "INTERNAL_ERROR") (Some 500) None in
  (forall x, cacheMatch cache url = Throw x -> outcome run = Ok failed)
  /\ (cacheMatch cache url = Ok None ->
      (forall x, bucketGet bucket fullKey = Throw x ->
         outcome run = Ok failed)
      /\ (bucketGet bucket fullKey = Ok None ->
          run
          = ([CacheMatch url; BucketGet fullKey],
             Ok (ErrorHandling.createErrorResponse
                   ("File '" +:+ imageKey +:+ "' not found")
                   (Some "FILE_NOT_FOUND") (Some 404)
                   (Some ("filename", DetailStr imageKey)))))
      /\ (forall object,
            bucketGet bucket fullKey = Ok (Some object) ->
            let processing :=
              ImageProcessing.processImage (r2Body object)
                (Images.parseProcessingOptions (request context))
                (env context) in
            (forall x, outcome processing = Throw x ->
               outcome run = Ok failed)
            /\ (forall processed,
                  outcome processing = Ok processed ->
                  ok processed = false ->
                  outcome run
                  = Ok (ErrorHandling.createErrorResponse
                          "Image processing failed"
                          (Some "PROCESSING_ERROR") (Some 500) None)))).
Proof.
  cbv zeta. fold url fullKey options.
  assert (Hkey : imageKey <> "")
    by (destruct Hservable as (_ & _ & Hk & _);
        now apply givenStrOpt_some in Hk).
  split; [|intros Hmatch; split; [|split]].
  - intros x Hx. enter.
    rewrite tryCatch_outcome, outcome_bind. cbn [outcome call snd].
    rewrite Hx. apply logged_answer.
  - intros x Hx. enter.
    rewrite tryCatch_outcome, outcome_bind. cbn [outcome call snd].
    rewrite Hmatch, outcome_bind. cbn [outcome call snd]. rewrite Hx.
    apply logged_answer.
  - intros Hnone. enter. rewrite Hmatch, Hnone. cbn.
    unfold ErrorHandling.createNotFoundError. cbn.
    destruct (String.eqb_spec imageKey ""); [contradiction|]. reflexivity.
  - intros object Hget. split.
    + intros x Hx. enter.
      rewrite tryCatch_outcome, outcome_bind. cbn [outcome call snd].
      rewrite Hmatch, outcome_bind. cbn [outcome call snd].
      rewrite Hget, outcome_bind, Hx. apply logged_answer.
    + intros processed Hp Hnok. enter.
      rewrite tryCatch_outcome, outcome_bind. cbn [outcome call snd].
      rewrite Hmatch, outcome_bind. cbn [outcome call snd].
      rewrite Hget, outcome_bind, Hp, Hnok. cbn [negb].
      now rewrite logged_answer.
Qed.

End ImageAnswers.

Lemma logError_not_cached (msg : string) (env : Env) (url : string)
    (r : Response) :
  CachePut url r ∈ trace (ErrorHandling.logError msg env) -> False.
Proof. intros H. now apply logError_quiet in H. Qed.

(** X26.  Only an image that was served is cached, and what is cached is
    served again.  When the image handler puts a response into the
    cache, its own answer is a [200] marked [X-Cache: MISS]; the response
    put has the same status and body, and as [Cache-Control] the
    configured lifetime; it is put under the URL that was looked up.  A
    later request of the same context that finds this response in the
    cache is answered with the same body, marked [X-Cache: HIT], by the
    cache lookup alone. *)
Theorem image_miss_then_hit (context : Context) (cache : Cache)
    (url : string) (stored : Response) :
  CachePut url stored ∈ trace (Images.onRequestGet context cache) ->
  exists answer,
    outcome (Images.onRequestGet context cache) = Ok answer
    /\ status answer = 200
    /\ headersGet (headers answer) "X-Cache" = Some "MISS"
    /\ CacheMatch url ∈ trace (Images.onRequestGet context cache)
    /\ status stored = 200
    /\ body stored = body answer
    /\ headersGet (headers stored) "Cache-Control"
       = Some ("public, max-age="
               +:+ toString
                     (parseInt (orElse (CACHE_TTL (env context)) "604800")))
    /\ forall later : Cache,
         cacheMatch later url = Ok (Some stored) ->
         exists again,
           Images.onRequestGet context later = ([CacheMatch url], Ok again)
           /\ status again = 200
           /\ body again = body answer
           /\ headersGet (headers again) "X-Cache" = Some "HIT".
Proof.
  intros He.
  assert (Hpath : exists bucket imageKey object processed,
             Serving.servable context bucket imageKey
             /\ url = Serving.cacheUrl (request context) imageKey
             /\ cacheMatch cache url = Ok None
             /\ bucketGet bucket (Serving.fullKeyOf imageKey)
                = Ok (Some object)
             /\ outcome (ImageProcessing.processImage (r2Body object)
                           (Images.parseProcessingOptions (request context))
                           (env context)) = Ok processed
             /\ ok processed = true
             /\ stored
                = Serving.cachedCopy context
                    (Serving.freshAnswer context imageKey processed)).
  { unfold Images.onRequestGet, ErrorHandling.handleCORS in He.
    along He.
    2:{ now apply logError_not_cached in He. }
    2:{ one_of He. }
    destruct (String.eqb_spec (method (request context)) "OPTIONS");
      [one_of He|].
    destruct (PHOTOS_BUCKET (env context)) as [bucket|] eqn:Hb.
    2:{ along He; [now apply logError_not_cached in He | one_of He]. }
    destruct (givenStrOpt _) as [imageKey|] eqn:Hkey; [|one_of He].
    destruct (Validation.valid _) eqn:Hvalid; [|one_of He].
    cbn [negb] in He.
    apply trace_bind_in in He as [He|(cached & Hmatch & He)]; [one_of He|].
    destruct cached as [cached|]; [one_of He|].
    apply trace_bind_in in He as [He|(object & Hget & He)]; [one_of He|].
    destruct object as [object|]; [|one_of He].
    apply trace_bind_in in He as [He|(processed & Hproc & He)].
    { apply processImage_calls in He. discriminate. }
    destruct (ok processed) eqn:Hok; cbn [negb] in He.
    2:{ along He; [now apply logError_not_cached in He | one_of He]. }
    along He; try (one_of He; fail).
    2:{ apply logImageServed_calls in He. discriminate. }
    cbn in He. apply list_elem_of_singleton in He. injection He as -> ->.
    exists bucket, imageKey, object, processed. repeat split; auto. }
  destruct Hpath as (bucket & imageKey & object & processed & Hs & -> & Hmiss
                     & Hget & Hproc & Hok & ->).
  exists (Serving.freshAnswer context imageKey processed).
  split; [now apply (served_fresh context bucket imageKey Hs cache object)|].
  split; [reflexivity|]. split; [reflexivity|]. split.
  { destruct Hs as (Hm & Hb & Hk & Hv).
    unfold Images.onRequestGet, ErrorHandling.handleCORS.
    destruct (String.eqb_spec (method (request context)) "OPTIONS");
      [contradiction|].
    rewrite Hb, Hk, Hv. cbn [negb].
    apply trace_tryCatch_l, trace_bind_l. left. }
  split; [reflexivity|]. split; [reflexivity|]. split.
  { unfold Serving.cachedCopy. cbn [headers].
    now apply headersGet_set_same. }
  intros later Hhit. eexists. split.
  - exact (served_from_cache context bucket imageKey Hs later _ Hhit).
  - unfold Serving.fromCache. cbn [status body headers].
    split; [reflexivity|]. split; [reflexivity|].
    rewrite headersGet_set_other by discriminate.
    now apply headersGet_set_same.
Qed.

Lemma image_cache_hit_witness :
  exists answer,
    Images.onRequestGet (Scenes.image "test.jpg" [])
      (Scenes.warmCache (Samples.rendered "1000"))
    = ([CacheMatch (Serving.cacheUrl (Samples.getRequest []) "test.jpg")],
       Ok answer)
    /\ headersGet (headers answer) "X-Cache" = Some "HIT".
Proof.
  destruct (image_cache_hit (Scenes.image "test.jpg" []) Samples.bucket
              "test.jpg")
    with (cache := Scenes.warmCache (Samples.rendered "1000"))
         (cached := Samples.rendered "1000")
    as (answer & Hrun & _ & _ & Hhit & _).
  - repeat split. discriminate.
  - reflexivity.
  - now exists answer.
Defined.

Lemma image_miss_then_hit_witness :
  exists answer,
    outcome (Images.onRequestGet (Scenes.image "test.jpg" []) Samples.cache)
    = Ok answer
    /\ status answer = 200.
Proof.
  destruct (image_miss_then_hit (Scenes.image "test.jpg" []) Samples.cache
              (Serving.cacheUrl (Samples.getRequest []) "test.jpg")
              (Serving.cachedCopy (Scenes.image "test.jpg" [])
                 (Serving.freshAnswer (Scenes.image "test.jpg" [])
                    "test.jpg" (Samples.rendered "1000"))))
    as (answer & Hrun & Hstatus & _).
  - vm_compute. repeat (first [now left | right]).
  - now exists answer.
Defined.

Lemma image_failures_witness :
  Images.onRequestGet (Scenes.imageFrom Scenes.emptyBucket "gone.jpg")
    Samples.cache
  = ([CacheMatch (Serving.cacheUrl (Samples.getRequest []) "gone.jpg");
      BucketGet "25thAnniversary/gone.jpg"],
     Ok (ErrorHandling.createErrorResponse "File 'gone.jpg' not found"
           (Some "FILE_NOT_FOUND") (Some 404)
           (Some ("filename", DetailStr "gone.jpg")))).
Proof.
  destruct (image_failures (Scenes.imageFrom Scenes.emptyBucket "gone.jpg")
              Scenes.emptyBucket "gone.jpg")
    with (cache := Samples.cache) as (_ & Hmiss).
  - repeat split. discriminate.
  - destruct (Hmiss eq_refl) as (_ & Hgone & _). exact (Hgone eq_refl).
Defined.

(** ** Listing the gallery *)

Lemma logGalleryView_calls (env : Env) (e : Event) :
  e ∈ trace (Listing.logGalleryView env) ->
  Spec.touchesStoreOrAdapter e = false.
Proof.
  unfold Listing.logGalleryView.
  destruct (ANALYTICS env) as [a|]; [|cbn; set_solver].
  intros He. along He; one_of He.
Qed.

Lemma logGalleryView_ok (env : Env) :
  outcome (Listing.logGalleryView env) = Ok tt.
Proof.
  unfold Listing.logGalleryView, outcome.
  destruct (ANALYTICS env) as [a|]; cbn; [|reflexivity].
  now destruct (writeDataPoint a _) as [[]|].
Qed.

Lemma trace_bind_eq {A B} (m : Eff A) (k : A -> Eff B) :
  trace (bind m k)
  = trace m ++ match outcome m with
               | Ok a => trace (k a)
               | Throw _ => []
               end.
Proof.
  destruct m as [t [a|x]]; unfold trace, outcome; cbn;
    [now destruct (k a) | now rewrite app_nil_r].
Qed.

Lemma trace_tryCatch_eq {A} (m : Eff A) (h : string -> Eff A) :
  trace (tryCatch m h)
  = trace m ++ match outcome m with
               | Ok _ => []
               | Throw x => trace (h x)
               end.
Proof.
  destruct m as [t [a|x]]; unfold trace, outcome; cbn;
    [now rewrite app_nil_r | now destruct (h x)].
Qed.

Lemma loud_app (t1 t2 : list Event) :
  Shape.loud (t1 ++ t2) = Shape.loud t1 ++ Shape.loud t2.
Proof. apply filter_app. Qed.

Lemma loud_quiet (t : list Event) :
  (forall e, e ∈ t -> Spec.touchesStoreOrAdapter e = false) ->
  Shape.loud t = [].
Proof.
  intros H. apply filter_none. intros e He. rewrite (H e He). discriminate.
Qed.

Lemma loud_logged (error : string) (env : Env) (answer : Response) :
  Shape.loud (trace (ErrorHandling.logError error env ;;; ret answer)) = [].
Proof.
  rewrite trace_bind_eq, loud_app.
  rewrite (loud_quiet _ (logError_quiet error env)).
  now destruct (outcome _).
Qed.

Section ListingHandler.

Variable renderPhotos : R2Objects -> string -> Outcome string.
Variable context : Context.

Let run : Eff Response := Listing.onRequestGet renderPhotos context.

(** X27.  The listing handler only reads, and only the event's
    photos: apart from logging, the one thing it may call is the
    listing of the bucket, under the prefix [25thAnniversary/], from
    the cursor of the request (none when the parameter is empty or
    absent), and it calls it at most once. *)
Theorem listing_reads_only (e : Event) :
  (e ∈ trace run ->
   Spec.touchesStoreOrAdapter e = false
   \/ exists limit,
        e = BucketList
              {| l_prefix := "25thAnniversary/";
                 l_limit := limit;
                 l_cursor :=
                   match paramGet (searchParams (request context))
                                  "cursor" with
                   | Some c => if String.eqb c "" then None else Some c
                   | None => None
                   end |})
  /\ (length (filter (fun e => Spec.touchesStoreOrAdapter e = true)
                     (trace run)) <= 1)%nat.
Proof.
  subst run. unfold Listing.onRequestGet, ErrorHandling.handleCORS.
  split.
  - intros He. along He.
    2:{ left. now apply logError_quiet in He. }
    2:{ one_of He. }
    destruct (String.eqb (method (request context)) "OPTIONS");
      [one_of He|].
    destruct (PHOTOS_BUCKET (env context)) as [bucket|].
    2:{ along He; [left; now apply logError_quiet in He | one_of He]. }
    apply trace_bind_in in He as [He|(result & Hlist & He)].
    { right. cbn in He. apply list_elem_of_singleton in He. subst e.
      eexists. reflexivity. }
    left. destruct (objects result); [|one_of He].
    along He; try (one_of He; fail).
    now apply logGalleryView_calls in He.
  - match goal with
    | |- (length (filter _ ?t) <= 1)%nat =>
        change (length (Shape.loud t) <= 1)%nat
    end.
    rewrite trace_tryCatch_eq, loud_app, length_app.
    match goal with
    | |- (_ + length (Shape.loud match ?o with _ => _ end) <= 1)%nat =>
        replace (Shape.loud match o with
                            | Ok _ => []
                            | Throw x => _
                            end) with (@nil Event)
          by (destruct o; [reflexivity | now rewrite loud_logged])
    end.
    rewrite Nat.add_0_r.
    destruct (String.eqb (method (request context)) "OPTIONS");
      [unfold Shape.loud; cbn; lia|].
    destruct (PHOTOS_BUCKET (env context)) as [bucket|];
      [|rewrite loud_logged; unfold Shape.loud; cbn; lia].
    rewrite trace_bind_eq, loud_app, length_app.
    cbn [trace call fst outcome snd].
    change (Shape.loud [BucketList ?o]) with [BucketList o].
    cbn [length].
    destruct (bucketList bucket _) as [result|x]; [|cbn; lia].
    destruct (objects result); [|cbn; lia].
    rewrite trace_bind_eq. cbn [trace fst outcome snd app].
    destruct (renderPhotos result _); [|cbn; lia].
    rewrite trace_bind_eq, loud_app.
    rewrite (loud_quiet _ (logGalleryView_calls (env context))).
    destruct (outcome _); cbn; lia.
Qed.

(** X28.  The answers of the listing handler to a request that is no
    preflight.  Without a bucket: [503 STORAGE_ERROR], and nothing is
    called but the log.  When the listing throws, or the conversion
    of the listed objects throws: [500 INTERNAL_ERROR], [Failed to
    list photos].  A listing without objects is answered [200] with
    the empty gallery, by the listing call alone; a listing with
    objects is answered [200] with the converted photos, cacheable for
    30 seconds, whether or not the analytics write succeeds. *)
Theorem listing_answers (bucket : R2Bucket) :
  method (request context) <> "OPTIONS" ->
  let failed :=
    ErrorHandling.createErrorResponse "Failed to list photos"
      (Some "INTERNAL_ERROR") (Some 500) None in
  let listOptions :=
    {| l_prefix := "25thAnniversary/";
       l_limit := Listing.limitOf (request context);
       l_cursor := Listing.cursorOf (request context) |} in
  (PHOTOS_BUCKET (env context) = None ->
   outcome run
   = Ok (ErrorHandling.createErrorResponse "Storage not configured"
           (Some "STORAGE_ERROR") (Some 503) None)
   /\ Shape.loud (trace run) = [])
  /\ (PHOTOS_BUCKET (env context) = Some bucket ->
      (forall x, bucketList bucket listOptions = Throw x ->
         outcome run = Ok failed)
      /\ (forall result,
            bucketList bucket listOptions = Ok result ->
            (objects result = None ->
             run
             = ([BucketList listOptions],
                Ok {| status := 200;
                      headers :=
                        [("Content-Type", "application/json");
                         ("Cache-Control", "public, max-age=30");
                         ("Access-Control-Allow-Origin", "*")];
                      body := EmptyListingBody |}))
            /\ (objects result <> None ->
                (forall x,
                   renderPhotos result (Listing.sortOf (request context))
                   = Throw x ->
                   outcome run = Ok failed)
                /\ (forall text,
                      renderPhotos result
                        (Listing.sortOf (request context)) = Ok text ->
                      exists answer,
                        outcome run = Ok answer
                        /\ status answer = 200
                        /\ body answer = JsonBody text
                        /\ headersGet (headers answer) "Cache-Control"
                           = Some "public, max-age=30")))).
Proof.
  intros Hm. cbv zeta. subst run.
  unfold Listing.onRequestGet, ErrorHandling.handleCORS.
  destruct (String.eqb_spec (method (request context)) "OPTIONS");
    [contradiction|].
  split.
  - intros ->. split.
    + rewrite tryCatch_outcome. now rewrite logged_answer.
    + rewrite trace_tryCatch_eq, loud_app, loud_logged, logged_answer.
      reflexivity.
  - intros ->.
    change (Listing.EVENT_PREFIX +:+ "/") with "25thAnniversary/".
    split.
    + intros x Hx. rewrite tryCatch_outcome, outcome_bind.
      cbn [outcome call snd]. rewrite Hx. apply logged_answer.
    + intros result Hlist. split; [|split].
      * intros Hnone. rewrite Hlist. cbn. now rewrite Hnone.
      * intros x Hx. rewrite tryCatch_outcome, outcome_bind.
        cbn [outcome call snd]. rewrite Hlist.
        destruct (objects result); [|contradiction].
        rewrite outcome_bind. cbn [outcome snd]. rewrite Hx.
        apply logged_answer.
      * intros text Ht. eexists. split.
        { rewrite tryCatch_outcome, outcome_bind.
          cbn [outcome call snd]. rewrite Hlist.
          destruct (objects result); [|contradiction].
          rewrite outcome_bind. cbn [outcome snd]. rewrite Ht.
          rewrite outcome_bind, logGalleryView_ok. reflexivity. }
        repeat split.
Qed.

End ListingHandler.

Lemma listing_reads_only_witness :
  BucketList {| l_prefix := "25thAnniversary/"; l_limit := Num 50;
                l_cursor := None |}
  ∈ trace (Listing.onRequestGet Samples.renderPhotos (Samples.listing []))
  /\ (length (Shape.loud
                (trace (Listing.onRequestGet Samples.renderPhotos
                          (Samples.listing [])))) <= 1)%nat.
Proof.
  split; [left|].
  apply (listing_reads_only Samples.renderPhotos (Samples.listing [])
           (ConsoleError "")).
Defined.

Lemma listing_answers_witness :
  Listing.onRequestGet Samples.renderPhotos (Samples.listing [])
  = ([BucketList {| l_prefix := "25thAnniversary/"; l_limit := Num 50;
                    l_cursor := None |}],
     Ok {| status := 200;
           headers :=
             [("Content-Type", "application/json");
              ("Cache-Control", "public, max-age=30");
              ("Access-Control-Allow-Origin", "*")];
           body := EmptyListingBody |}).
Proof.
  destruct (listing_answers Samples.renderPhotos (Samples.listing [])
              Samples.bucket) as [_ Hbound]; [discriminate|].
  destruct (Hbound eq_refl) as [_ Hlisted].
  destruct (Hlisted _ eq_refl) as [Hempty _].
  exact (Hempty eq_refl).
Defined.

(** ** What the transform service is asked for *)

Lemma processImage_asks (imageData : Data)
    (options : ImageProcessingOptions) (env : Env) (e : Event) :
  e ∈ trace (ImageProcessing.processImage imageData options env) ->
  (forall o, e = ImagesTransform o ->
     o = {| t_width := ImageProcessing.keepIfGiven (width options);
            t_height := ImageProcessing.keepIfGiven (height options);
            t_quality := ImageProcessing.keepIfGiven (quality options) |})
  /\ (forall o, e = ImagesOutput o ->
        o = {| o_format := givenStrOpt (format options);
               o_quality := ImageProcessing.keepIfGiven (quality options) |}).
Proof.
  unfold ImageProcessing.processImage.
  destruct (IMAGES env) as [img|]; [|cbn; set_solver].
  intros He. along He; try (one_of He; congruence).
  - destruct (_ || _); one_of He; congruence.
  - destruct (watermark options) as [[]|]; try (one_of He; fail).
    destruct (BRANDING_ASSETS env) as [kv|] eqn:Hkv; [|one_of He].
    apply applyWatermarks_calls in He as (_ & Ht & Ho).
    split; intros o ->; [now destruct (Ht o) | now destruct (Ho o)].
Qed.

Lemma keepIfGiven_within (lo hi : Z) (n : option number) :
  ImageProcessing.outside lo hi n = false ->
  ImageProcessing.keepIfGiven n = None
  \/ exists z, ImageProcessing.keepIfGiven n = Some (Num z) /\ lo <= z <= hi.
Proof.
  unfold ImageProcessing.outside, ImageProcessing.keepIfGiven,
    ImageProcessing.given.
  destruct n as [[|z]|]; cbn; [now left | | now left].
  destruct (z =? 0); cbn; [now left|].
  rewrite orb_false_iff, !Z.ltb_ge. intros [H1 H2]. right. exists z.
  split; [reflexivity | lia].
Qed.

Lemma valid_inside (options : ImageProcessingOptions) :
  Validation.valid (ImageProcessing.validateProcessingOptions options)
  = true ->
  ImageProcessing.outside 1 4000 (width options) = false
  /\ ImageProcessing.outside 1 4000 (height options) = false
  /\ ImageProcessing.outside 1 100 (quality options) = false.
Proof.
  unfold ImageProcessing.validateProcessingOptions.
  destruct (ImageProcessing.outside 1 4000 (width options));
    [discriminate|].
  destruct (ImageProcessing.outside 1 4000 (height options));
    [discriminate|].
  destruct (ImageProcessing.outside 1 100 (quality options));
    [discriminate|].
  now intros _.
Qed.

(** X29.  The image handler asks the transform service for nothing out
    of bounds: every resize it requests has a width and a height that
    are absent or integers in 1..4000 and a quality that is absent or an
    integer in 1..100 (zero and [NaN] are never passed on), and every
    output it requests is [webp] or [jpeg] at such a quality. *)
Theorem image_requests_within_bounds (context : Context) (cache : Cache)
    (e : Event) :
  let within lo hi (n : option number) :=
    n = None \/ exists z, n = Some (Num z) /\ lo <= z <= hi in
  e ∈ trace (Images.onRequestGet context cache) ->
  (forall o, e = ImagesTransform o ->
     within 1 4000 (t_width o) /\ within 1 4000 (t_height o)
     /\ within 1 100 (t_quality o))
  /\ (forall o, e = ImagesOutput o ->
        within 1 100 (o_quality o)
        /\ (o_format o = Some "webp" \/ o_format o = Some "jpeg")).
Proof.
  intros within He.
  assert (Hquiet : forall msg,
             e ∈ trace (ErrorHandling.logError msg (env context)) ->
             Spec.touchesStoreOrAdapter e = false)
    by (intros msg; apply logError_quiet).
  assert (Hdone : Spec.touchesStoreOrAdapter e = false
                  \/ (exists url, e = CacheMatch url)
                  \/ (exists key, e = BucketGet key)
                  \/ (exists url r, e = CachePut url r) ->
                  (forall o, e = ImagesTransform o ->
                     within 1 4000 (t_width o) /\ within 1 4000 (t_height o)
                     /\ within 1 100 (t_quality o))
                  /\ (forall o, e = ImagesOutput o ->
                        within 1 100 (o_quality o)
                        /\ (o_format o = Some "webp"
                            \/ o_format o = Some "jpeg"))).
  { intros [H|[(url & ->)|[(key & ->)|(url & r & ->)]]];
      split; intros o Ho; subst; discriminate. }
  unfold Images.onRequestGet, ErrorHandling.handleCORS in He.
  along He.
  2:{ apply Hdone. left. now apply Hquiet in He. }
  2:{ one_of He. }
  destruct (String.eqb (method (request context)) "OPTIONS");
    [one_of He|].
  destruct (PHOTOS_BUCKET (env context)) as [bucket|].
  2:{ along He; [apply Hdone; left; now apply Hquiet in He | one_of He]. }
  destruct (givenStrOpt _) as [imageKey|]; [|one_of He].
  destruct (Validation.valid _) eqn:Hvalid; [|one_of He].
  cbn [negb] in He.
  apply trace_bind_in in He as [He|([cached|] & _ & He)];
    [apply Hdone; one_of He; eauto | one_of He |].
  apply trace_bind_in in He as [He|([object|] & _ & He)];
    [apply Hdone; one_of He; eauto 6 | | one_of He].
  apply trace_bind_in in He as [He|(processed & _ & He)].
  - apply processImage_asks in He as [Htransform Houtput].
    apply valid_inside in Hvalid as (Hw & Hh & Hq).
    split; intros o Ho.
    + rewrite (Htransform o Ho). cbn [t_width t_height t_quality].
      repeat split; now apply keepIfGiven_within.
    + rewrite (Houtput o Ho). cbn [o_format o_quality].
      split; [now apply keepIfGiven_within|].
      unfold Images.parseProcessingOptions, ImageProcessing.getOptimalFormat.
      cbn [format]. destruct (includes _ _); [now left | now right].
  - destruct (negb (ok processed)).
    + along He; [apply Hdone; left; now apply Hquiet in He | one_of He].
    + along He; try (one_of He; fail).
      apply Hdone. left. now apply logImageServed_calls in He.
Qed.

Lemma image_requests_within_bounds_witness :
  o_format {| o_format := Some "jpeg"; o_quality := Some (Num 90) |}
  = Some "webp"
  \/ o_format {| o_format := Some "jpeg"; o_quality := Some (Num 90) |}
     = Some "jpeg".
Proof.
  refine (proj2 (proj2 (image_requests_within_bounds
                          (Scenes.image "test.jpg" []) Samples.cache
                          (ImagesOutput {| o_format := Some "jpeg";
                                           o_quality := Some (Num 90) |})
                          _) _ eq_refl)).
  vm_compute. repeat (first [now left | right]).
Defined.
